(** * Protein-Data-Analysis: similarity graph and label propagation

    A shallow embedding of the algorithmic core of the backend services
    ([backend/app/services/label_propagation_service.py],
    [graph_service.py], the parts of [neo4j_service.py] and
    [mongodb_service.py] they call, and the routes of
    [backend/app/routers/annotation.py] in front of them), together with
    the properties stated about it.

    Conventions of the embedding:
    - a Python [dict] is a [gmap]; a Python [set] of strings is a
      [gset string]; Python lists are lists;
    - a Python exception is a value of [exn]; code that can raise lives in
      the [result] monad, code that also talks to the two stores lives in
      the state-and-error monad [io];
    - Python floats that arise as quotients of two integers are the exact
      rationals [Qc]; [0.0], [0.5], [1.0] and [0.01] are the rationals
      they denote;
    - strings are compared with [String.leb] (lexicographic on bytes),
      which is the order [sorted] uses on [str]. *)

From Stdlib Require Import QArith Qcanon.
From stdpp Require Import base numbers option list sorting gmap fin_maps fin_sets strings.

Local Open Scope string_scope.
Local Open Scope nat_scope.
Local Open Scope list_scope.

(** ** Exceptions and the error monad *)

Inductive exn : Type :=
  | KeyError (key : string)
  | ZeroDivisionError
  | ValueError (msg : string)
  | Exception (msg : string).

Inductive result (A : Type) : Type :=
  | Ok (a : A)
  | Raise (e : exn).
Arguments Ok {A} a.
Arguments Raise {A} e.

Global Instance result_ret : MRet result := λ A a, Ok a.
Global Instance result_bind : MBind result := λ A B k m,
  match m with
  | Ok a => k a
  | Raise e => Raise e
  end.

(** A [for] loop whose body may raise: the first exception aborts the loop. *)
Fixpoint for_each {A S} (body : S → A → result S) (xs : list A) (s : S) : result S :=
  match xs with
  | [] => Ok s
  | x :: rest => s' ← body s x ; for_each body rest s'
  end.

(** [d[key]] on a dict. *)
Definition py_getitem {V} (d : gmap string V) (key : string) : result V :=
  match d !! key with
  | Some v => Ok v
  | None => Raise (KeyError key)
  end.

(** [a / b] on two non-negative [int]s (true division). *)
Definition py_truediv (a b : nat) : result Qc :=
  if decide (b = 0) then Raise ZeroDivisionError
  else Ok (Qc_of_Z (Z.of_nat a) / Qc_of_Z (Z.of_nat b))%Qc.

(** Truthiness of an optional list, as in [if d.get(k):]. *)
Definition truthy {A} (o : option (list A)) : bool :=
  match o with
  | Some (_ :: _) => true
  | _ => false
  end.

(** The float literals of the source. *)
Definition float_0_0 : Qc := Qc_of_Z 0.
Definition float_0_5 : Qc := (Qc_of_Z 1 / Qc_of_Z 2)%Qc.
Definition float_1_0 : Qc := Qc_of_Z 1.
Definition float_0_01 : Qc := (Qc_of_Z 1 / Qc_of_Z 100)%Qc.

(** ** Label propagation ([LabelPropagationService]) *)

Module LabelPropagation.

(** A row of the snapshot returned by the graph store. [original_labels]
    is the key that the quality evaluation adds to held-out rows. *)
Record ProteinRow : Type := mkRow {
  protein_id : string;
  labels : list string;
  neighbors : list string;
  original_labels : option (list string);
}.

(** [_build_graph]: later rows with the same id overwrite earlier ones. *)
Definition _build_graph (proteins_data : list ProteinRow) : gmap string (list string) :=
  foldl (λ graph protein, <[protein_id protein := neighbors protein]> graph) ∅ proteins_data.

(** [_extract_initial_labels]. *)
Definition _extract_initial_labels (proteins_data : list ProteinRow) : gmap string (list string) :=
  foldl (λ initial_labels protein,
           <[protein_id protein := if decide (labels protein ≠ []) then labels protein else []]>
             initial_labels) ∅ proteins_data.

(** The tally [neighbor_labels] (a [defaultdict(int)]): one neighbor. *)
Definition tally_neighbor (current_labels : gmap string (gset string))
    (neighbor_labels : gmap string nat) (neighbor : string) : gmap string nat :=
  match current_labels !! neighbor with
  | Some ls =>
      if decide (ls ≠ ∅) then
        foldl (λ acc label, <[label := S (default 0 (acc !! label))]> acc)
              neighbor_labels (elements ls)
      else neighbor_labels
  | None => neighbor_labels
  end.

(** [sorted(neighbor_labels.items(), key=lambda x: x[1], reverse=True)]
    followed by the projection on the label. *)
Definition count_ge (x y : string * nat) : Prop := y.2 ≤ x.2.
Global Instance count_ge_dec : RelDecision count_ge.
Proof. intros x y. unfold count_ge. apply _. Defined.

Definition most_common_labels (neighbor_labels : gmap string nat) : list string :=
  (merge_sort count_ge (map_to_list neighbor_labels)).*1.

(** The body of the loop over [proteins]; the state is
    [(new_labels, changes)]. *)
Definition propagate_protein (graph : gmap string (list string))
    (current_labels : gmap string (gset string))
    (st : gmap string (gset string) * nat) (protein : string)
    : result (gmap string (gset string) * nat) :=
  let '(new_labels, changes) := st in
  nbrs ← py_getitem graph protein ;
  if decide (nbrs = []) then
    cur ← py_getitem current_labels protein ;
    Ok (<[protein := cur]> new_labels, changes)
  else
    let neighbor_labels := foldl (tally_neighbor current_labels) ∅ nbrs in
    new_label_set ←
      (if decide (neighbor_labels ≠ ∅)
       then Ok (list_to_set (most_common_labels neighbor_labels))
       else py_getitem current_labels protein) ;
    cur ← py_getitem current_labels protein ;
    let changes := if decide (cur ≠ new_label_set) then S changes else changes in
    Ok (<[protein := new_label_set]> new_labels, changes).

(** One pass of the outer loop body up to the convergence test:
    [new_labels] and [changes] for the snapshot [current_labels]. *)
Definition propagate_once (graph : gmap string (list string))
    (proteins : list string) (current_labels : gmap string (gset string))
    : result (gmap string (gset string) * nat) :=
  for_each (propagate_protein graph current_labels) proteins (∅, 0).

(** [{p: list(labels) for p, labels in d.items()}]. *)
Definition to_label_lists (d : gmap string (gset string)) : gmap string (list string) :=
  elements <$> d.

(** The loop [for iteration in range(max_iterations)]. *)
Fixpoint propagation_loop (graph : gmap string (list string)) (proteins : list string)
    (max_iterations : Z) (threshold : Qc) (iterations : list nat)
    (current_labels : gmap string (gset string))
    : result (gmap string (list string) * Z * bool) :=
  match iterations with
  | [] => Ok (to_label_lists current_labels, max_iterations, false)
  | iteration :: rest =>
      '(new_labels, changes) ← propagate_once graph proteins current_labels ;
      convergence_rate ← py_truediv changes (length proteins) ;
      if decide (convergence_rate < threshold)%Qc then
        Ok (to_label_lists new_labels, (Z.of_nat iteration + 1)%Z, true)
      else
        propagation_loop graph proteins max_iterations threshold rest new_labels
  end.

(** [list(graph.keys())]. *)
Definition keys (graph : gmap string (list string)) : list string := (map_to_list graph).*1.

Definition _label_propagation (graph : gmap string (list string))
    (initial_labels : gmap string (list string))
    (max_iterations : Z) (threshold : Qc)
    : result (gmap string (list string) * Z * bool) :=
  let proteins := keys graph in
  let current_labels : gmap string (gset string) := list_to_set <$> initial_labels in
  propagation_loop graph proteins max_iterations threshold
    (seq 0 (Z.to_nat max_iterations)) current_labels.

(** [_calculate_confidence_scores]; [initial_labels.get(protein_id)] is
    [None] for a missing key, which is falsy like the empty list. *)
Definition _calculate_confidence_scores (final_labels initial_labels : gmap string (list string))
    : gmap string Qc :=
  foldl (λ (confidence_scores : gmap string Qc) '(protein_id, labels),
           if decide (labels = []) then <[protein_id := float_0_0]> confidence_scores
           else if truthy (initial_labels !! protein_id)
                then <[protein_id := float_1_0]> confidence_scores
                else <[protein_id := float_0_5]> confidence_scores)
        ∅ (map_to_list final_labels).

(** The score of one protein, as a function of its final labels. *)
Definition confidence_of (initial_labels : gmap string (list string))
    (protein_id : string) (labels : list string) : Qc :=
  if decide (labels = []) then float_0_0
  else if truthy (initial_labels !! protein_id) then float_1_0 else float_0_5.

(** *** The trajectory of the loop

    [run_iterations graph current k] replays the body of the loop [k]
    times from [current]: it yields the label state after [k] iterations
    and the value of [changes] in the last of them. *)
Fixpoint run_iterations (graph : gmap string (list string))
    (current_labels : gmap string (gset string)) (k : nat)
    : result (gmap string (gset string) * nat) :=
  match k with
  | 0 => Ok (current_labels, 0)
  | S k' =>
      '(cur, _) ← run_iterations graph current_labels k' ;
      propagate_once graph (keys graph) cur
  end.

(** The union of the label sets of the neighbors that have one. *)
Definition neighbor_union (current_labels : gmap string (gset string))
    (nbrs : list string) : gset string :=
  ⋃ ((λ n, default ∅ (current_labels !! n)) <$> nbrs).

(** The update rule on one protein, as a function of the snapshot. *)
Definition next_label_set (current_labels : gmap string (gset string))
    (nbrs : list string) (cur : gset string) : gset string :=
  if decide (neighbor_union current_labels nbrs = ∅) then cur
  else neighbor_union current_labels nbrs.

Definition step_label (graph : gmap string (list string))
    (current_labels : gmap string (gset string)) (protein : string) : option (gset string) :=
  nbrs ← graph !! protein ;
  cur ← current_labels !! protein ;
  Some (next_label_set current_labels nbrs cur).

Definition sync_step (graph : gmap string (list string))
    (current_labels : gmap string (gset string)) : gmap string (gset string) :=
  map_imap (λ protein _, step_label graph current_labels protein) graph.

Definition changed (graph : gmap string (list string))
    (current_labels : gmap string (gset string)) (protein : string) : Prop :=
  step_label graph current_labels protein ≠ current_labels !! protein.

Global Instance changed_dec graph current_labels protein :
  Decision (changed graph current_labels protein).
Proof. unfold changed. apply _. Defined.

Definition changed_count (graph : gmap string (list string))
    (current_labels : gmap string (gset string)) : nat :=
  length (filter (changed graph current_labels) (keys graph)).

(** Every protein of the graph has a label set. *)
Definition covers (graph : gmap string (list string)) {V} (d : gmap string V) : Prop :=
  dom graph ⊆ dom d.

(** The label state after [k] synchronous updates. *)
Definition labels_after (graph : gmap string (list string))
    (current_labels : gmap string (gset string)) (k : nat) : gmap string (gset string) :=
  Nat.iter k (sync_step graph) current_labels.

(** The convergence rate computed in iteration [k], counted from 1. *)
Definition rate_at (graph : gmap string (list string))
    (current_labels : gmap string (gset string)) (k : nat) : result Qc :=
  '(_, changes) ← run_iterations graph current_labels k ;
  py_truediv changes (length (keys graph)).

Definition rate_below (graph : gmap string (list string))
    (current_labels : gmap string (gset string)) (threshold : Qc) (k : nat) : Prop :=
  ∃ r, rate_at graph current_labels k = Ok r ∧ (r < threshold)%Qc.

(** No protein of the graph loses a label in iteration [k + 1]. *)
Definition grows_at (graph : gmap string (list string))
    (init : gmap string (gset string)) (k : nat) : Prop :=
  ∀ p l l',
    p ∈ dom graph →
    labels_after graph init k !! p = Some l →
    labels_after graph init (S k) !! p = Some l' →
    l ⊆ l'.

End LabelPropagation.

(** ** Similarity edges ([GraphConstructionService] and the all-pairs
       loop of [Neo4jService.build_protein_graph]) *)

Module Similarity.

(** A protein document as the graph construction reads it:
    [protein["protein_id"]] and [protein.get("domains", [])]. *)
Record ProteinDoc : Type := mkDoc {
  doc_id : string;
  domains : list string;
}.

(** The dictionaries appended to [edges]; the all-pairs loop passes the
    same six values to [create_similarity_edge]. *)
Record Edge : Type := mkEdge {
  source_protein_id : string;
  target_protein_id : string;
  weight : Qc;
  jaccard_similarity : Qc;
  shared_domains : list string;
  shared_domain_count : nat;
}.

(** The values of [protein_pairs]. *)
Record PairData : Type := mkPairData {
  pd_shared_domains : gset string;
  pd_shared_count : nat;
}.

(** [_build_domain_index]: [domain_index[domain].append(protein_id)] for
    every domain of [set(protein.get("domains", []))]. *)
Definition index_protein (domain_index : gmap string (list string)) (protein : ProteinDoc)
    : gmap string (list string) :=
  let doms : gset string := list_to_set (domains protein) in
  foldl (λ idx domain, <[domain := default [] (idx !! domain) ++ [doc_id protein]]> idx)
        domain_index (elements doms).

Definition _build_domain_index (proteins_data : list ProteinDoc) : gmap string (list string) :=
  foldl index_protein ∅ proteins_data.

(** [tuple(sorted([protein1, protein2]))]. *)
Definition sorted_pair (protein1 protein2 : string) : string * string :=
  if String.leb protein1 protein2 then (protein1, protein2) else (protein2, protein1).

(** The pairs [(protein_list[i], protein_list[j])] for
    [i in range(len)] and [j in range(i + 1, len)]. *)
Definition bucket_pairs (protein_list : list string) : list (string * string) :=
  i ← seq 0 (length protein_list) ;
  j ← seq (i + 1) (length protein_list - (i + 1)) ;
  [(protein_list !!! i, protein_list !!! j)].

(** The two updates of [protein_pairs[pair_key]] (a [defaultdict]). *)
Definition add_shared (domain : string)
    (protein_pairs : gmap (string * string) PairData) (pr : string * string)
    : gmap (string * string) PairData :=
  let pair_key := sorted_pair pr.1 pr.2 in
  let entry := default (mkPairData ∅ 0) (protein_pairs !! pair_key) in
  <[pair_key := mkPairData ({[domain]} ∪ pd_shared_domains entry) (S (pd_shared_count entry))]>
    protein_pairs.

Definition accumulate_bucket (protein_pairs : gmap (string * string) PairData)
    (item : string * list string) : gmap (string * string) PairData :=
  let '(domain, protein_list) := item in
  if decide (length protein_list < 2) then protein_pairs
  else foldl (add_shared domain) protein_pairs (bucket_pairs protein_list).

Definition accumulate_pairs (domain_index : gmap string (list string))
    : gmap (string * string) PairData :=
  foldl accumulate_bucket ∅ (map_to_list domain_index).

(** [protein_domains]. *)
Definition protein_domains_of (proteins_data : list ProteinDoc) : gmap string (gset string) :=
  foldl (λ protein_domains protein,
           <[doc_id protein := list_to_set (domains protein)]> protein_domains)
        ∅ proteins_data.

(** The body of the loop over [protein_pairs.items()]. *)
Definition score_pair (protein_domains : gmap string (gset string)) (min_similarity : Qc)
    (edges : list Edge) (item : (string * string) * PairData) : result (list Edge) :=
  let '((protein1, protein2), similarity_data) := item in
  domains1 ← py_getitem protein_domains protein1 ;
  domains2 ← py_getitem protein_domains protein2 ;
  let shared := pd_shared_domains similarity_data in
  let union_domains := domains1 ∪ domains2 in
  if decide (union_domains = ∅) then Ok edges
  else
    jaccard ← py_truediv (size shared) (size union_domains) ;
    if decide (min_similarity ≤ jaccard)%Qc then
      Ok (edges ++ [mkEdge protein1 protein2 jaccard jaccard (elements shared) (size shared)])
    else Ok edges.

(** [_compute_similarities]; [min_similarity] is [self.min_similarity]. *)
Definition _compute_similarities (min_similarity : Qc) (proteins_data : list ProteinDoc)
    (domain_index : gmap string (list string)) : result (list Edge) :=
  let protein_domains := protein_domains_of proteins_data in
  let protein_pairs := accumulate_pairs domain_index in
  for_each (score_pair protein_domains min_similarity) (map_to_list protein_pairs) [].

(** The edge computation of [GraphConstructionService.build_protein_graph]. *)
Definition inverted_index_edges (min_similarity : Qc) (proteins_data : list ProteinDoc)
    : result (list Edge) :=
  _compute_similarities min_similarity proteins_data (_build_domain_index proteins_data).

(** The body of the inner loop of [Neo4jService.build_protein_graph]; the
    list collects the arguments of the calls to [create_similarity_edge]. *)
Definition compare_pair (min_similarity : Qc) (protein1 : ProteinDoc)
    (created : list Edge) (protein2 : ProteinDoc) : result (list Edge) :=
  let domains1 : gset string := list_to_set (domains protein1) in
  let domains2 : gset string := list_to_set (domains protein2) in
  if decide (domains1 = ∅ ∨ domains2 = ∅) then Ok created
  else
    let intersection := domains1 ∩ domains2 in
    let union := domains1 ∪ domains2 in
    if decide (intersection = ∅) then Ok created
    else
      jaccard ← py_truediv (size intersection) (size union) ;
      if decide (min_similarity ≤ jaccard)%Qc then
        Ok (created ++ [mkEdge (doc_id protein1) (doc_id protein2) jaccard jaccard
                               (elements intersection) (size intersection)])
      else Ok created.

(** [for i, protein1 in enumerate(proteins_data):
       for j, protein2 in enumerate(proteins_data[i + 1:], i + 1): ...] *)
Definition all_pairs_edges (proteins_data : list ProteinDoc) (min_similarity : Qc)
    : result (list Edge) :=
  for_each (λ created '(i, protein1),
              for_each (compare_pair min_similarity protein1) (drop (i + 1) proteins_data) created)
           (imap pair proteins_data) [].

(** An edge with its endpoints put in canonical order. *)
Definition canonical (e : Edge) : Edge :=
  let '(a, b) := sorted_pair (source_protein_id e) (target_protein_id e) in
  mkEdge a b (weight e) (jaccard_similarity e) (shared_domains e) (shared_domain_count e).

(** *** Specification-side notions *)

Definition domain_set (protein : ProteinDoc) : gset string := list_to_set (domains protein).

(** All pairs [(l[i], l[j])] with [i < j]. *)
Fixpoint ordered_pairs {A} (l : list A) : list (A * A) :=
  match l with
  | [] => []
  | x :: rest => (pair x <$> rest) ++ ordered_pairs rest
  end.

(** The proteins that have a given domain, in input order. *)
Definition bucket (domain : string) (proteins_data : list ProteinDoc) : list string :=
  doc_id <$> filter (λ protein, domain ∈ domain_set protein) proteins_data.

Definition jaccard (a b : gset string) : Qc :=
  (Qc_of_Z (Z.of_nat (size (a ∩ b))) / Qc_of_Z (Z.of_nat (size (a ∪ b))))%Qc.

(** The edge of a pair of proteins, as both computations build it. *)
Definition edge_between (key : string * string) (protein1 protein2 : ProteinDoc) : Edge :=
  let shared := domain_set protein1 ∩ domain_set protein2 in
  mkEdge key.1 key.2
         (jaccard (domain_set protein1) (domain_set protein2))
         (jaccard (domain_set protein1) (domain_set protein2))
         (elements shared) (size shared).

Definition shared_of (protein_pairs : gmap (string * string) PairData)
    (key : string * string) : gset string :=
  match protein_pairs !! key with
  | Some data => pd_shared_domains data
  | None => ∅
  end.

(** What an item of [protein_pairs] contributes to [edges]. *)
Definition scored (protein_domains : gmap string (gset string)) (min_similarity : Qc)
    (item : (string * string) * PairData) : list Edge :=
  match score_pair protein_domains min_similarity [] item with
  | Ok edges => edges
  | Raise _ => []
  end.

(** What a pair of proteins contributes to the all-pairs loop. *)
Definition compared (min_similarity : Qc) (protein1 protein2 : ProteinDoc) : list Edge :=
  if decide (domain_set protein1 ∩ domain_set protein2 ≠ ∅
             ∧ (min_similarity ≤ jaccard (domain_set protein1) (domain_set protein2))%Qc)
  then [edge_between (doc_id protein1, doc_id protein2) protein1 protein2]
  else [].


(** No pair key is stored without a shared domain. *)
Definition nonempty_entries (protein_pairs : gmap (string * string) PairData) : Prop :=
  ∀ key data, protein_pairs !! key = Some data → pd_shared_domains data ≠ ∅.

End Similarity.

(** ** The services and the two stores

    The graph store and the document store are kept as plain data in a
    [World]; every call that reaches a store is recorded in [trace].
    Failures of the network and of document validation are outside the
    model. *)

Module Services.
Import LabelPropagation.

Inductive AnnotationType : Type := GO | EC | INTERPRO.

Global Instance AnnotationType_eq_dec : EqDecision AnnotationType.
Proof. solve_decision. Defined.

Record Annotation : Type := mkAnnotation {
  annotation_type : AnnotationType;
  annotation_value : string;
  evidence : option string;
}.

(** A [Protein] node with the ids at the other end of its [SIMILAR_TO]
    relationships, in either direction. *)
Record Node : Type := mkNode {
  node_protein_id : string;
  node_ec_numbers : option (list string);
  node_go_terms : option (list string);
  node_similar_to : option (list string);
}.

Record MongoProtein : Type := mkMongoProtein {
  doc_ec_numbers : list string;
  doc_go_terms : list string;
}.

Record MongoDb : Type := mkMongoDb {
  proteins_collection : gmap string MongoProtein;
  annotations_collection : list (string * Annotation);
}.

Inductive Event : Type :=
  | GraphReadLabels (attribute : string)
  | GraphSetLabels (protein_id : string) (labels : list string) (attribute : string)
  | MongoFindProtein (protein_id : string)
  | MongoReplaceAnnotations (protein_id : string) (annotations : list Annotation).

Record World : Type := mkWorld {
  driver : option (list Node);
  mongo : option MongoDb;
  trace : list Event;
}.

(** State and exceptions. *)
Definition io (A : Type) : Type := World → result A * World.

Global Instance io_ret : MRet io := λ A a w, (Ok a, w).
Global Instance io_bind : MBind io := λ A B k m w,
  match m w with
  | (Ok a, w') => k a w'
  | (Raise e, w') => (Raise e, w')
  end.

Definition io_raise {A} (e : exn) : io A := λ w, (Raise e, w).
Definition io_lift {A} (r : result A) : io A := λ w, (r, w).
Definition io_get : io World := λ w, (Ok w, w).
Definition io_put (w : World) : io unit := λ _, (Ok tt, w).
Definition io_log (ev : Event) : io unit :=
  λ w, (Ok tt, mkWorld (driver w) (mongo w) (trace w ++ [ev])).

Fixpoint io_for_each {A} (body : A → io unit) (xs : list A) : io unit :=
  match xs with
  | [] => mret tt
  | x :: rest => _ ← body x ; io_for_each body rest
  end.

(** *** [Neo4jService] *)

Definition row_of_node (attribute_labels : Node → option (list string)) (n : Node)
    : ProteinRow :=
  mkRow (node_protein_id n) (default [] (attribute_labels n))
        (default [] (node_similar_to n)) None.

(** [get_proteins_for_label_propagation]: one fresh row per node. *)
Definition get_proteins_for_label_propagation (attribute : string) : io (list ProteinRow) :=
  w ← io_get ;
  match driver w with
  | None => io_raise (Exception "Neo4j driver not initialized")
  | Some nodes =>
      if decide (attribute = "ec") then
        _ ← io_log (GraphReadLabels attribute) ;
        mret (row_of_node node_ec_numbers <$> nodes)
      else if decide (attribute = "go") then
        _ ← io_log (GraphReadLabels attribute) ;
        mret (row_of_node node_go_terms <$> nodes)
      else io_raise (ValueError "Attribute must be 'ec' or 'go'")
  end.

Definition set_node_labels (protein_id : string) (attribute : string)
    (labels : list string) (n : Node) : Node :=
  if decide (node_protein_id n = protein_id) then
    if decide (attribute = "ec")
    then mkNode (node_protein_id n) (Some labels) (node_go_terms n) (node_similar_to n)
    else mkNode (node_protein_id n) (node_ec_numbers n) (Some labels) (node_similar_to n)
  else n.

(** [update_protein_labels]. *)
Definition update_protein_labels (protein_id : string) (labels : list string)
    (attribute : string) : io bool :=
  w ← io_get ;
  match driver w with
  | None => io_raise (Exception "Neo4j driver not initialized")
  | Some nodes =>
      if decide (attribute = "ec" ∨ attribute = "go") then
        _ ← io_put (mkWorld (Some (set_node_labels protein_id attribute labels <$> nodes))
                            (mongo w)
                            (trace w ++ [GraphSetLabels protein_id labels attribute])) ;
        mret (bool_decide (protein_id ∈ node_protein_id <$> nodes))
      else io_raise (ValueError "Attribute must be 'ec' or 'go'")
  end.

(** *** [MongoDBService] *)

(** [get_protein_by_id], reduced to the fields the core reads. *)
Definition get_protein_by_id (protein_id : string) : io (option MongoProtein) :=
  w ← io_get ;
  match mongo w with
  | None => io_raise (Exception "MongoDB not connected")
  | Some db =>
      _ ← io_log (MongoFindProtein protein_id) ;
      mret (proteins_collection db !! protein_id)
  end.

Definition values_of_type (t : AnnotationType) (annotations : list Annotation)
    : list string :=
  annotation_value <$> filter (λ ann, annotation_type ann = t) annotations.

(** [update_protein_annotations]. *)
Definition update_protein_annotations (protein_id : string)
    (annotations : list Annotation) : io bool :=
  w ← io_get ;
  match mongo w with
  | None => io_raise (Exception "MongoDB not connected")
  | Some db =>
      let kept := filter (λ doc, doc.1 ≠ protein_id) (annotations_collection db) in
      let update_data :=
        mkMongoProtein (values_of_type EC annotations) (values_of_type GO annotations) in
      _ ← io_put (mkWorld (driver w)
                    (Some (mkMongoDb
                             (alter (λ _, update_data) protein_id (proteins_collection db))
                             (kept ++ (pair protein_id <$> annotations))))
                    (trace w ++ [MongoReplaceAnnotations protein_id annotations])) ;
      mret (bool_decide (is_Some (proteins_collection db !! protein_id)))
  end.

(** *** [LabelPropagationService] *)

Record LabelPropagationRequest : Type := mkRequest {
  attribute : string;
  max_iterations : Z;
  threshold : Qc;
  min_similarity : Qc;
}.

Record LabelPropagationResult : Type := mkResult {
  iterations_completed : Z;
  converged : bool;
  annotated_proteins : nat;
  confidence_scores : gmap string Qc;
  predicted_labels : gmap string (list string);
}.

Definition new_annotation (attribute : string) (new_annotations : list Annotation)
    (label : string) : list Annotation :=
  if decide (attribute = "ec") then
    new_annotations ++ [mkAnnotation EC label (Some "label_propagation")]
  else if decide (attribute = "go") then
    new_annotations ++ [mkAnnotation GO label (Some "label_propagation")]
  else new_annotations.

(** [_update_protein_labels]. *)
Definition _update_protein_labels (final_labels : gmap string (list string))
    (attribute : string) : io unit :=
  io_for_each (λ '(protein_id, labels),
      _ ← update_protein_labels protein_id labels attribute ;
      protein ← get_protein_by_id protein_id ;
      match protein with
      | Some _ =>
          let new_annotations := foldl (new_annotation attribute) [] labels in
          _ ← update_protein_annotations protein_id new_annotations ;
          mret tt
      | None => mret tt
      end)
    (map_to_list final_labels).

(** [propagate_labels]. *)
Definition propagate_labels (request : LabelPropagationRequest) : io LabelPropagationResult :=
  proteins_data ← get_proteins_for_label_propagation (attribute request) ;
  if decide (proteins_data = []) then
    io_raise (ValueError "No proteins found for label propagation")
  else
    let protein_graph := _build_graph proteins_data in
    let initial_labels := _extract_initial_labels proteins_data (* attribute unused *) in
    '(final_labels, iterations, converged) ←
      io_lift (_label_propagation protein_graph initial_labels
                 (max_iterations request) (threshold request)) ;
    let confidence_scores := _calculate_confidence_scores final_labels initial_labels in
    _ ← _update_protein_labels final_labels (attribute request) ;
    let annotated_count :=
      length (filter (λ p, p ≠ []) (map_to_list final_labels).*2) in
    mret (mkResult iterations converged annotated_count confidence_scores final_labels).

(** *** Quality evaluation

    The rows returned by the store are dictionaries that the evaluation
    mutates in place and reaches through three lists
    ([proteins_data], its shallow copy [modified_data] and
    [holdout_proteins]).  The rows are therefore kept in a heap, a list
    indexed by the position of the row in [proteins_data], and the three
    lists hold positions. *)

Global Instance ProteinRow_inhabited : Inhabited ProteinRow :=
  populate (mkRow "" [] [] None).

Inductive Evaluation : Type :=
  | EvaluationError (error : string)
  | EvaluationReport (holdout_size : nat) (accuracy coverage : Qc)
      (correct_predictions total_predictions : nat).

Section evaluation.

(** Modelled from the spec: [random.sample] of the Python standard
    library, which the repository calls and does not define.
    [choose n k] are the positions, among [n], of the [k] elements drawn
    "uniformly at random without replacement". *)
Context (choose : nat → nat → list nat).

Definition random_sample {A} (population : list A) (k : nat) : result (list A) :=
  if decide (k ≤ length population)
  then Ok (omap (λ i, population !! i) (choose (length population) k))
  else Raise (ValueError "Sample larger than population or is negative").

(** The inner loop of the masking: the first row of [modified_data] with
    the id of the held-out row is masked, then [break]. *)
Definition mask_row (p : ProteinRow) : ProteinRow :=
  mkRow (protein_id p) [] (neighbors p) (Some (labels p)).

Definition mask_holdout (modified_data : list nat) (heap : list ProteinRow)
    (protein : nat) : list ProteinRow :=
  match list_find (λ p, protein_id (heap !!! p) = protein_id (heap !!! protein))
                  modified_data with
  | Some (_, p) => <[p := mask_row (heap !!! p)]> heap
  | None => heap
  end.

(** The body of the scoring loop; the state is
    [(correct_predictions, total_predictions)]. *)
Definition score_holdout (heap : list ProteinRow) (final_labels : gmap string (list string))
    (st : nat * nat) (protein : nat) : result (nat * nat) :=
  let '(correct_predictions, total_predictions) := st in
  let protein_id := protein_id (heap !!! protein) in
  original ← (match original_labels (heap !!! protein) with
              | Some l => Ok l
              | None => Raise (KeyError "original_labels")
              end) ;
  let original_labels : gset string := list_to_set original in
  let predicted_labels : gset string := list_to_set (default [] (final_labels !! protein_id)) in
  if decide (predicted_labels ≠ ∅) then
    if decide (original_labels ∩ predicted_labels ≠ ∅)
    then Ok (S correct_predictions, S total_predictions)
    else Ok (correct_predictions, S total_predictions)
  else Ok (correct_predictions, total_predictions).

(** [evaluate_propagation_quality]. *)
Definition evaluate_propagation_quality (attribute : string) : io Evaluation :=
  heap ← get_proteins_for_label_propagation attribute ;
  let proteins_data := seq 0 (length heap) in
  let initially_annotated := filter (λ p, labels (heap !!! p) ≠ []) proteins_data in
  if decide (initially_annotated = []) then
    mret (EvaluationError "No initially annotated proteins found for evaluation")
  else
    let holdout_size := 1 `max` (length initially_annotated `div` 5) in
    holdout_proteins ← io_lift (random_sample initially_annotated holdout_size) ;
    let modified_data := proteins_data in
    let heap := foldl (mask_holdout modified_data) heap holdout_proteins in
    let graph := _build_graph ((heap !!!.) <$> modified_data) in
    let initial_labels := _extract_initial_labels ((heap !!!.) <$> modified_data) in
    '(final_labels, _, _) ← io_lift (_label_propagation graph initial_labels 100 float_0_01) ;
    '(correct_predictions, total_predictions) ←
      io_lift (for_each (score_holdout heap final_labels) holdout_proteins (0, 0)) ;
    accuracy ← io_lift (if decide (0 < total_predictions)
                        then py_truediv correct_predictions total_predictions
                        else Ok float_0_0) ;
    coverage ← io_lift (py_truediv total_predictions (length holdout_proteins)) ;
    mret (EvaluationReport (length holdout_proteins) accuracy coverage
            correct_predictions total_predictions).

End evaluation.

(** *** Specification-side notions for the evaluation *)


Definition predicted (final_labels : gmap string (list string)) (p : ProteinRow) : Prop :=
  default [] (final_labels !! protein_id p) ≠ [].

Definition correctly_predicted (final_labels : gmap string (list string))
    (p : ProteinRow) : Prop :=
  (list_to_set (labels p) : gset string)
    ∩ list_to_set (default [] (final_labels !! protein_id p)) ≠ ∅.

Global Instance predicted_dec final_labels p : Decision (predicted final_labels p).
Proof. unfold predicted. apply _. Defined.
Global Instance correctly_predicted_dec final_labels p :
  Decision (correctly_predicted final_labels p).
Proof. unfold correctly_predicted. apply _. Defined.

(** The world after one more store call. *)
Definition logged (ev : Event) (w : World) : World :=
  mkWorld (driver w) (mongo w) (trace w ++ [ev]).

(** A computation that does not end in a division by zero. *)
Definition safe {A} (r : result A) : Prop := r ≠ Raise ZeroDivisionError.

Definition io_safe {A} (m : io A) : Prop := ∀ w, safe (m w).1.

(** The contract of [random.sample] at one call: [k] distinct positions
    of the population. *)
Definition sample_contract (choose : nat → nat → list nat) (n k : nat) : Prop :=
  length (choose n k) = k ∧ NoDup (choose n k) ∧ ∀ i, i ∈ choose n k → i < n.

End Services.

(** ** The write-back on connected stores

    What the loop of [_update_protein_labels] leaves in the two stores
    when both are connected and the attribute is supported, as functions
    of the stores: used to state what the loop does. *)

Module WriteBack.
Import LabelPropagation Services.

(** The stores after the body of the loop for one protein: the labels
    are set on the nodes with that id; when the document store has the
    protein, its annotations are replaced and its two label lists
    rewritten. *)
Definition write_back_one (attribute protein_id : string) (labels : list string)
    (nodes : list Node) (db : MongoDb) : list Node * MongoDb :=
  (set_node_labels protein_id attribute labels <$> nodes,
   match proteins_collection db !! protein_id with
   | Some _ =>
       mkMongoDb
         (alter (λ _, mkMongoProtein (if decide (attribute = "ec") then labels else [])
                                     (if decide (attribute = "ec") then [] else labels))
                protein_id (proteins_collection db))
         (filter (λ doc, doc.1 ≠ protein_id) (annotations_collection db)
          ++ (pair protein_id
              <$> ((λ label, mkAnnotation (if decide (attribute = "ec") then EC else GO)
                                          label (Some "label_propagation")) <$> labels)))
   | None => db
   end).

(** The stores after the loop over [items]. *)
Definition write_back_all (attribute : string) (items : list (string * list string))
    (nodes : list Node) (db : MongoDb) : list Node * MongoDb :=
  foldl (λ st item, write_back_one attribute item.1 item.2 st.1 st.2) (nodes, db) items.

End WriteBack.

(** ** Similarity queries ([GraphConstructionService]) *)

Module Queries.
Import Similarity.

(** Modelled from the spec: [list.sort(key=..., reverse=True)] and
    [sorted(..., key=..., reverse=True)] of the Python standard library,
    which sort in descending order of the key and keep elements with
    equal keys in their original order.  [lt x y] stands for
    [key(x) < key(y)]. *)
Fixpoint insert_desc {A} (lt : A → A → Prop) `{!RelDecision lt} (x : A) (l : list A)
    : list A :=
  match l with
  | [] => [x]
  | y :: rest => if decide (lt x y) then y :: insert_desc lt x rest else x :: y :: rest
  end.

Definition sort_desc {A} (lt : A → A → Prop) `{!RelDecision lt} (l : list A) : list A :=
  foldr (insert_desc lt) [] l.


(** [calculate_jaccard_similarity]. *)
Definition calculate_jaccard_similarity (set1 set2 : gset string) : result Qc :=
  if decide (set1 = ∅ ∨ set2 = ∅) then Ok float_0_0
  else
    let intersection := set1 ∩ set2 in
    let union := set1 ∪ set2 in
    if decide (union ≠ ∅) then py_truediv (size intersection) (size union)
    else Ok float_0_0.

(** The document store as the queries read it: the protein documents
    and the domain documents [(protein_id, domain_id)], each in the order
    in which the collection returns them.  The validation of a document
    by the [Protein] model is outside the model. *)
Record ProteinEntry : Type := mkEntry {
  entry_protein_id : string;
  entry_name : option string;
}.

Record DocStore : Type := mkDocStore {
  protein_docs : list ProteinEntry;
  domain_docs : list (string * string);
}.

Definition domain_ids_of (db : DocStore) (protein_id : string) : list string :=
  (filter (λ doc, doc.1 = protein_id) (domain_docs db)).*2.

(** [MongoDBService.get_protein_by_id], reduced to the id and the domain
    ids of the protein found. *)
Definition get_protein_by_id (store : option DocStore) (protein_id : string)
    : result (option (string * list string)) :=
  match store with
  | None => Raise (Exception "MongoDB not connected")
  | Some db =>
      match list_find (λ doc, entry_protein_id doc = protein_id) (protein_docs db) with
      | None => Ok None
      | Some (_, protein_doc) =>
          Ok (Some (entry_protein_id protein_doc, domain_ids_of db protein_id))
      end
  end.


(** The dictionaries returned by [find_similar_proteins]. *)
Record SimilarProtein : Type := mkSimilar {
  similar_protein_id : string;
  similar_name : option string;
  similarity : Qc;
  similar_shared_domains : list string;
}.

Definition lower_similarity (x y : SimilarProtein) : Prop :=
  (similarity x < similarity y)%Qc.
Global Instance lower_similarity_dec : RelDecision lower_similarity.
Proof. intros x y. unfold lower_similarity. apply _. Defined.



(** The first loop of [get_protein_similarity_matrix]: the proteins
    found, in the order of the request. *)
Definition collect_protein (store : option DocStore)
    (proteins_data : list (string * list string)) (protein_id : string)
    : result (list (string * list string)) :=
  protein ← get_protein_by_id store protein_id ;
  match protein with
  | Some found => Ok (proteins_data ++ [found])
  | None => Ok proteins_data
  end.

(** The body of the inner loop:
    [similarity_matrix[protein1["protein_id"]][protein2["protein_id"]] = similarity]. *)
Definition fill_cell (protein1 : string * list string)
    (similarity_matrix : gmap string (gmap string Qc)) (protein2 : string * list string)
    : result (gmap string (gmap string Qc)) :=
  let domains1 : gset string := list_to_set protein1.2 in
  let domains2 : gset string := list_to_set protein2.2 in
  similarity ← calculate_jaccard_similarity domains1 domains2 ;
  row ← py_getitem similarity_matrix protein1.1 ;
  Ok (<[protein1.1 := <[protein2.1 := similarity]> row]> similarity_matrix).

(** [get_protein_similarity_matrix]. *)
Definition get_protein_similarity_matrix (store : option DocStore)
    (protein_ids : list string) : result (gmap string (gmap string Qc)) :=
  proteins_data ← for_each (collect_protein store) protein_ids [] ;
  for_each (λ similarity_matrix protein1,
              for_each (fill_cell protein1) proteins_data
                       (<[protein1.1 := ∅]> similarity_matrix))
           proteins_data ∅.

(** *** Specification-side notions for the queries *)

(** The value of [calculate_jaccard_similarity]. *)
Definition similarity_of (set1 set2 : gset string) : Qc :=
  if decide (set1 = ∅ ∨ set2 = ∅) then float_0_0 else jaccard set1 set2.

(** The domain set of a stored protein. *)
Definition stored_domains (db : DocStore) (protein_id : string) : gset string :=
  list_to_set (domain_ids_of db protein_id).



End Queries.

(** ** Statistics on the labels ([LabelPropagationService.get_propagation_statistics]) *)

Module Statistics.
Import LabelPropagation Services.

(** Modelled from the spec: [collections.Counter] of the Python standard
    library, a dictionary from the elements to their counts, in the
    order in which the elements are first met. *)
Definition counter_add (counts : list (string * nat)) (x : string) : list (string * nat) :=
  if decide (x ∈ counts.*1)
  then (λ item, if decide (item.1 = x) then (item.1, S item.2) else item) <$> counts
  else counts ++ [(x, 1)].

Definition Counter (xs : list string) : list (string * nat) := foldl counter_add [] xs.

Definition lower_count (x y : string * nat) : Prop := x.2 < y.2.
Global Instance lower_count_dec : RelDecision lower_count.
Proof. intros x y. unfold lower_count. apply _. Defined.

(** Modelled from the spec: [Counter.most_common(n)], the [n] most
    common elements with their counts, from the most common to the
    least, elements of equal count in the order first met. *)
Definition most_common (n : nat) (counts : list (string * nat)) : list (string * nat) :=
  take n (Queries.sort_desc lower_count counts).

(** The dictionary returned by [get_propagation_statistics]. *)
Record PropagationStatistics : Type := mkStatistics {
  stats_attribute : string;
  stats_total_proteins : nat;
  stats_annotated_proteins : nat;
  stats_unannotated_proteins : Z;
  stats_annotation_rate : Qc;
  stats_unique_labels : nat;
  stats_most_common_labels : list (string * nat);
  stats_average_labels_per_protein : Qc;
}.

(** [get_propagation_statistics]. *)
Definition get_propagation_statistics (attribute : string) : io PropagationStatistics :=
  proteins_data ← get_proteins_for_label_propagation attribute ;
  let total_proteins := length proteins_data in
  let annotated_proteins := length (filter (λ p, labels p ≠ []) proteins_data) in
  let unannotated_proteins := (Z.of_nat total_proteins - Z.of_nat annotated_proteins)%Z in
  let all_labels :=
    foldl (λ all_labels protein, all_labels ++ labels protein) [] proteins_data in
  let label_counts := Counter all_labels in
  let most_common_labels := most_common 10 label_counts in
  avg_labels_per_protein ←
    io_lift (if decide (0 < annotated_proteins)
             then py_truediv (length all_labels) annotated_proteins
             else Ok float_0_0) ;
  annotation_rate ←
    io_lift (if decide (0 < total_proteins)
             then py_truediv annotated_proteins total_proteins
             else Ok float_0_0) ;
  mret (mkStatistics attribute total_proteins annotated_proteins unannotated_proteins
          annotation_rate (length label_counts) most_common_labels
          avg_labels_per_protein).

(** The number of occurrences of a label. *)
Definition occurrences (label : string) (xs : list string) : nat :=
  length (filter (λ x, x = label) xs).

End Statistics.

(** ** The annotation routes ([routers/annotation.py]) *)

Module Routers.
Import LabelPropagation Services Statistics.

(** What a route hands to the framework: the value returned, or the
    [HTTPException] raised. *)
Inductive Response (A : Type) : Type :=
  | Returned (body : A)
  | HTTPException (status_code : nat) (detail : string).
Arguments Returned {A} body.
Arguments HTTPException {A} status_code detail.

Definition route (A : Type) : Type := World → Response A * World.

Section routes.

(** Modelled from the spec: [repr] of a [str], which the repository
    reaches through [str(e)] on a [KeyError]. *)
Context (repr : string → string).

(** [str(e)]. *)
Definition str (e : exn) : string :=
  match e with
  | KeyError key => repr key
  | ZeroDivisionError => "division by zero"
  | ValueError msg => msg
  | Exception msg => msg
  end.

(** [POST /annotation/propagate]. *)
Definition propagate_labels_route (request : LabelPropagationRequest)
    : route LabelPropagationResult :=
  λ w, match propagate_labels request w with
       | (Ok result, w') => (Returned result, w')
       | (Raise e, w') =>
           (HTTPException 500 (String.append "Label propagation failed: " (str e)), w')
       end.

(** [GET /annotation/evaluate/{attribute}]; the [HTTPException] raised
    inside the [try] is raised again by its own handler. *)
Definition evaluate_propagation_quality_route (choose : nat → nat → list nat)
    (attribute : string) : route Evaluation :=
  λ w, if decide (attribute ∉ ["ec"; "go"]) then
         (HTTPException 400 "Attribute must be 'ec' or 'go'", w)
       else
         match evaluate_propagation_quality choose attribute w with
         | (Ok evaluation, w') => (Returned evaluation, w')
         | (Raise e, w') => (HTTPException 500 (String.append "Evaluation failed: " (str e)), w')
         end.

(** [GET /annotation/statistics/{attribute}]. *)
Definition get_propagation_statistics_route (attribute : string)
    : route PropagationStatistics :=
  λ w, if decide (attribute ∉ ["ec"; "go"]) then
         (HTTPException 400 "Attribute must be 'ec' or 'go'", w)
       else
         match get_propagation_statistics attribute w with
         | (Ok stats, w') => (Returned stats, w')
         | (Raise e, w') =>
             (HTTPException 500 (String.append "Failed to get statistics: " (str e)), w')
         end.

End routes.

End Routers.

(** ** Concrete inputs used by the examples below *)

Module Examples.

(** The chain A - B - C with seeds on A and C. *)
Definition chain_graph : gmap string (list string) :=
  <["A" := ["B"]]> (<["B" := ["A"; "C"]]> (<["C" := ["B"]]> ∅)).
Definition chain_labels : gmap string (list string) :=
  <["A" := ["1.1.1.1"]]> (<["B" := []]> (<["C" := ["2.2.2.2"]]> ∅)).
Definition chain_label_sets : gmap string (gset string) :=
  list_to_set <$> chain_labels.

(** Two neighbors with different seeds. *)
Definition pair_graph : gmap string (list string) :=
  <["A" := ["B"]]> (<["B" := ["A"]]> ∅).
Definition pair_labels : gmap string (list string) :=
  <["A" := ["x"; "z"]]> (<["B" := ["y"]]> ∅).
Definition pair_label_sets : gmap string (gset string) :=
  list_to_set <$> pair_labels.

(** A state in which every label set is the union of the neighbors'. *)
Definition stable_label_sets : gmap string (gset string) :=
  <["A" := {["x"]}]> (<["B" := {["x"]}]> ∅).

(** Proteins A{d1,d2}, B{d2,d3}, C{d3,d4}. *)
Definition three_proteins : list Similarity.ProteinDoc :=
  [Similarity.mkDoc "A" ["d1"; "d2"]; Similarity.mkDoc "B" ["d2"; "d3"];
   Similarity.mkDoc "C" ["d3"; "d4"]].
Definition float_0_1 : Qc := (Qc_of_Z 1 / Qc_of_Z 10)%Qc.

(** A connected graph store holding the chain A - B - C, with enzyme
    numbers on A and B, and an empty document store. *)
Definition chain_nodes : list Services.Node :=
  [Services.mkNode "A" (Some ["1.1.1.1"]) None (Some ["B"]);
   Services.mkNode "B" (Some ["1.1.1.1"; "2.2.2.2"]) None (Some ["A"; "C"]);
   Services.mkNode "C" None None (Some ["B"])].
Definition chain_world : Services.World :=
  Services.mkWorld (Some chain_nodes) (Some (Services.mkMongoDb ∅ [])) [].
Definition empty_world : Services.World :=
  Services.mkWorld (Some []) (Some (Services.mkMongoDb ∅ [])) [].

(** A store that returns two rows with the same id. *)
Definition duplicate_world : Services.World :=
  Services.mkWorld
    (Some [Services.mkNode "A" (Some ["x"]) None (Some []);
           Services.mkNode "A" (Some ["y"]) None (Some [])])
    (Some (Services.mkMongoDb ∅ [])) [].
Definition second_position (n k : nat) : list nat := [1].

(** A sampler that draws the first [k] positions. *)
Definition first_positions (n k : nat) : list nat := seq 0 k.

End Examples.

(** ** Stores used by the examples on the write-back *)

Module StoreExamples.
Import Services.

(** A document store that holds protein A with one enzyme number and
    one GO term, and an annotation left behind for an unknown protein. *)
Definition annotated_db : MongoDb :=
  mkMongoDb (<["A" := mkMongoProtein ["1.1.1.1"] ["GO:0005524"]]> ∅)
    [("A", mkAnnotation EC "1.1.1.1" None);
     ("A", mkAnnotation GO "GO:0005524" None);
     ("Q", mkAnnotation INTERPRO "IPR000719" None)].

(** The chain A - B - C in the graph store, beside [annotated_db]. *)
Definition annotated_world : World :=
  mkWorld (Some Examples.chain_nodes) (Some annotated_db) [].

(** The same graph store with the document store disconnected. *)
Definition graph_only_world : World := mkWorld (Some Examples.chain_nodes) None [].

End StoreExamples.
(** * Properties of label propagation *)

Section for_each_facts.
Lemma for_each_cons {A S} (body : S → A → result S) (x : A) (xs : list A) (s : S) :
  for_each body (x :: xs) s = body s x ≫= for_each body xs.
Proof. done. Qed.

Lemma for_each_app {A S} (body : S → A → result S) (xs ys : list A) (s : S) :
  for_each body (xs ++ ys) s = for_each body xs s ≫= for_each body ys.
Proof.
  revert s. induction xs as [|x xs IH]; intros s; [done|].
  simpl. destruct (body s x) as [s'|e]; simpl; [apply IH|done].
Qed.

Lemma foldl_ext_eq {A B} (f g : A → B → A) (l : list B) (a : A) :
  (∀ a b, f a b = g a b) → foldl f a l = foldl g a l.
Proof.
  intros Hfg. revert a. induction l as [|b l IH]; intros a; [done|].
  simpl. by rewrite Hfg, IH.
Qed.

(** A loop that only appends to its accumulator. *)
Lemma for_each_collect {A B} (body : list B → A → result (list B)) (g : A → list B)
    (xs : list A) :
  (∀ x, x ∈ xs → ∀ acc, body acc x = Ok (acc ++ g x)) →
  ∀ acc, for_each body xs acc = Ok (acc ++ (xs ≫= g)).
Proof.
  induction xs as [|x xs IH]; intros Hbody acc.
  - simpl. by rewrite app_nil_r.
  - rewrite for_each_cons, Hbody by left. cbn [mbind result_bind].
    rewrite IH by (intros y Hy; apply Hbody; by right).
    f_equal. rewrite <- app_assoc. done.
Qed.

(** A loop that stores [val x] under [key x] for every [x]. *)
Lemma foldl_insert_by_key_notin {A V} (key : A → string) (val : A → V) (l : list A) :
  ∀ (acc : gmap string V) (k : string),
  k ∉ key <$> l →
  foldl (λ m x, <[key x := val x]> m) acc l !! k = acc !! k.
Proof.
  induction l as [|x l IH]; intros acc k Hk; [done|].
  rewrite fmap_cons, not_elem_of_cons in Hk. destruct Hk as [Hne Hk].
  simpl. rewrite IH by done. by rewrite lookup_insert_ne.
Qed.

Lemma foldl_insert_by_key_lookup {A V} (key : A → string) (val : A → V) (l : list A) :
  ∀ (acc : gmap string V) (x : A),
  NoDup (key <$> l) → x ∈ l →
  foldl (λ m x, <[key x := val x]> m) acc l !! key x = Some (val x).
Proof.
  induction l as [|y l IH]; intros acc x Hnd Hx; [by apply elem_of_nil in Hx|].
  rewrite fmap_cons in Hnd. apply NoDup_cons in Hnd as [Hy Hnd].
  apply elem_of_cons in Hx as [->|Hx]; simpl.
  - rewrite foldl_insert_by_key_notin by done. apply lookup_insert_eq.
  - by apply IH.
Qed.

Lemma foldl_insert_by_key_dom {A V} (key : A → string) (val : A → V) (l : list A) :
  ∀ acc : gmap string V,
  dom (foldl (λ m x, <[key x := val x]> m) acc l) = dom acc ∪ list_to_set (key <$> l).
Proof.
  induction l as [|y l IH]; intros acc; simpl.
  - set_solver.
  - rewrite IH, dom_insert_L. set_solver.
Qed.

Lemma NoDup_fmap_elem_inj {A B} (f : A → B) (l : list A) (x y : A) :
  NoDup (f <$> l) → x ∈ l → y ∈ l → f x = f y → x = y.
Proof.
  intros Hnd [i Hi]%list_elem_of_lookup [j Hj]%list_elem_of_lookup Hxy.
  assert (i = j) as ->.
  { eapply (NoDup_lookup _ i j (f x) Hnd).
    - by rewrite list_lookup_fmap, Hi.
    - by rewrite list_lookup_fmap, Hj, Hxy. }
  congruence.
Qed.

End for_each_facts.

Import LabelPropagation.

Section tally.
Context (current_labels : gmap string (gset string)).

Lemma tally_labels_dom (ls : list string) (acc : gmap string nat) :
  dom (foldl (λ acc label, <[label := S (default 0 (acc !! label))]> acc) acc ls)
  = dom acc ∪ list_to_set ls.
Proof.
  revert acc. induction ls as [|l ls IH]; intros acc; simpl.
  - set_solver.
  - rewrite IH, dom_insert_L. set_solver.
Qed.

Lemma tally_neighbor_dom (acc : gmap string nat) (n : string) :
  dom (tally_neighbor current_labels acc n)
  = dom acc ∪ default ∅ (current_labels !! n).
Proof.
  unfold tally_neighbor. destruct (current_labels !! n) as [ls|]; simpl.
  - case_decide as Hne.
    + rewrite tally_labels_dom. rewrite list_to_set_elements_L. done.
    + subst ls. set_solver.
  - set_solver.
Qed.

Lemma tally_dom (nbrs : list string) (acc : gmap string nat) :
  dom (foldl (tally_neighbor current_labels) acc nbrs)
  = dom acc ∪ neighbor_union current_labels nbrs.
Proof.
  revert acc. induction nbrs as [|n nbrs IH]; intros acc.
  - unfold neighbor_union. simpl. set_solver.
  - simpl. rewrite IH, tally_neighbor_dom. unfold neighbor_union.
    rewrite fmap_cons, union_list_cons. set_solver.
Qed.
End tally.

(** Sorting the tally and turning it into a set forgets the counts. *)
Lemma most_common_labels_set (neighbor_labels : gmap string nat) :
  list_to_set (most_common_labels neighbor_labels) =@{gset string} dom neighbor_labels.
Proof.
  unfold most_common_labels. apply set_eq. intros label.
  rewrite elem_of_list_to_set, elem_of_dom.
  rewrite (merge_sort_Permutation count_ge (map_to_list neighbor_labels)).
  rewrite list_elem_of_fmap. split.
  - intros [[l c] [-> Hin]]. apply elem_of_map_to_list in Hin. eauto.
  - intros [c Hc]. exists (label, c). split; [done|]. by apply elem_of_map_to_list.
Qed.

Lemma neighbor_union_elem (current_labels : gmap string (gset string))
    (nbrs : list string) (label : string) :
  label ∈ neighbor_union current_labels nbrs
  ↔ ∃ n ls, n ∈ nbrs ∧ current_labels !! n = Some ls ∧ label ∈ ls.
Proof.
  unfold neighbor_union. rewrite elem_of_union_list. split.
  - intros (X & HX & Hl). apply list_elem_of_fmap in HX as (n & -> & Hn).
    destruct (current_labels !! n) as [ls|] eqn:E; simpl in Hl; [|set_solver].
    eauto.
  - intros (n & ls & Hn & E & Hl). exists ls. split; [|done].
    apply list_elem_of_fmap. exists n. by rewrite E.
Qed.

Lemma neighbor_union_empty (current_labels : gmap string (gset string))
    (nbrs : list string) :
  neighbor_union current_labels nbrs = ∅
  ↔ ∀ n ls, n ∈ nbrs → current_labels !! n = Some ls → ls = ∅.
Proof.
  split.
  - intros HU n ls Hn E. apply set_eq. intros label. split; [|set_solver].
    intros Hl. rewrite <- HU. apply neighbor_union_elem. eauto.
  - intros H. apply set_eq. intros label. split; [|set_solver].
    intros (n & ls & Hn & E & Hl)%neighbor_union_elem.
    rewrite (H n ls Hn E) in Hl. done.
Qed.

Lemma neighbor_union_nil (current_labels : gmap string (gset string)) :
  neighbor_union current_labels [] = ∅.
Proof. done. Qed.

(** The loop body on one protein, in closed form. *)
Lemma propagate_protein_ok (graph : gmap string (list string))
    (current_labels new_labels : gmap string (gset string)) (changes : nat)
    (protein : string) (nbrs : list string) (cur : gset string) :
  graph !! protein = Some nbrs →
  current_labels !! protein = Some cur →
  propagate_protein graph current_labels (new_labels, changes) protein
  = Ok (<[protein := next_label_set current_labels nbrs cur]> new_labels,
        if decide (cur ≠ next_label_set current_labels nbrs cur)
        then S changes else changes).
Proof.
  intros Hg Hc. unfold propagate_protein, py_getitem. rewrite Hg, Hc. simpl.
  unfold next_label_set. destruct (decide (nbrs = [])) as [->|Hn]; simpl.
  - rewrite neighbor_union_nil. rewrite decide_True by done.
    rewrite (decide_False (P := cur ≠ cur)) by auto. done.
  - pose proof (tally_dom current_labels nbrs ∅) as Hd.
    rewrite dom_empty_L, (left_id_L ∅ (∪)) in Hd.
    destruct (decide (foldl (tally_neighbor current_labels) ∅ nbrs ≠ ∅)) as [Ht|Ht]; simpl.
    + rewrite most_common_labels_set, Hd.
      destruct (decide (neighbor_union current_labels nbrs = ∅)) as [He|He]; [|done].
      rewrite <- Hd in He. apply dom_empty_iff_L in He. done.
    + apply dec_stable in Ht. rewrite Ht, dom_empty_L in Hd.
      destruct (decide (neighbor_union current_labels nbrs = ∅)) as [He|He]; [done|].
      by rewrite Hd in He.
Qed.

Lemma propagate_protein_missing (graph : gmap string (list string))
    (current_labels : gmap string (gset string))
    (st : gmap string (gset string) * nat) (protein : string) (nbrs : list string) :
  graph !! protein = Some nbrs →
  current_labels !! protein = None →
  propagate_protein graph current_labels st protein = Raise (KeyError protein).
Proof.
  intros Hg Hc. destruct st as [new_labels changes].
  unfold propagate_protein, py_getitem. rewrite Hg, Hc. simpl.
  repeat case_decide; done.
Qed.

Lemma changed_iff (graph : gmap string (list string))
    (current_labels : gmap string (gset string)) (protein : string)
    (nbrs : list string) (cur : gset string) :
  graph !! protein = Some nbrs →
  current_labels !! protein = Some cur →
  changed graph current_labels protein ↔ cur ≠ next_label_set current_labels nbrs cur.
Proof.
  intros Hg Hc. unfold changed, step_label. rewrite Hg, Hc. simpl.
  split; intros H1 H2; apply H1; congruence.
Qed.

(** The inner loop over any list of proteins of the graph. *)
Lemma for_each_propagate (graph : gmap string (list string))
    (current_labels : gmap string (gset string)) (ps : list string) :
  ∀ (acc : gmap string (gset string)) (c : nat),
  (∀ p, p ∈ ps → is_Some (graph !! p) ∧ is_Some (current_labels !! p)) →
  ∃ new_labels,
    for_each (propagate_protein graph current_labels) ps (acc, c)
    = Ok (new_labels, c + length (filter (changed graph current_labels) ps))
    ∧ ∀ p, new_labels !! p
           = if decide (p ∈ ps) then step_label graph current_labels p else acc !! p.
Proof.
  induction ps as [|q ps IH]; intros acc c Hps.
  - exists acc. split; [simpl; f_equal; f_equal; lia|].
    intros p. rewrite decide_False; [done|apply not_elem_of_nil].
  - destruct (Hps q) as [[nbrs Hg] [cur Hc]]; [left|].
    edestruct (IH (<[q := next_label_set current_labels nbrs cur]> acc)
                 (if decide (cur ≠ next_label_set current_labels nbrs cur)
                  then S c else c)) as (new_labels & Hrun & Hlook).
    { intros p Hp. apply Hps. by right. }
    exists new_labels. split.
    + rewrite for_each_cons, (propagate_protein_ok _ _ _ _ _ _ _ Hg Hc).
      cbn [mbind result_bind].
      rewrite Hrun. f_equal. f_equal. rewrite filter_cons.
      pose proof (changed_iff _ _ _ _ _ Hg Hc) as Hch.
      destruct (decide (cur ≠ next_label_set current_labels nbrs cur)) as [Hd|Hd];
        [rewrite decide_True by (by apply Hch)|rewrite decide_False by (by rewrite Hch)];
        simpl; lia.
    + intros p. rewrite Hlook.
      destruct (decide (p ∈ ps)) as [Hin|Hin].
      * rewrite decide_True; [done|by right].
      * destruct (decide (p = q)) as [->|Hne].
        -- rewrite decide_True by left. rewrite lookup_insert_eq.
           unfold step_label. rewrite Hg, Hc. done.
        -- rewrite decide_False. { by rewrite lookup_insert_ne. }
           intros [?|?]%elem_of_cons; done.
Qed.

Lemma elem_of_keys (graph : gmap string (list string)) (p : string) :
  p ∈ keys graph ↔ is_Some (graph !! p).
Proof.
  unfold keys. rewrite list_elem_of_fmap. split.
  - intros [[k v] [-> Hin]]. apply elem_of_map_to_list in Hin. eauto.
  - intros [v Hv]. exists (p, v). split; [done|]. by apply elem_of_map_to_list.
Qed.

Lemma length_keys (graph : gmap string (list string)) : length (keys graph) = size graph.
Proof. unfold keys. by rewrite length_fmap, length_map_to_list. Qed.

Lemma covers_lookup (graph : gmap string (list string)) {V} (d : gmap string V)
    (p : string) :
  covers graph d → is_Some (graph !! p) → is_Some (d !! p).
Proof. unfold covers. rewrite <- !elem_of_dom. set_solver. Qed.

Lemma sync_step_lookup (graph : gmap string (list string))
    (current_labels : gmap string (gset string)) (p : string) :
  covers graph current_labels →
  sync_step graph current_labels !! p = step_label graph current_labels p.
Proof.
  intros Hcov. unfold sync_step. rewrite map_lookup_imap.
  unfold step_label. destruct (graph !! p) as [nbrs|] eqn:Hg; simpl; [|done].
  done.
Qed.

(** One pass of the loop body succeeds on a covering label state and
    computes [sync_step] and [changed_count]. *)
Lemma propagate_once_ok (graph : gmap string (list string))
    (current_labels : gmap string (gset string)) :
  covers graph current_labels →
  propagate_once graph (keys graph) current_labels
  = Ok (sync_step graph current_labels, changed_count graph current_labels).
Proof.
  intros Hcov. unfold propagate_once.
  destruct (for_each_propagate graph current_labels (keys graph) ∅ 0)
    as (new_labels & Hrun & Hlook).
  { intros p Hp%elem_of_keys. split; [done|]. by eapply covers_lookup. }
  rewrite Hrun. unfold changed_count. simpl. f_equal. f_equal.
  apply map_eq. intros p. rewrite Hlook, sync_step_lookup by done.
  destruct (decide (p ∈ keys graph)) as [Hin|Hin]; [done|].
  rewrite lookup_empty. unfold step_label.
  destruct (graph !! p) eqn:Hg; [|done].
  exfalso. apply Hin, elem_of_keys. eauto.
Qed.

Lemma sync_step_dom (graph : gmap string (list string))
    (current_labels : gmap string (gset string)) :
  covers graph current_labels → dom (sync_step graph current_labels) = dom graph.
Proof.
  intros Hcov. apply set_eq. intros p. rewrite !elem_of_dom.
  rewrite sync_step_lookup by done. unfold step_label. split.
  - intros [s Hs]. destruct (graph !! p); [eauto|done].
  - intros [nbrs Hg]. destruct (covers_lookup graph current_labels p Hcov) as [cur Hc]; [eauto|].
    rewrite Hg, Hc. simpl. eauto.
Qed.

Lemma sync_step_covers (graph : gmap string (list string))
    (current_labels : gmap string (gset string)) :
  covers graph current_labels → covers graph (sync_step graph current_labels).
Proof. intros Hcov. unfold covers. by rewrite sync_step_dom. Qed.

(** *** Trajectories *)

Lemma labels_after_covers (graph : gmap string (list string))
    (current_labels : gmap string (gset string)) (k : nat) :
  covers graph current_labels → covers graph (labels_after graph current_labels k).
Proof.
  intros Hcov. induction k as [|k IH]; [done|]. by apply sync_step_covers.
Qed.

Lemma run_iterations_ok (graph : gmap string (list string))
    (current_labels : gmap string (gset string)) (k : nat) :
  covers graph current_labels →
  run_iterations graph current_labels k
  = Ok (labels_after graph current_labels k,
        match k with
        | 0 => 0
        | S k' => changed_count graph (labels_after graph current_labels k')
        end).
Proof.
  intros Hcov. induction k as [|k IH]; [done|].
  simpl run_iterations. rewrite IH. cbn [mbind result_bind].
  rewrite propagate_once_ok by (by apply labels_after_covers). done.
Qed.

Lemma keys_nonempty (graph : gmap string (list string)) :
  graph ≠ ∅ → length (keys graph) ≠ 0.
Proof.
  intros Hne Hlen. apply Hne. rewrite length_keys in Hlen.
  by apply map_size_empty_iff.
Qed.

Lemma rate_at_S (graph : gmap string (list string))
    (current_labels : gmap string (gset string)) (k : nat) :
  graph ≠ ∅ → covers graph current_labels →
  rate_at graph current_labels (S k)
  = Ok (Qc_of_Z (Z.of_nat (changed_count graph (labels_after graph current_labels k)))
        / Qc_of_Z (Z.of_nat (length (keys graph))))%Qc.
Proof.
  intros Hne Hcov. unfold rate_at. rewrite run_iterations_ok by done.
  cbn [mbind result_bind]. unfold py_truediv.
  rewrite decide_False by (by apply keys_nonempty). done.
Qed.

(** The loop, started at iteration index [i] on the state reached after
    [i] iterations, with [n] iterations left. *)
Lemma propagation_loop_spec (graph : gmap string (list string))
    (init : gmap string (gset string)) (max_iterations : Z) (threshold : Qc) (n : nat) :
  graph ≠ ∅ → covers graph init →
  ∀ i : nat,
  (∀ j, 1 ≤ j ≤ i → ¬ rate_below graph init threshold j) →
  ∃ final k converged,
    propagation_loop graph (keys graph) max_iterations threshold (seq i n)
      (labels_after graph init i) = Ok (final, k, converged)
    ∧ (if converged
       then ∃ k', k = Z.of_nat k' ∧ i < k' ≤ i + n
                  ∧ final = to_label_lists (labels_after graph init k')
                  ∧ rate_below graph init threshold k'
                  ∧ ∀ j, 1 ≤ j < k' → ¬ rate_below graph init threshold j
       else k = max_iterations
            ∧ final = to_label_lists (labels_after graph init (i + n))
            ∧ ∀ j, 1 ≤ j ≤ i + n → ¬ rate_below graph init threshold j).
Proof.
  intros Hne Hcov. induction n as [|n IH]; intros i Hprev.
  - exists (to_label_lists (labels_after graph init i)), max_iterations, false.
    simpl. rewrite Nat.add_0_r. done.
  - simpl seq. simpl propagation_loop.
    rewrite propagate_once_ok by (by apply labels_after_covers).
    cbn [mbind result_bind]. unfold py_truediv.
    rewrite decide_False by (by apply keys_nonempty). cbn [mbind result_bind].
    pose proof (rate_at_S graph init i Hne Hcov) as Hrate.
    destruct (decide (Qc_of_Z (Z.of_nat (changed_count graph (labels_after graph init i)))
                      / Qc_of_Z (Z.of_nat (length (keys graph))) < threshold)%Qc)
      as [Hlt|Hge].
    + eexists _, _, true. split; [done|].
      exists (S i). repeat split; try lia; try done.
      * eexists. split; [exact Hrate|done].
      * intros j Hj. apply Hprev. lia.
    + destruct (IH (S i)) as (final & k & converged & Hrun & Hspec).
      { intros j Hj. destruct (decide (j = S i)) as [->|Hnj].
        - intros (r & Hr & Hlt). rewrite Hrate in Hr. by simplify_eq.
        - apply Hprev. lia. }
      exists final, k, converged. split; [exact Hrun|].
      destruct converged.
      * destruct Hspec as (k' & -> & Hk' & Hrest). exists k'.
        split; [done|]. split; [lia|done].
      * replace (i + S n) with (S i + n) by lia. done.
Qed.



(** *** The update rule *)

(** C1. One iteration of the update, run on a label state that has an
    entry for every protein of the graph, succeeds and computes every
    new label set from the snapshot alone: a protein without neighbors,
    or none of whose neighbors holds a label, keeps its label set;
    any other protein receives exactly the labels held by at least one
    neighbor, whatever their tally. *)
Theorem propagate_once_is_neighbor_union (graph : gmap string (list string))
    (current_labels : gmap string (gset string)) :
  covers graph current_labels →
  ∃ new_labels changes,
    propagate_once graph (keys graph) current_labels = Ok (new_labels, changes)
    ∧ dom new_labels = dom graph
    ∧ ∀ protein nbrs cur,
        graph !! protein = Some nbrs →
        current_labels !! protein = Some cur →
        ∃ new,
          new_labels !! protein = Some new
          ∧ ((nbrs = [] ∨ (∀ n ls, n ∈ nbrs → current_labels !! n = Some ls → ls = ∅))
             → new = cur)
          ∧ (¬ (nbrs = [] ∨ (∀ n ls, n ∈ nbrs → current_labels !! n = Some ls → ls = ∅))
             → new = neighbor_union current_labels nbrs
               ∧ ∀ label, label ∈ new
                   ↔ ∃ n ls, n ∈ nbrs ∧ current_labels !! n = Some ls ∧ label ∈ ls).
Proof.
  intros Hcov. exists (sync_step graph current_labels), (changed_count graph current_labels).
  split; [by apply propagate_once_ok|]. split; [by apply sync_step_dom|].
  intros protein nbrs cur Hg Hc. exists (next_label_set current_labels nbrs cur).
  split.
  { rewrite sync_step_lookup by done. unfold step_label. by rewrite Hg, Hc. }
  unfold next_label_set. split.
  - intros [->|Hnone].
    + by rewrite neighbor_union_nil, decide_True.
    + rewrite decide_True; [done|]. by apply neighbor_union_empty.
  - intros Hsome. rewrite decide_False.
    + split; [done|]. apply neighbor_union_elem.
    + intros He. apply Hsome. right. by apply neighbor_union_empty.
Qed.

Lemma propagate_once_is_neighbor_union_witness :
  ∃ new_labels changes,
    propagate_once Examples.chain_graph (keys Examples.chain_graph)
      Examples.chain_label_sets = Ok (new_labels, changes)
    ∧ dom new_labels = dom Examples.chain_graph
    ∧ ∀ protein nbrs cur,
        Examples.chain_graph !! protein = Some nbrs →
        Examples.chain_label_sets !! protein = Some cur →
        ∃ new,
          new_labels !! protein = Some new
          ∧ ((nbrs = [] ∨ (∀ n ls, n ∈ nbrs → Examples.chain_label_sets !! n = Some ls → ls = ∅))
             → new = cur)
          ∧ (¬ (nbrs = [] ∨ (∀ n ls, n ∈ nbrs → Examples.chain_label_sets !! n = Some ls → ls = ∅))
             → new = neighbor_union Examples.chain_label_sets nbrs
               ∧ ∀ label, label ∈ new
                   ↔ ∃ n ls, n ∈ nbrs ∧ Examples.chain_label_sets !! n = Some ls ∧ label ∈ ls).
Proof.
  apply (propagate_once_is_neighbor_union Examples.chain_graph Examples.chain_label_sets).
  unfold covers. apply (bool_decide_unpack _). vm_compute. reflexivity.
Defined.

(** Outside that hypothesis the lookup [current_labels[protein]] fails:
    a protein of the graph without a label entry aborts the iteration. *)
Lemma propagate_once_missing_entry (graph : gmap string (list string))
    (current_labels : gmap string (gset string)) :
  ¬ covers graph current_labels →
  ∃ protein, protein ∈ dom graph ∧ protein ∉ dom current_labels
             ∧ propagate_once graph (keys graph) current_labels = Raise (KeyError protein).
Proof.
  intros Hcov. unfold propagate_once.
  assert (∀ ps acc c,
            (∀ p, p ∈ ps → is_Some (graph !! p)) →
            (∃ p, p ∈ ps ∧ current_labels !! p = None) →
            ∃ p, p ∈ ps ∧ current_labels !! p = None
                 ∧ for_each (propagate_protein graph current_labels) ps (acc, c)
                   = Raise (KeyError p)) as Hloop.
  { induction ps as [|q ps IH]; intros acc c Hps (p & Hp & Hnone).
    { by apply elem_of_nil in Hp. }
    destruct (Hps q) as [nbrs Hg]; [left|].
    destruct (current_labels !! q) as [cur|] eqn:Hq.
    - destruct (IH (<[q := next_label_set current_labels nbrs cur]> acc)
                   (if decide (cur ≠ next_label_set current_labels nbrs cur)
                    then S c else c)) as (p' & Hp' & Hnone' & Hrun).
      { intros p' Hp'. apply Hps. by right. }
      { exists p. split; [|done]. apply elem_of_cons in Hp as [->|Hp]; [congruence|done]. }
      exists p'. split; [by right|]. split; [done|].
      by rewrite for_each_cons, (propagate_protein_ok _ _ _ _ _ _ _ Hg Hq).
    - exists q. split; [left|]. split; [done|].
      by rewrite for_each_cons, (propagate_protein_missing _ _ _ _ _ Hg Hq). }
  assert (∃ p, p ∈ dom graph ∧ p ∉ dom current_labels) as (p & Hp & Hnp).
  { destruct (decide (dom graph ∖ dom current_labels = ∅)) as [He|Hne].
    - exfalso. apply Hcov. unfold covers. intros p Hp.
      destruct (decide (p ∈ dom current_labels)); [done|]. set_solver.
    - apply set_choose_L in Hne as [p Hp]. exists p. set_solver. }
  destruct (Hloop (keys graph) ∅ 0) as (q & Hq & Hnone & Hrun).
  { by intros p' ?%elem_of_keys. }
  { exists p. split; [by apply elem_of_keys, elem_of_dom|by apply not_elem_of_dom]. }
  exists q. split; [by apply elem_of_dom, elem_of_keys|].
  split; [by apply not_elem_of_dom|done].
Qed.

(** C6. At a state in which every protein's label set is the union of
    its neighbors' label sets, one more iteration changes nothing: the
    change counter is 0, every protein keeps its label set, and on a
    non-empty graph the convergence rate is 0. *)
Theorem propagate_once_fixed_point (graph : gmap string (list string))
    (current_labels : gmap string (gset string)) :
  (∀ protein nbrs, graph !! protein = Some nbrs →
     current_labels !! protein = Some (neighbor_union current_labels nbrs)) →
  ∃ new_labels,
    propagate_once graph (keys graph) current_labels = Ok (new_labels, 0)
    ∧ (∀ protein, protein ∈ dom graph → new_labels !! protein = current_labels !! protein)
    ∧ (graph ≠ ∅ → py_truediv 0 (length (keys graph)) = Ok float_0_0).
Proof.
  intros Hfix.
  assert (covers graph current_labels) as Hcov.
  { intros p [nbrs Hg]%elem_of_dom. apply elem_of_dom. rewrite (Hfix p nbrs Hg). eauto. }
  assert (∀ p, p ∈ dom graph → step_label graph current_labels p = current_labels !! p) as Hsame.
  { intros p [nbrs Hg]%elem_of_dom. unfold step_label. rewrite Hg, (Hfix p nbrs Hg). simpl.
    unfold next_label_set. case_decide as He; [by rewrite He|done]. }
  exists (sync_step graph current_labels). split; [|split].
  - rewrite propagate_once_ok by done. f_equal. f_equal.
    unfold changed_count.
    destruct (filter (changed graph current_labels) (keys graph)) as [|p rest] eqn:Hf; [done|].
    assert (p ∈ filter (changed graph current_labels) (keys graph)) as Hp
      by (rewrite Hf; left).
    apply list_elem_of_filter in Hp as [Hch Hp%elem_of_keys%elem_of_dom].
    unfold changed in Hch. by rewrite Hsame in Hch.
  - intros p Hp. rewrite sync_step_lookup by done. by apply Hsame.
  - intros Hne. unfold py_truediv. rewrite decide_False by (by apply keys_nonempty).
    f_equal. unfold float_0_0. apply Qc_is_canon. simpl. unfold Qeq. simpl. lia.
Qed.

Lemma propagate_once_fixed_point_witness :
  ∃ new_labels,
    propagate_once Examples.pair_graph (keys Examples.pair_graph)
      Examples.stable_label_sets = Ok (new_labels, 0)
    ∧ (∀ protein, protein ∈ dom Examples.pair_graph →
         new_labels !! protein = Examples.stable_label_sets !! protein)
    ∧ (Examples.pair_graph ≠ ∅ →
       py_truediv 0 (length (keys Examples.pair_graph)) = Ok float_0_0).
Proof.
  apply (propagate_once_fixed_point Examples.pair_graph Examples.stable_label_sets).
  intros protein nbrs Hg.
  destruct (decide (protein = "A")) as [->|HA].
  { vm_compute in Hg. injection Hg as <-. vm_compute. reflexivity. }
  destruct (decide (protein = "B")) as [->|HB].
  { vm_compute in Hg. injection Hg as <-. vm_compute. reflexivity. }
  unfold Examples.pair_graph in Hg.
  rewrite lookup_insert_ne, lookup_insert_ne, lookup_empty in Hg by done.
  discriminate.
Defined.

(** *** Growth of label sets over iterations *)

(** C2 fails as stated.  On the two-protein graph A - B with seeds
    A:{x,z} and B:{y}, the routine returns B:{x,z} after one iteration
    and B:{y} after two: the later label set neither contains the
    earlier one nor is as large. *)
Lemma label_set_shrinks_between_iterations :
  ∃ final1 final2 l1 l2,
    _label_propagation Examples.pair_graph Examples.pair_labels 1 float_0_01
    = Ok (final1, 1%Z, false)
    ∧ _label_propagation Examples.pair_graph Examples.pair_labels 2 float_0_01
      = Ok (final2, 2%Z, false)
    ∧ final1 !! "B" = Some l1 ∧ final2 !! "B" = Some l2
    ∧ list_to_set l1 =@{gset string} {["x"; "z"]}
    ∧ list_to_set l2 =@{gset string} {["y"]}
    ∧ ¬ (list_to_set l1 ⊆@{gset string} list_to_set l2)
    ∧ length l2 < length l1.
Proof.
  eexists _, _, _, _.
  split; [vm_compute; reflexivity|].
  split; [vm_compute; reflexivity|].
  split; [vm_compute; reflexivity|].
  split; [vm_compute; reflexivity|].
  split; [vm_compute; reflexivity|].
  split; [vm_compute; reflexivity|].
  split; [|vm_compute; lia].
  intros Hsub. apply (bool_decide_pack _) in Hsub. vm_compute in Hsub. done.
Qed.

(** C2 (amended). Between two consecutive iterations a protein's label
    set is replaced, not extended: the later set contains the earlier
    one exactly when no neighbor held a label (the set is then kept) or
    every earlier label was held by some neighbor; and a non-empty label
    set never becomes empty. *)
Theorem label_growth_between_iterations (graph : gmap string (list string))
    (initial : gmap string (gset string)) (k : nat)
    (s1 s2 : gmap string (gset string)) (c1 c2 : nat)
    (protein : string) (nbrs : list string) :
  covers graph initial →
  graph !! protein = Some nbrs →
  run_iterations graph initial k = Ok (s1, c1) →
  run_iterations graph initial (S k) = Ok (s2, c2) →
  ∃ l1 l2,
    s1 !! protein = Some l1 ∧ s2 !! protein = Some l2
    ∧ (l1 ⊆ l2 ↔ neighbor_union s1 nbrs = ∅ ∨ l1 ⊆ neighbor_union s1 nbrs)
    ∧ (l1 ≠ ∅ → l2 ≠ ∅).
Proof.
  intros Hcov Hg H1 H2.
  rewrite run_iterations_ok in H1, H2 by done. simplify_eq.
  pose proof (labels_after_covers graph initial k Hcov) as Hcovk.
  destruct (covers_lookup graph _ protein Hcovk) as [l1 Hl1]; [eauto|].
  exists l1, (next_label_set (labels_after graph initial k) nbrs l1).
  split; [done|]. split.
  { simpl. rewrite sync_step_lookup by done. unfold step_label. by rewrite Hg, Hl1. }
  unfold next_label_set. case_decide as He.
  - split; [|done]. split; [by left|done].
  - split; [|done]. split; [by right|]. intros [?|?]; done.
Qed.

Lemma label_growth_between_iterations_witness :
  ∃ l1 l2,
    labels_after Examples.pair_graph Examples.pair_label_sets 1 !! "B" = Some l1
    ∧ labels_after Examples.pair_graph Examples.pair_label_sets 2 !! "B" = Some l2
    ∧ (l1 ⊆ l2 ↔ neighbor_union (labels_after Examples.pair_graph Examples.pair_label_sets 1) ["A"] = ∅
                  ∨ l1 ⊆ neighbor_union (labels_after Examples.pair_graph Examples.pair_label_sets 1) ["A"])
    ∧ (l1 ≠ ∅ → l2 ≠ ∅).
Proof.
  assert (covers Examples.pair_graph Examples.pair_label_sets) as Hcov.
  { unfold covers. apply (bool_decide_unpack _). vm_compute. reflexivity. }
  apply (label_growth_between_iterations Examples.pair_graph Examples.pair_label_sets 1
           (labels_after Examples.pair_graph Examples.pair_label_sets 1)
           (labels_after Examples.pair_graph Examples.pair_label_sets 2)
           (changed_count Examples.pair_graph Examples.pair_label_sets)
           (changed_count Examples.pair_graph
              (labels_after Examples.pair_graph Examples.pair_label_sets 1))
           "B" ["A"] Hcov).
  - vm_compute. reflexivity.
  - apply (run_iterations_ok _ _ 1 Hcov).
  - apply (run_iterations_ok _ _ 2 Hcov).
Defined.

(** *** Termination and the convergence flag *)

(** The routine returns on every non-empty graph whose proteins all have
    an initial label entry. *)
Lemma label_propagation_returns (graph : gmap string (list string))
    (initial_labels : gmap string (list string)) (max_iterations : Z) (threshold : Qc) :
  graph ≠ ∅ →
  covers graph initial_labels →
  ∃ final iterations_completed converged,
    _label_propagation graph initial_labels max_iterations threshold
    = Ok (final, iterations_completed, converged).
Proof.
  intros Hne Hcov.
  assert (covers graph (list_to_set <$> initial_labels : gmap string (gset string))) as Hcov'.
  { unfold covers. by rewrite dom_fmap_L. }
  destruct (propagation_loop_spec graph (list_to_set <$> initial_labels) max_iterations
              threshold (Z.to_nat max_iterations) Hne Hcov' 0)
    as (final & k & converged & Hrun & _); [intros j Hj; lia|].
  by exists final, k, converged.
Qed.



(** The trace of the chain example: three iterations, then convergence. *)
Example chain_converges_in_three_iterations :
  ∃ final,
    _label_propagation Examples.chain_graph Examples.chain_labels 10 float_0_01
    = Ok (final, 3%Z, true)
    ∧ list_to_set <$> final
      =@{gmap string (gset string)}
      <["A" := {["1.1.1.1"; "2.2.2.2"]}]>
        (<["B" := {["1.1.1.1"; "2.2.2.2"]}]> (<["C" := {["1.1.1.1"; "2.2.2.2"]}]> ∅)).
Proof. eexists. split; vm_compute; reflexivity. Qed.

(** *** Confidence scores *)

(** A [for k, v in d.items()] loop that stores one value per key. *)
Lemma foldl_insert_lookup {V W} (f : string → V → W) (l : list (string * V)) :
  ∀ (acc : gmap string W) (k : string),
  NoDup l.*1 →
  foldl (λ acc kv, <[kv.1 := f kv.1 kv.2]> acc) acc l !! k
  = match (list_to_map l : gmap string V) !! k with
    | Some v => Some (f k v)
    | None => acc !! k
    end.
Proof.
  induction l as [|[k0 v0] l IH]; intros acc k Hnd; [done|].
  apply NoDup_cons in Hnd as [Hk0 Hnd]. simpl. rewrite IH by done.
  destruct (decide (k = k0)) as [->|Hne].
  - rewrite lookup_insert_eq. rewrite (not_elem_of_list_to_map_1 l k0) by done.
    by rewrite lookup_insert_eq.
  - rewrite !(lookup_insert_ne _ k0 k) by done. done.
Qed.

Lemma foldl_insert_items {V W} (f : string → V → W) (m : gmap string V) (k : string) :
  foldl (λ acc kv, <[kv.1 := f kv.1 kv.2]> acc) (∅ : gmap string W) (map_to_list m) !! k
  = f k <$> m !! k.
Proof.
  rewrite foldl_insert_lookup by apply NoDup_fst_map_to_list.
  rewrite list_to_map_to_list. destruct (m !! k); [done|apply lookup_empty].
Qed.

Lemma calculate_confidence_scores_lookup (final_labels initial_labels : gmap string (list string))
    (protein_id : string) :
  _calculate_confidence_scores final_labels initial_labels !! protein_id
  = confidence_of initial_labels protein_id <$> final_labels !! protein_id.
Proof.
  unfold _calculate_confidence_scores.
  rewrite <- (foldl_insert_items (confidence_of initial_labels) final_labels protein_id).
  f_equal. apply foldl_ext_eq. intros acc [k v]. unfold confidence_of. simpl.
  repeat case_match; done.
Qed.

Lemma truthy_iff {A} (o : option (list A)) :
  truthy o = true ↔ ∃ l, o = Some l ∧ l ≠ [].
Proof.
  destruct o as [[|x l]|]; simpl; split; try done.
  - intros (l & [= <-] & Hl). done.
  - intros _. eauto.
  - intros (l' & ? & ?). done.
Qed.

(** C8. The score of a protein of the final assignment is 0.0 when its
    final label list is empty, else 1.0 when it had a non-empty seed
    label list, else 0.5; proteins outside the final assignment get no
    score, and every score is one of the three values. *)
Theorem confidence_scores_three_valued (final_labels initial_labels : gmap string (list string)) :
  let scores := _calculate_confidence_scores final_labels initial_labels in
  (∀ protein_id labels,
     final_labels !! protein_id = Some labels →
     ∃ score,
       scores !! protein_id = Some score
       ∧ (labels = [] → score = float_0_0)
       ∧ (labels ≠ [] →
          (∃ seed, initial_labels !! protein_id = Some seed ∧ seed ≠ []) →
          score = float_1_0)
       ∧ (labels ≠ [] →
          ¬ (∃ seed, initial_labels !! protein_id = Some seed ∧ seed ≠ []) →
          score = float_0_5))
  ∧ dom scores = dom final_labels
  ∧ (∀ protein_id score,
       scores !! protein_id = Some score →
       score = float_0_0 ∨ score = float_0_5 ∨ score = float_1_0).
Proof.
  intros scores. subst scores. split; [|split].
  - intros protein_id labels Hf. rewrite calculate_confidence_scores_lookup, Hf. simpl.
    eexists. split; [done|]. unfold confidence_of.
    destruct (decide (labels = [])) as [->|Hne].
    + repeat split; done.
    + destruct (truthy (initial_labels !! protein_id)) eqn:Ht.
      * apply truthy_iff in Ht. repeat split; done.
      * repeat split; try done. intros _ Hseed%truthy_iff. congruence.
  - apply set_eq. intros p. rewrite !elem_of_dom, calculate_confidence_scores_lookup.
    by rewrite fmap_is_Some.
  - intros protein_id score. rewrite calculate_confidence_scores_lookup.
    destruct (final_labels !! protein_id) as [labels|]; [|done]. simpl.
    intros [= <-]. unfold confidence_of. repeat case_match; auto.
Qed.

(** The scores of the chain example: the seeds A and C get 1.0 and B,
    labelled by diffusion only, gets 0.5. *)
Example chain_confidence_scores :
  ∃ final,
    _label_propagation Examples.chain_graph Examples.chain_labels 10 float_0_01
    = Ok (final, 3%Z, true)
    ∧ _calculate_confidence_scores final Examples.chain_labels
      = <["A" := float_1_0]> (<["B" := float_0_5]> (<["C" := float_1_0]> ∅)).
Proof. eexists. split; vm_compute; reflexivity. Qed.

(** * Properties of the similarity computation *)

Import Similarity.

Section ordered_pairs_facts.
Context {A : Type}.
Implicit Types l : list A.

Lemma elem_of_ordered_pairs l (a b : A) :
  (a, b) ∈ ordered_pairs l ↔ ∃ i j, i < j ∧ l !! i = Some a ∧ l !! j = Some b.
Proof.
  induction l as [|x l IH]; simpl.
  - split; [by intros ?%elem_of_nil|]. intros (i & j & _ & Hi & _). done.
  - rewrite elem_of_app, list_elem_of_fmap, IH. split.
    + intros [(y & [= -> ->] & Hy)|(i & j & Hij & Hi & Hj)].
      * apply list_elem_of_lookup in Hy as [j Hj]. exists 0, (S j).
        split; [lia|]. done.
      * exists (S i), (S j). split; [lia|]. done.
    + intros (i & j & Hij & Hi & Hj). destruct j as [|j]; [lia|]. simpl in Hj.
      destruct i as [|i]; simpl in Hi.
      * injection Hi as ->. left. exists b. split; [done|].
        by eapply list_elem_of_lookup_2.
      * right. exists i, j. split; [lia|]. done.
Qed.

Lemma ordered_pairs_elem_of l (a b : A) :
  (a, b) ∈ ordered_pairs l → a ∈ l ∧ b ∈ l.
Proof.
  intros (i & j & _ & Hi & Hj)%elem_of_ordered_pairs.
  split; by eapply list_elem_of_lookup_2.
Qed.


Lemma ordered_pairs_NoDup_asym l (a b : A) :
  NoDup l → (a, b) ∈ ordered_pairs l → (b, a) ∉ ordered_pairs l.
Proof.
  intros Hnd (i & j & Hij & Hi & Hj)%elem_of_ordered_pairs
         (i' & j' & Hij' & Hi' & Hj')%elem_of_ordered_pairs.
  pose proof (NoDup_lookup l i j' a Hnd Hi Hj').
  pose proof (NoDup_lookup l j i' b Hnd Hj Hi'). lia.
Qed.

Lemma ordered_pairs_fmap_filter {B} (f : A → B) (P : A → Prop) `{!∀ x, Decision (P x)}
    l (a b : B) :
  (a, b) ∈ ordered_pairs (f <$> filter P l)
  ↔ ∃ x y, (x, y) ∈ ordered_pairs l ∧ P x ∧ P y ∧ a = f x ∧ b = f y.
Proof.
  induction l as [|z l IH].
  - simpl. split; [by intros ?%elem_of_nil|].
    intros (x & y & ?%elem_of_nil & _). done.
  - rewrite filter_cons. simpl ordered_pairs at 2.
    destruct (decide (P z)) as [Hz|Hz].
    + rewrite fmap_cons. simpl ordered_pairs. rewrite elem_of_app, IH. split.
      * intros [Hin|(x & y & Hin & Hrest)].
        -- apply list_elem_of_fmap in Hin as (b' & [= -> ->] & Hb).
           apply list_elem_of_fmap in Hb as (y & -> & Hy).
           apply list_elem_of_filter in Hy as [HPy Hy].
           exists z, y. split; [|done]. apply elem_of_app. left.
           by apply list_elem_of_fmap_2.
        -- exists x, y. split; [|done]. apply elem_of_app. by right.
      * intros (x & y & Hin & HPx & HPy & -> & ->).
        apply elem_of_app in Hin as [Hin|Hin].
        -- apply list_elem_of_fmap in Hin as (y' & [= -> ->] & Hy).
           left. apply list_elem_of_fmap_2, list_elem_of_fmap_2.
           by apply list_elem_of_filter.
        -- right. eauto 10.
    + rewrite IH. split.
      * intros (x & y & Hin & Hrest). exists x, y. split; [|done].
        apply elem_of_app. by right.
      * intros (x & y & Hin & HPx & HPy & -> & ->).
        apply elem_of_app in Hin as [Hin|Hin].
        -- apply list_elem_of_fmap in Hin as (y' & [= -> ->] & Hy). done.
        -- eauto 10.
Qed.

End ordered_pairs_facts.

(** The index loops enumerate exactly the ordered pairs. *)
Lemma elem_of_bucket_pairs (protein_list : list string) (pr : string * string) :
  pr ∈ bucket_pairs protein_list ↔ pr ∈ ordered_pairs protein_list.
Proof.
  destruct pr as [a b]. rewrite elem_of_ordered_pairs. unfold bucket_pairs.
  rewrite list_elem_of_bind. split.
  - intros (i & Hj & Hi). apply elem_of_seq in Hi.
    apply list_elem_of_bind in Hj as (j & Hpr & Hj). apply elem_of_seq in Hj.
    apply list_elem_of_singleton in Hpr. injection Hpr as -> ->.
    exists i, j. split; [lia|].
    split; apply list_lookup_lookup_total_lt; lia.
  - intros (i & j & Hij & Hi & Hj).
    pose proof (lookup_lt_Some _ _ _ Hi). pose proof (lookup_lt_Some _ _ _ Hj).
    exists i. split; [|apply elem_of_seq; lia].
    apply list_elem_of_bind. exists j. split; [|apply elem_of_seq; lia].
    apply list_elem_of_singleton.
    by rewrite (list_lookup_total_correct _ _ _ Hi), (list_lookup_total_correct _ _ _ Hj).
Qed.

(** *** The inverted index *)

Lemma index_fold_lookup (pid : string) (ds : list string) :
  ∀ (idx : gmap string (list string)) (d : string),
  NoDup ds →
  default [] (foldl (λ idx domain, <[domain := default [] (idx !! domain) ++ [pid]]> idx)
                    idx ds !! d)
  = default [] (idx !! d) ++ (if decide (d ∈ ds) then [pid] else []).
Proof.
  induction ds as [|d0 ds IH]; intros idx d Hnd.
  - destruct (decide (d ∈ [])) as [?%elem_of_nil|_]; [done|].
    cbn [foldl]. by rewrite app_nil_r.
  - apply NoDup_cons in Hnd as [Hd0 Hnd]. cbn [foldl]. rewrite IH by done.
    destruct (decide (d = d0)) as [->|Hne].
    + rewrite lookup_insert_eq. cbn [default].
      rewrite (decide_False (P := d0 ∈ ds)) by done.
      rewrite decide_True by left. by rewrite app_nil_r.
    + rewrite lookup_insert_ne by done.
      destruct (decide (d ∈ ds)) as [Hin|Hin].
      * rewrite decide_True by (by right). done.
      * rewrite decide_False; [done|]. intros [?|?]%elem_of_cons; done.
Qed.

Lemma index_fold_nonempty (pid : string) (ds : list string) :
  ∀ idx : gmap string (list string),
  (∀ d l, idx !! d = Some l → l ≠ []) →
  ∀ d l,
    foldl (λ idx domain, <[domain := default [] (idx !! domain) ++ [pid]]> idx) idx ds !! d
    = Some l → l ≠ [].
Proof.
  induction ds as [|d0 ds IH]; intros idx Hidx; [done|].
  simpl. apply IH. intros d l. destruct (decide (d = d0)) as [->|Hne].
  - rewrite lookup_insert_eq. intros [= <-]. by destruct (default [] (idx !! d0)).
  - rewrite lookup_insert_ne by done. apply Hidx.
Qed.

Lemma index_protein_lookup (idx : gmap string (list string)) (protein : ProteinDoc)
    (d : string) :
  default [] (index_protein idx protein !! d)
  = default [] (idx !! d)
    ++ (if decide (d ∈ domain_set protein) then [doc_id protein] else []).
Proof.
  unfold index_protein. rewrite index_fold_lookup by apply NoDup_elements.
  f_equal. unfold domain_set.
  destruct (decide (d ∈ elements (list_to_set (domains protein) : gset string))) as [Hin|Hin];
    rewrite elem_of_elements in Hin; [by rewrite decide_True|by rewrite decide_False].
Qed.

Lemma build_domain_index_from (proteins_data : list ProteinDoc) :
  ∀ (idx : gmap string (list string)) (d : string),
  default [] (foldl index_protein idx proteins_data !! d)
  = default [] (idx !! d) ++ bucket d proteins_data.
Proof.
  induction proteins_data as [|p ps IH]; intros idx d.
  - simpl. by rewrite app_nil_r.
  - simpl. rewrite IH, index_protein_lookup. rewrite <- app_assoc. f_equal.
    unfold bucket. rewrite filter_cons. by case_decide.
Qed.

Lemma build_domain_index_nonempty (proteins_data : list ProteinDoc) :
  ∀ idx : gmap string (list string),
  (∀ d l, idx !! d = Some l → l ≠ []) →
  ∀ d l, foldl index_protein idx proteins_data !! d = Some l → l ≠ [].
Proof.
  induction proteins_data as [|p ps IH]; intros idx Hidx; [done|].
  simpl. apply IH. unfold index_protein. by apply index_fold_nonempty.
Qed.

(** Every bucket lists, in input order, the proteins that have the
    domain; empty buckets do not exist. *)
Lemma build_domain_index_lookup (proteins_data : list ProteinDoc) (d : string)
    (l : list string) :
  _build_domain_index proteins_data !! d = Some l
  ↔ l = bucket d proteins_data ∧ l ≠ [].
Proof.
  unfold _build_domain_index.
  pose proof (build_domain_index_from proteins_data ∅ d) as Hb.
  rewrite lookup_empty in Hb. simpl in Hb. split.
  - intros Hl. rewrite Hl in Hb. simpl in Hb. split; [done|].
    eapply build_domain_index_nonempty; [|exact Hl]. intros ??. by rewrite lookup_empty.
  - intros [-> Hne]. rewrite <- Hb in *.
    by destruct (foldl index_protein ∅ proteins_data !! d).
Qed.

(** *** Accumulation of the shared domains *)

Lemma add_shared_shared (domain : string) (pp : gmap (string * string) PairData)
    (pr key : string * string) (d : string) :
  d ∈ shared_of (add_shared domain pp pr) key
  ↔ d ∈ shared_of pp key ∨ (d = domain ∧ sorted_pair pr.1 pr.2 = key).
Proof.
  unfold add_shared, shared_of.
  destruct (decide (sorted_pair pr.1 pr.2 = key)) as [<-|Hne].
  - rewrite lookup_insert_eq. simpl.
    destruct (pp !! sorted_pair pr.1 pr.2); simpl; set_solver.
  - rewrite lookup_insert_ne by done. naive_solver.
Qed.

Lemma add_shared_nonempty (domain : string) (pp : gmap (string * string) PairData)
    (pr : string * string) :
  nonempty_entries pp → nonempty_entries (add_shared domain pp pr).
Proof.
  intros Hpp key data. unfold add_shared.
  destruct (decide (sorted_pair pr.1 pr.2 = key)) as [<-|Hne].
  - rewrite lookup_insert_eq. intros [= <-]. simpl. set_solver.
  - rewrite lookup_insert_ne by done. apply Hpp.
Qed.

Lemma add_shared_fold (domain : string) (prs : list (string * string)) :
  ∀ (pp : gmap (string * string) PairData) (key : string * string) (d : string),
  d ∈ shared_of (foldl (add_shared domain) pp prs) key
  ↔ d ∈ shared_of pp key
    ∨ (d = domain ∧ ∃ pr, pr ∈ prs ∧ sorted_pair pr.1 pr.2 = key).
Proof.
  induction prs as [|pr prs IH]; intros pp key d; simpl.
  - split; [by left|]. intros [?|(_ & pr & ?%elem_of_nil & _)]; done.
  - rewrite IH, add_shared_shared. split.
    + intros [[?|[-> ?]]|(-> & pr' & ? & ?)]; [by left|right..].
      * split; [done|]. exists pr. split; [left|done].
      * split; [done|]. exists pr'. split; [by right|done].
    + intros [?|(-> & pr' & [->|?]%elem_of_cons & ?)]; [by left; left|by left; right|].
      right. eauto.
Qed.

Lemma add_shared_fold_nonempty (domain : string) (prs : list (string * string)) :
  ∀ pp : gmap (string * string) PairData,
  nonempty_entries pp → nonempty_entries (foldl (add_shared domain) pp prs).
Proof.
  induction prs as [|pr prs IH]; intros pp Hpp; [done|].
  simpl. by apply IH, add_shared_nonempty.
Qed.

Lemma accumulate_bucket_shared (pp : gmap (string * string) PairData)
    (domain : string) (protein_list : list string) (key : string * string) (d : string) :
  d ∈ shared_of (accumulate_bucket pp (domain, protein_list)) key
  ↔ d ∈ shared_of pp key
    ∨ (d = domain ∧ ∃ pr, pr ∈ ordered_pairs protein_list ∧ sorted_pair pr.1 pr.2 = key).
Proof.
  unfold accumulate_bucket. case_decide as Hlen.
  - split; [by left|]. intros [?|(_ & [a b] & Hin & _)]; [done|].
    apply elem_of_ordered_pairs in Hin as (i & j & Hij & Hi & Hj).
    apply lookup_lt_Some in Hj. lia.
  - rewrite add_shared_fold. by setoid_rewrite elem_of_bucket_pairs.
Qed.

Lemma accumulate_bucket_nonempty (pp : gmap (string * string) PairData)
    (item : string * list string) :
  nonempty_entries pp → nonempty_entries (accumulate_bucket pp item).
Proof.
  intros Hpp. destruct item as [domain protein_list]. unfold accumulate_bucket.
  case_decide; [done|]. by apply add_shared_fold_nonempty.
Qed.

Lemma accumulate_fold_shared (items : list (string * list string)) :
  ∀ (pp : gmap (string * string) PairData) (key : string * string) (d : string),
  d ∈ shared_of (foldl accumulate_bucket pp items) key
  ↔ d ∈ shared_of pp key
    ∨ ∃ l pr, (d, l) ∈ items ∧ pr ∈ ordered_pairs l ∧ sorted_pair pr.1 pr.2 = key.
Proof.
  induction items as [|[domain l] items IH]; intros pp key d; cbn [foldl].
  - split; [by left|]. intros [?|(l & pr & ?%elem_of_nil & _)]; done.
  - rewrite IH, accumulate_bucket_shared. split.
    + intros [[?|(-> & pr & ? & ?)]|(l' & pr & ? & ? & ?)]; [by left|right..].
      * exists l, pr. split; [left|done].
      * exists l', pr. split; [by right|done].
    + intros [?|(l' & pr & [[= -> ->]|?]%elem_of_cons & ? & ?)];
        [by left; left|left; right; eauto|right; eauto].
Qed.

Lemma accumulate_fold_nonempty (items : list (string * list string)) :
  ∀ pp : gmap (string * string) PairData,
  nonempty_entries pp → nonempty_entries (foldl accumulate_bucket pp items).
Proof.
  induction items as [|item items IH]; intros pp Hpp; [done|].
  simpl. by apply IH, accumulate_bucket_nonempty.
Qed.

(** The domains accumulated under a pair key are those shared by two
    proteins of the input with that key. *)
Lemma accumulate_pairs_shared (proteins_data : list ProteinDoc)
    (key : string * string) (d : string) :
  d ∈ shared_of (accumulate_pairs (_build_domain_index proteins_data)) key
  ↔ ∃ p1 p2, (p1, p2) ∈ ordered_pairs proteins_data
             ∧ d ∈ domain_set p1 ∧ d ∈ domain_set p2
             ∧ sorted_pair (doc_id p1) (doc_id p2) = key.
Proof.
  unfold accumulate_pairs. rewrite accumulate_fold_shared.
  unfold shared_of at 1. rewrite lookup_empty. split.
  - intros [?%not_elem_of_empty|(l & [a b] & Hl & Hpr & Hkey)]; [done|].
    apply elem_of_map_to_list, build_domain_index_lookup in Hl as [-> _].
    unfold bucket in Hpr.
    apply ordered_pairs_fmap_filter in Hpr as (p1 & p2 & Hin & H1 & H2 & -> & ->).
    eauto 10.
  - intros (p1 & p2 & Hin & H1 & H2 & Hkey). right.
    exists (bucket d proteins_data), (doc_id p1, doc_id p2).
    assert ((doc_id p1, doc_id p2) ∈ ordered_pairs (bucket d proteins_data)) as Hpr.
    { unfold bucket. apply ordered_pairs_fmap_filter. eauto 10. }
    split; [|done]. apply elem_of_map_to_list, build_domain_index_lookup.
    split; [done|]. intros He. rewrite He in Hpr. by apply elem_of_nil in Hpr.
Qed.

Lemma accumulate_pairs_nonempty (domain_index : gmap string (list string)) :
  nonempty_entries (accumulate_pairs domain_index).
Proof.
  apply accumulate_fold_nonempty. intros key data. by rewrite lookup_empty.
Qed.

(** *** Pair keys *)

Lemma sorted_pair_eq (a b c d : string) :
  sorted_pair a b = sorted_pair c d → (a = c ∧ b = d) ∨ (a = d ∧ b = c).
Proof. unfold sorted_pair. repeat case_match; intros [= -> ->]; auto. Qed.



Lemma sorted_pair_members (a b : string) :
  ((sorted_pair a b).1 = a ∧ (sorted_pair a b).2 = b)
  ∨ ((sorted_pair a b).1 = b ∧ (sorted_pair a b).2 = a).
Proof. unfold sorted_pair. case_match; auto. Qed.

Section distinct_ids.
Context (proteins_data : list ProteinDoc).
Context (Hids : NoDup (doc_id <$> proteins_data)).

Lemma distinct_ids_NoDup : NoDup proteins_data.
Proof. by eapply NoDup_fmap_1. Qed.

(** Two proteins of the input are determined by their pair key. *)
Lemma ordered_pair_key_unique (p1 p2 q1 q2 : ProteinDoc) :
  (p1, p2) ∈ ordered_pairs proteins_data →
  (q1, q2) ∈ ordered_pairs proteins_data →
  sorted_pair (doc_id p1) (doc_id p2) = sorted_pair (doc_id q1) (doc_id q2) →
  p1 = q1 ∧ p2 = q2.
Proof.
  intros Hp Hq Hkey.
  destruct (ordered_pairs_elem_of _ _ _ Hp) as [Hp1 Hp2].
  destruct (ordered_pairs_elem_of _ _ _ Hq) as [Hq1 Hq2].
  apply sorted_pair_eq in Hkey as [[H1 H2]|[H1 H2]].
  - split; eapply (NoDup_fmap_elem_inj doc_id); eauto.
  - assert (p1 = q2) as -> by (eapply (NoDup_fmap_elem_inj doc_id); eauto).
    assert (p2 = q1) as -> by (eapply (NoDup_fmap_elem_inj doc_id); eauto).
    exfalso. by eapply (ordered_pairs_NoDup_asym proteins_data q1 q2 distinct_ids_NoDup).
Qed.

Lemma protein_domains_of_lookup (protein : ProteinDoc) :
  protein ∈ proteins_data →
  protein_domains_of proteins_data !! doc_id protein = Some (domain_set protein).
Proof.
  intros Hin. unfold protein_domains_of.
  by apply (foldl_insert_by_key_lookup doc_id (λ p, list_to_set (domains p))).
Qed.

(** Every stored pair key is the key of two proteins of the input, and
    its entry holds exactly their common domains. *)
Lemma pair_entry_inv (key : string * string) (data : PairData) :
  accumulate_pairs (_build_domain_index proteins_data) !! key = Some data →
  ∃ p1 p2,
    (p1, p2) ∈ ordered_pairs proteins_data
    ∧ sorted_pair (doc_id p1) (doc_id p2) = key
    ∧ pd_shared_domains data = domain_set p1 ∩ domain_set p2
    ∧ domain_set p1 ∩ domain_set p2 ≠ ∅.
Proof.
  intros Hkey.
  pose proof (accumulate_pairs_nonempty _ _ _ Hkey) as Hne.
  assert (shared_of (accumulate_pairs (_build_domain_index proteins_data)) key
          = pd_shared_domains data) as Hshared by (unfold shared_of; by rewrite Hkey).
  apply set_choose_L in Hne as [d Hd]. rewrite <- Hshared in Hd.
  apply accumulate_pairs_shared in Hd as (p1 & p2 & Hin & Hd1 & Hd2 & Hk).
  exists p1, p2. split; [done|]. split; [done|].
  assert (pd_shared_domains data = domain_set p1 ∩ domain_set p2) as Heq.
  { rewrite <- Hshared. apply set_eq. intros d'. rewrite accumulate_pairs_shared. split.
    - intros (q1 & q2 & Hq & Hq1 & Hq2 & Hkq).
      destruct (ordered_pair_key_unique q1 q2 p1 p2) as [-> ->]; [done|done|congruence|].
      set_solver.
    - intros [? ?]%elem_of_intersection. eauto 10. }
  split; [done|]. set_solver.
Qed.

Lemma pair_entry_exists (p1 p2 : ProteinDoc) :
  (p1, p2) ∈ ordered_pairs proteins_data →
  domain_set p1 ∩ domain_set p2 ≠ ∅ →
  ∃ data,
    accumulate_pairs (_build_domain_index proteins_data)
      !! sorted_pair (doc_id p1) (doc_id p2) = Some data.
Proof.
  intros Hin [d [Hd1 Hd2]%elem_of_intersection]%set_choose_L.
  assert (d ∈ shared_of (accumulate_pairs (_build_domain_index proteins_data))
                (sorted_pair (doc_id p1) (doc_id p2))) as Hd.
  { apply accumulate_pairs_shared. eauto 10. }
  unfold shared_of in Hd. destruct (_ !! _) as [data|]; [eauto|set_solver].
Qed.

End distinct_ids.

(** *** The two edge loops in closed form *)

Lemma size_union_nonzero (a b : gset string) : a ∩ b ≠ ∅ → size (a ∪ b) ≠ 0.
Proof.
  intros Hne Hsz. apply size_empty_iff in Hsz. apply Hne. set_solver.
Qed.

Lemma py_truediv_jaccard (a b : gset string) :
  a ∩ b ≠ ∅ → py_truediv (size (a ∩ b)) (size (a ∪ b)) = Ok (jaccard a b).
Proof.
  intros Hne. unfold py_truediv. by rewrite decide_False by (by apply size_union_nonzero).
Qed.

Lemma jaccard_comm (a b : gset string) : jaccard a b = jaccard b a.
Proof. unfold jaccard. by rewrite (comm_L (∩) a b), (comm_L (∪) a b). Qed.

Lemma score_pair_acc (protein_domains : gmap string (gset string)) (min_similarity : Qc)
    (edges : list Edge) (item : (string * string) * PairData) (l : list Edge) :
  score_pair protein_domains min_similarity [] item = Ok l →
  score_pair protein_domains min_similarity edges item = Ok (edges ++ l).
Proof.
  destruct item as [[a b] data]. unfold score_pair.
  destruct (py_getitem protein_domains a) as [d1|]; [|done].
  destruct (py_getitem protein_domains b) as [d2|]; [|done].
  cbn [mbind result_bind]. case_decide.
  { intros [= <-]. by rewrite app_nil_r. }
  destruct (py_truediv _ _) as [j|]; [|done]. cbn [mbind result_bind].
  case_decide; intros [= <-]; [done|by rewrite app_nil_r].
Qed.

Lemma compare_pair_ok (min_similarity : Qc) (protein1 protein2 : ProteinDoc)
    (created : list Edge) :
  compare_pair min_similarity protein1 created protein2
  = Ok (created ++ compared min_similarity protein1 protein2).
Proof.
  unfold compare_pair, compared. fold (domain_set protein1) (domain_set protein2).
  destruct (decide (domain_set protein1 = ∅ ∨ domain_set protein2 = ∅)) as [He|He].
  { rewrite decide_False; [by rewrite app_nil_r|]. intros [Hne _]. set_solver. }
  destruct (decide (domain_set protein1 ∩ domain_set protein2 = ∅)) as [Hi|Hi].
  { rewrite decide_False; [by rewrite app_nil_r|]. intros [Hne _]. done. }
  rewrite py_truediv_jaccard by done. cbn [mbind result_bind].
  destruct (decide (min_similarity ≤ jaccard (domain_set protein1) (domain_set protein2))%Qc)
    as [Hj|Hj].
  - rewrite decide_True by done. done.
  - rewrite decide_False; [by rewrite app_nil_r|]. intros [_ ?]. done.
Qed.

Lemma elem_of_compared (min_similarity : Qc) (p1 p2 : ProteinDoc) (e : Edge) :
  e ∈ compared min_similarity p1 p2
  ↔ (domain_set p1 ∩ domain_set p2 ≠ ∅
     ∧ (min_similarity ≤ jaccard (domain_set p1) (domain_set p2))%Qc)
    ∧ e = edge_between (doc_id p1, doc_id p2) p1 p2.
Proof.
  unfold compared. case_decide as Hq.
  - rewrite list_elem_of_singleton. naive_solver.
  - split; [by intros ?%elem_of_nil|]. naive_solver.
Qed.

Section distinct_ids_edges.
Context (proteins_data : list ProteinDoc) (min_similarity : Qc).
Context (Hids : NoDup (doc_id <$> proteins_data)).

(** An item of [protein_pairs] is scored without error, as the pair of
    proteins it stands for. *)
Lemma score_pair_entry (key : string * string) (data : PairData) :
  accumulate_pairs (_build_domain_index proteins_data) !! key = Some data →
  ∃ p1 p2,
    (p1, p2) ∈ ordered_pairs proteins_data
    ∧ sorted_pair (doc_id p1) (doc_id p2) = key
    ∧ domain_set p1 ∩ domain_set p2 ≠ ∅
    ∧ score_pair (protein_domains_of proteins_data) min_similarity [] (key, data)
      = Ok (if decide (min_similarity ≤ jaccard (domain_set p1) (domain_set p2))%Qc
            then [edge_between key p1 p2] else []).
Proof.
  intros Hkey.
  destruct (pair_entry_inv proteins_data Hids key data Hkey)
    as (p1 & p2 & Hin & Hk & Hshared & Hne).
  exists p1, p2. split; [done|]. split; [done|]. split; [done|].
  destruct (ordered_pairs_elem_of _ _ _ Hin) as [Hp1 Hp2].
  pose proof (protein_domains_of_lookup proteins_data Hids p1 Hp1) as Hd1.
  pose proof (protein_domains_of_lookup proteins_data Hids p2 Hp2) as Hd2.
  destruct key as [a b]. unfold score_pair, py_getitem. rewrite Hshared.
  destruct (sorted_pair_members (doc_id p1) (doc_id p2)) as [[Ha Hb]|[Ha Hb]];
    rewrite Hk in Ha, Hb; simpl in Ha, Hb; subst a b; rewrite Hd1, Hd2;
    cbn [mbind result_bind].
  - rewrite decide_False by (intros He; apply Hne; set_solver).
    rewrite py_truediv_jaccard by done. cbn [mbind result_bind].
    unfold edge_between. by case_decide.
  - rewrite (comm_L (∪) (domain_set p2) (domain_set p1)).
    rewrite decide_False by (intros He; apply Hne; set_solver).
    rewrite py_truediv_jaccard by done. cbn [mbind result_bind].
    unfold edge_between. by case_decide.
Qed.

Lemma inverted_index_edges_ok :
  inverted_index_edges min_similarity proteins_data
  = Ok (map_to_list (accumulate_pairs (_build_domain_index proteins_data))
          ≫= scored (protein_domains_of proteins_data) min_similarity).
Proof.
  unfold inverted_index_edges, _compute_similarities.
  rewrite (for_each_collect _ (scored (protein_domains_of proteins_data) min_similarity));
    [done|].
  intros [key data] Hitem%elem_of_map_to_list acc.
  destruct (score_pair_entry key data Hitem) as (p1 & p2 & _ & _ & _ & Hscore).
  apply score_pair_acc. unfold scored. by rewrite Hscore.
Qed.

(** The edges of the inverted-index computation, one pair at a time. *)
Lemma elem_of_inverted_index_edges (edges : list Edge) (e : Edge) :
  inverted_index_edges min_similarity proteins_data = Ok edges →
  e ∈ edges
  ↔ ∃ p1 p2,
      (p1, p2) ∈ ordered_pairs proteins_data
      ∧ domain_set p1 ∩ domain_set p2 ≠ ∅
      ∧ (min_similarity ≤ jaccard (domain_set p1) (domain_set p2))%Qc
      ∧ e = edge_between (sorted_pair (doc_id p1) (doc_id p2)) p1 p2.
Proof.
  rewrite inverted_index_edges_ok. intros [= <-]. rewrite list_elem_of_bind. split.
  - intros ([key data] & He & Hitem%elem_of_map_to_list).
    destruct (score_pair_entry key data Hitem) as (p1 & p2 & Hin & <- & Hne & Hscore).
    unfold scored in He. rewrite Hscore in He.
    case_decide; [|by apply elem_of_nil in He].
    apply list_elem_of_singleton in He. eauto 10.
  - intros (p1 & p2 & Hin & Hne & Hj & ->).
    destruct (pair_entry_exists proteins_data Hids p1 p2 Hin Hne) as [data Hdata].
    exists (sorted_pair (doc_id p1) (doc_id p2), data).
    split; [|by apply elem_of_map_to_list].
    destruct (score_pair_entry _ data Hdata) as (q1 & q2 & Hq & Hk & _ & Hscore).
    destruct (ordered_pair_key_unique proteins_data Hids q1 q2 p1 p2) as [-> ->];
      [done..|].
    unfold scored. rewrite Hscore, decide_True by done. left.
Qed.

Lemma all_pairs_edges_ok :
  all_pairs_edges proteins_data min_similarity
  = Ok (imap pair proteins_data
          ≫= λ ip, drop (ip.1 + 1) proteins_data ≫= compared min_similarity ip.2).
Proof.
  unfold all_pairs_edges.
  rewrite (for_each_collect _
             (λ ip, drop (ip.1 + 1) proteins_data ≫= compared min_similarity ip.2));
    [done|].
  intros [i p1] _ acc. simpl.
  apply for_each_collect. intros p2 _ acc'. apply compare_pair_ok.
Qed.

End distinct_ids_edges.

(** The edges of the all-pairs loop, one pair at a time. *)
Lemma elem_of_all_pairs_edges (proteins_data : list ProteinDoc) (min_similarity : Qc)
    (created : list Edge) (e : Edge) :
  all_pairs_edges proteins_data min_similarity = Ok created →
  e ∈ created
  ↔ ∃ p1 p2,
      (p1, p2) ∈ ordered_pairs proteins_data
      ∧ domain_set p1 ∩ domain_set p2 ≠ ∅
      ∧ (min_similarity ≤ jaccard (domain_set p1) (domain_set p2))%Qc
      ∧ e = edge_between (doc_id p1, doc_id p2) p1 p2.
Proof.
  rewrite all_pairs_edges_ok. intros [= <-]. rewrite list_elem_of_bind. split.
  - intros ([i p1] & He & Hip). simpl in He.
    apply elem_of_lookup_imap in Hip as (i' & p1' & [= <- <-] & Hi).
    apply list_elem_of_bind in He as (p2 & He & Hp2).
    apply list_elem_of_lookup in Hp2 as [j Hj]. rewrite lookup_drop in Hj.
    unfold compared in He. case_decide as Hq; [|by apply elem_of_nil in He].
    apply list_elem_of_singleton in He. destruct Hq as [Hne Hjac].
    exists p1, p2. split; [|done].
    apply elem_of_ordered_pairs. exists i, (i + 1 + j). split; [lia|done].
  - intros (p1 & p2 & (i & j & Hij & Hi & Hj)%elem_of_ordered_pairs & Hne & Hjac & ->).
    exists (i, p1). split; [|by apply elem_of_lookup_imap; eauto].
    simpl. apply list_elem_of_bind. exists p2. split.
    + unfold compared. rewrite decide_True by done. left.
    + apply list_elem_of_lookup. exists (j - (i + 1)). rewrite lookup_drop.
      by replace (i + 1 + (j - (i + 1))) with j by lia.
Qed.

(** *** Edges and their endpoints *)

Lemma canonical_edge_between (p1 p2 : ProteinDoc) :
  canonical (edge_between (doc_id p1, doc_id p2) p1 p2)
  = edge_between (sorted_pair (doc_id p1) (doc_id p2)) p1 p2.
Proof.
  unfold canonical, edge_between. simpl.
  by destruct (sorted_pair (doc_id p1) (doc_id p2)).
Qed.




Section edge_sets.
Context (proteins_data : list ProteinDoc) (min_similarity : Qc).
Context (Hids : NoDup (doc_id <$> proteins_data)).


Lemma inverted_index_edges_NoDup (edges : list Edge) :
  inverted_index_edges min_similarity proteins_data = Ok edges → NoDup edges.
Proof.
  rewrite inverted_index_edges_ok by done. intros [= <-].
  assert (∀ key data e,
            (key, data) ∈ map_to_list (accumulate_pairs (_build_domain_index proteins_data)) →
            e ∈ scored (protein_domains_of proteins_data) min_similarity (key, data) →
            (source_protein_id e, target_protein_id e) = key) as Hkey.
  { intros key data e Hitem%elem_of_map_to_list He.
    destruct (score_pair_entry proteins_data min_similarity Hids key data Hitem)
      as (p1 & p2 & _ & _ & _ & Hscore).
    unfold scored in He. rewrite Hscore in He.
    case_decide; [|by apply elem_of_nil in He].
    apply list_elem_of_singleton in He as ->. by destruct key. }
  apply NoDup_bind; [| |apply NoDup_map_to_list].
  - intros [k1 d1] [k2 d2] e H1 H2 He1 He2.
    pose proof (Hkey _ _ _ H1 He1). pose proof (Hkey _ _ _ H2 He2). simplify_eq.
    apply elem_of_map_to_list in H1, H2. congruence.
  - intros [key data] Hitem%elem_of_map_to_list.
    destruct (score_pair_entry proteins_data min_similarity Hids key data Hitem)
      as (p1 & p2 & _ & _ & _ & Hscore).
    unfold scored. rewrite Hscore. case_decide; [apply NoDup_singleton|apply NoDup_nil_2].
Qed.

Lemma all_pairs_edges_canonical_NoDup (created : list Edge) :
  all_pairs_edges proteins_data min_similarity = Ok created →
  NoDup (canonical <$> created).
Proof.
  intros Hcreated.
  assert (∀ e, e ∈ created →
            ∃ p1 p2, (p1, p2) ∈ ordered_pairs proteins_data
                     ∧ e = edge_between (doc_id p1, doc_id p2) p1 p2) as Hform.
  { intros e He. apply (elem_of_all_pairs_edges _ _ _ _ Hcreated) in He.
    destruct He as (p1 & p2 & ? & _ & _ & ?). eauto. }
  pose proof (distinct_ids_NoDup proteins_data Hids) as Hnd.
  apply NoDup_fmap_2_strong.
  - intros e1 e2 (p1 & p2 & Hp & ->)%Hform (q1 & q2 & Hq & ->)%Hform Hcan.
    rewrite !canonical_edge_between in Hcan.
    destruct (ordered_pair_key_unique proteins_data Hids p1 p2 q1 q2) as [-> ->];
      [done..| |done].
    apply (f_equal (λ e, (source_protein_id e, target_protein_id e))) in Hcan.
    simpl in Hcan. by rewrite <- !surjective_pairing in Hcan.
  - rewrite all_pairs_edges_ok in Hcreated. injection Hcreated as <-.
    apply NoDup_bind.
    + intros [i p1] [i' p1'] e Hi Hi' He He'. simpl in He, He'.
      apply elem_of_lookup_imap in Hi as (? & ? & [= <- <-] & Hi).
      apply elem_of_lookup_imap in Hi' as (? & ? & [= <- <-] & Hi').
      apply list_elem_of_bind in He as (p2 & He & _).
      apply list_elem_of_bind in He' as (p2' & He' & _).
      apply elem_of_compared in He as [_ ->], He' as [_ He'].
      apply (f_equal source_protein_id) in He'. simpl in He'.
      assert (p1 = p1') as <-.
      { eapply (NoDup_fmap_elem_inj doc_id); eauto using list_elem_of_lookup_2. }
      by rewrite (NoDup_lookup _ _ _ _ Hnd Hi Hi').
    + intros [i p1] _. simpl. apply NoDup_bind.
      * intros p2 p2' e Hp2 Hp2' He He'.
        apply elem_of_compared in He as [_ ->], He' as [_ He'].
        apply (f_equal target_protein_id) in He'. simpl in He'.
        apply list_elem_of_lookup in Hp2 as [j Hj], Hp2' as [j' Hj'].
        rewrite lookup_drop in Hj, Hj'.
        eapply (NoDup_fmap_elem_inj doc_id); eauto using list_elem_of_lookup_2.
      * intros p2 _. unfold compared.
        case_decide; [apply NoDup_singleton|apply NoDup_nil_2].
      * eapply sublist_NoDup; [exact Hnd|apply sublist_drop].
    + apply NoDup_alt. intros j j' [i p1] Hj Hj'.
      rewrite list_lookup_imap in Hj, Hj'.
      destruct (proteins_data !! j) eqn:Ej, (proteins_data !! j') eqn:Ej'; simplify_eq/=.
      done.
Qed.

End edge_sets.

(** *** The inverted index against the all-pairs loop *)

(** C4. For proteins with pairwise distinct ids, both computations
    return, and the inverted-index computation produces exactly the
    edges of the all-pairs loop once the endpoints of the latter are put
    in canonical order: the same pairs, each once, with the same Jaccard
    similarity and the same shared domains. *)
Theorem inverted_index_matches_all_pairs (proteins_data : list ProteinDoc)
    (min_similarity : Qc) :
  NoDup (doc_id <$> proteins_data) →
  ∃ edges created,
    inverted_index_edges min_similarity proteins_data = Ok edges
    ∧ all_pairs_edges proteins_data min_similarity = Ok created
    ∧ (∀ e, e ∈ edges ↔ e ∈ canonical <$> created)
    ∧ edges ≡ₚ canonical <$> created.
Proof.
  intros Hids.
  pose proof (inverted_index_edges_ok proteins_data min_similarity Hids) as He.
  pose proof (all_pairs_edges_ok proteins_data min_similarity) as Hc.
  set (edges := map_to_list _ ≫= _) in He. set (created := imap _ _ ≫= _) in Hc.
  exists edges, created. split; [done|]. split; [done|].
  assert (∀ e, e ∈ edges ↔ e ∈ canonical <$> created) as Hiff.
  { intros e. rewrite (elem_of_inverted_index_edges _ _ Hids _ _ He), list_elem_of_fmap.
    split.
    - intros (p1 & p2 & Hin & Hne & Hj & ->).
      exists (edge_between (doc_id p1, doc_id p2) p1 p2).
      split; [by rewrite canonical_edge_between|].
      apply (elem_of_all_pairs_edges _ _ _ _ Hc). eauto 10.
    - intros (e' & -> & (p1 & p2 & Hin & Hne & Hj & ->)%(elem_of_all_pairs_edges _ _ _ _ Hc)).
      rewrite canonical_edge_between. eauto 10. }
  split; [done|].
  apply NoDup_Permutation; [|by eapply all_pairs_edges_canonical_NoDup|done].
  by eapply inverted_index_edges_NoDup.
Qed.

Lemma inverted_index_matches_all_pairs_witness :
  ∃ edges created,
    inverted_index_edges Examples.float_0_1 Examples.three_proteins = Ok edges
    ∧ all_pairs_edges Examples.three_proteins Examples.float_0_1 = Ok created
    ∧ (∀ e, e ∈ edges ↔ e ∈ canonical <$> created)
    ∧ edges ≡ₚ canonical <$> created.
Proof.
  apply (inverted_index_matches_all_pairs Examples.three_proteins Examples.float_0_1).
  apply (bool_decide_unpack _). vm_compute. reflexivity.
Defined.

(** Proteins A{d1,d2}, B{d2,d3}, C{d3,d4} at threshold 0.1: the edges
    A-B and B-C with similarity 1/3, and no edge A-C. *)
Example three_proteins_edges :
  ∃ edges,
    inverted_index_edges Examples.float_0_1 Examples.three_proteins = Ok edges
    ∧ (λ e, (source_protein_id e, target_protein_id e, shared_domains e)) <$> edges
      = [("A", "B", ["d2"]); ("B", "C", ["d3"])]
    ∧ Forall (λ e, jaccard_similarity e = (Qc_of_Z 1 / Qc_of_Z 3)%Qc) edges.
Proof.
  eexists. split; [vm_compute; reflexivity|]. split; [vm_compute; reflexivity|].
  repeat constructor.
Qed.

(** *** Invariants of the edge list *)



(** With threshold 0 the pair A, C of the three-protein example, which
    shares no domain, still gets no edge. *)
Example min_similarity_zero_needs_shared_domain :
  ∃ edges,
    inverted_index_edges float_0_0 Examples.three_proteins = Ok edges
    ∧ (λ e, (source_protein_id e, target_protein_id e)) <$> edges
      = [("A", "B"); ("B", "C")].
Proof. eexists. split; vm_compute; reflexivity. Qed.

(** * Properties of the services *)

Import Services.

Lemma get_proteins_unfold (attribute : string) (w : World) :
  get_proteins_for_label_propagation attribute w
  = match driver w with
    | None => (Raise (Exception "Neo4j driver not initialized"), w)
    | Some nodes =>
        if decide (attribute = "ec")
        then (Ok (row_of_node node_ec_numbers <$> nodes), logged (GraphReadLabels attribute) w)
        else if decide (attribute = "go")
        then (Ok (row_of_node node_go_terms <$> nodes), logged (GraphReadLabels attribute) w)
        else (Raise (ValueError "Attribute must be 'ec' or 'go'"), w)
    end.
Proof.
  unfold get_proteins_for_label_propagation, mbind, io_bind, io_get. simpl.
  destruct (driver w); [|done]. repeat case_decide; done.
Qed.

Lemma get_proteins_ok (attribute : string) (w w' : World) (rows : list ProteinRow) :
  get_proteins_for_label_propagation attribute w = (Ok rows, w') →
  (attribute = "ec" ∨ attribute = "go")
  ∧ w' = logged (GraphReadLabels attribute) w
  ∧ ∃ nodes, driver w = Some nodes
             ∧ rows = row_of_node (if decide (attribute = "ec")
                                   then node_ec_numbers else node_go_terms) <$> nodes.
Proof.
  rewrite get_proteins_unfold. destruct (driver w) as [nodes|]; [|done].
  repeat case_decide; intros [= <- <-]; eauto 10.
Qed.

Lemma io_bind_unfold {A B} (m : io A) (k : A → io B) (w : World) :
  (m ≫= k) w = match m w with
               | (Ok a, w') => k a w'
               | (Raise e, w') => (Raise e, w')
               end.
Proof. done. Qed.

Lemma propagate_labels_unfold_raise (request : LabelPropagationRequest) (w w' : World)
    (e : exn) :
  get_proteins_for_label_propagation (attribute request) w = (Raise e, w') →
  propagate_labels request w = (Raise e, w').
Proof. intros Hget. unfold propagate_labels. by rewrite io_bind_unfold, Hget. Qed.

(** *** Rejected requests *)

(** C9. A request whose attribute is neither "ec" nor "go" raises an
    error and leaves the world as it was: no query reaches the graph
    store and nothing is written; with a connected driver the error is
    the attribute error.  A request for which the store returns no
    protein raises the empty-input error after that one read.  A request
    that succeeds has a supported attribute and a non-empty snapshot. *)
Theorem propagate_labels_rejects (request : LabelPropagationRequest) (w : World) :
  (attribute request ≠ "ec" → attribute request ≠ "go" →
   ∃ e, propagate_labels request w = (Raise e, w)
        ∧ (is_Some (driver w) → e = ValueError "Attribute must be 'ec' or 'go'")
        ∧ (driver w = None → e = Exception "Neo4j driver not initialized"))
  ∧ (∀ w', get_proteins_for_label_propagation (attribute request) w = (Ok [], w') →
       propagate_labels request w
       = (Raise (ValueError "No proteins found for label propagation"), w')
       ∧ driver w' = driver w ∧ mongo w' = mongo w
       ∧ trace w' = trace w ++ [GraphReadLabels (attribute request)])
  ∧ (∀ r w', propagate_labels request w = (Ok r, w') →
       (attribute request = "ec" ∨ attribute request = "go")
       ∧ ∃ rows w1, get_proteins_for_label_propagation (attribute request) w = (Ok rows, w1)
                     ∧ rows ≠ []).
Proof.
  split; [|split].
  - intros Hec Hgo. pose proof (get_proteins_unfold (attribute request) w) as Hget.
    destruct (driver w) as [nodes|] eqn:Hd.
    + rewrite !decide_False in Hget by done. eexists. split.
      * by apply propagate_labels_unfold_raise.
      * split; [done|]. intros [=].
    + eexists. split; [by apply propagate_labels_unfold_raise|].
      split; [by intros [? [=]]|done].
  - intros w' Hget. split.
    + unfold propagate_labels. rewrite io_bind_unfold, Hget. by rewrite decide_True.
    + apply get_proteins_ok in Hget as (_ & -> & _). done.
  - intros r w' Hrun. unfold propagate_labels in Hrun. rewrite io_bind_unfold in Hrun.
    destruct (get_proteins_for_label_propagation (attribute request) w)
      as [[rows|e] w1] eqn:Hget; [|done].
    split; [by apply get_proteins_ok in Hget as [? _]|].
    exists rows, w1. split; [done|]. intros ->. by rewrite decide_True in Hrun.
Qed.

Lemma propagate_labels_rejects_witness :
  (∃ e, propagate_labels (mkRequest "interpro" 100 float_0_01 float_0_01) Examples.chain_world
        = (Raise e, Examples.chain_world)
        ∧ e = ValueError "Attribute must be 'ec' or 'go'")
  ∧ propagate_labels (mkRequest "ec" 100 float_0_01 float_0_01) Examples.empty_world
    = (Raise (ValueError "No proteins found for label propagation"),
       logged (GraphReadLabels "ec") Examples.empty_world).
Proof.
  split.
  - destruct (propagate_labels_rejects
                (mkRequest "interpro" 100 float_0_01 float_0_01) Examples.chain_world)
      as [Hbad _].
    destruct Hbad as (e & Hrun & Hconn & _); [done|done|].
    exists e. split; [exact Hrun|]. apply Hconn. simpl. eauto.
  - destruct (propagate_labels_rejects
                (mkRequest "ec" 100 float_0_01 float_0_01) Examples.empty_world)
      as (_ & Hempty & _).
    apply (Hempty (logged (GraphReadLabels "ec") Examples.empty_world)).
    reflexivity.
Defined.

(** *** Divisions *)

Lemma safe_bind {A B} (m : result A) (k : A → result B) :
  safe m → (∀ a, m = Ok a → safe (k a)) → safe (m ≫= k).
Proof.
  unfold safe. intros Hm Hk. destruct m as [a|e]; simpl.
  - by apply Hk.
  - intros [= ->]. done.
Qed.

Lemma safe_for_each {A S} (body : S → A → result S) (xs : list A) :
  (∀ s x, safe (body s x)) → ∀ s, safe (for_each body xs s).
Proof.
  intros Hbody. induction xs as [|x xs IH]; intros s; [done|].
  simpl. apply safe_bind; [apply Hbody|]. intros s' _. apply IH.
Qed.

Lemma safe_py_getitem {V} (d : gmap string V) (key : string) : safe (py_getitem d key).
Proof. unfold safe, py_getitem. by destruct (d !! key). Qed.

Lemma safe_py_truediv (a b : nat) : b ≠ 0 → safe (py_truediv a b).
Proof. intros Hb. unfold safe, py_truediv. by rewrite decide_False. Qed.

Lemma py_truediv_zero (a b : nat) : py_truediv a b = Raise ZeroDivisionError ↔ b = 0.
Proof. unfold py_truediv. case_decide; split; done. Qed.

Lemma safe_propagate_protein (graph : gmap string (list string))
    (current_labels : gmap string (gset string))
    (st : gmap string (gset string) * nat) (protein : string) :
  safe (propagate_protein graph current_labels st protein).
Proof.
  destruct st as [new_labels changes]. unfold propagate_protein.
  apply safe_bind; [apply safe_py_getitem|]. intros nbrs _.
  case_decide.
  - apply safe_bind; [apply safe_py_getitem|]. done.
  - apply safe_bind.
    + case_decide; [done|apply safe_py_getitem].
    + intros new_label_set _. apply safe_bind; [apply safe_py_getitem|]. done.
Qed.

Lemma safe_propagation_loop (graph : gmap string (list string)) (proteins : list string)
    (max_iterations : Z) (threshold : Qc) (iterations : list nat) :
  proteins ≠ [] →
  ∀ current_labels,
    safe (propagation_loop graph proteins max_iterations threshold iterations current_labels).
Proof.
  intros Hne. induction iterations as [|iteration rest IH]; intros current_labels; [done|].
  simpl. apply safe_bind.
  { apply safe_for_each. apply safe_propagate_protein. }
  intros [new_labels changes] _. apply safe_bind.
  { apply safe_py_truediv. by destruct proteins. }
  intros rate _. case_decide; [done|apply IH].
Qed.

Lemma keys_nil_iff (graph : gmap string (list string)) : keys graph = [] ↔ graph = ∅.
Proof.
  rewrite <- length_zero_iff_nil, length_keys. apply map_size_empty_iff.
Qed.

(** The routine divides by zero exactly on the empty graph. *)
Lemma safe_label_propagation (graph initial_labels : gmap string (list string))
    (max_iterations : Z) (threshold : Qc) :
  graph ≠ ∅ →
  safe (_label_propagation graph initial_labels max_iterations threshold).
Proof.
  intros Hne. unfold _label_propagation. apply safe_propagation_loop.
  by rewrite keys_nil_iff.
Qed.

Lemma label_propagation_empty_graph (initial_labels : gmap string (list string))
    (max_iterations : Z) (threshold : Qc) :
  (1 ≤ max_iterations)%Z →
  _label_propagation ∅ initial_labels max_iterations threshold = Raise ZeroDivisionError.
Proof.
  intros Hmax. unfold _label_propagation.
  destruct (Z.to_nat max_iterations) as [|n] eqn:Hn; [lia|].
  unfold keys. rewrite map_to_list_empty. done.
Qed.

Lemma build_graph_dom (proteins_data : list ProteinRow) :
  dom (_build_graph proteins_data) = list_to_set (protein_id <$> proteins_data).
Proof.
  unfold _build_graph. rewrite (foldl_insert_by_key_dom protein_id neighbors).
  set_solver.
Qed.

Lemma extract_initial_labels_dom (proteins_data : list ProteinRow) :
  dom (_extract_initial_labels proteins_data) = list_to_set (protein_id <$> proteins_data).
Proof.
  unfold _extract_initial_labels.
  rewrite (foldl_insert_by_key_dom protein_id
             (λ p, if decide (labels p ≠ []) then labels p else [])).
  set_solver.
Qed.

Lemma build_graph_nonempty (proteins_data : list ProteinRow) :
  proteins_data ≠ [] → _build_graph proteins_data ≠ ∅.
Proof.
  intros Hne He. apply (f_equal dom) in He. rewrite build_graph_dom, dom_empty_L in He.
  destruct proteins_data as [|p ps]; [done|]. set_solver.
Qed.

(** The graph and the initial labels built from one snapshot have the
    same proteins. *)
Lemma snapshot_covers (proteins_data : list ProteinRow) :
  covers (_build_graph proteins_data) (_extract_initial_labels proteins_data).
Proof. unfold covers. by rewrite build_graph_dom, extract_initial_labels_dom. Qed.

Lemma io_safe_bind {A B} (m : io A) (k : A → io B) :
  io_safe m → (∀ a, io_safe (k a)) → io_safe (m ≫= k).
Proof.
  intros Hm Hk w. rewrite io_bind_unfold. specialize (Hm w).
  destruct (m w) as [[a|e] w']; [apply Hk|].
  unfold safe in *. simpl in *. intros [= ->]. done.
Qed.

Lemma io_safe_ret {A} (a : A) : io_safe (mret a).
Proof. intros w. done. Qed.

Lemma io_safe_lift {A} (r : result A) : safe r → io_safe (io_lift r).
Proof. intros Hr w. done. Qed.

Lemma io_safe_for_each {A} (body : A → io unit) (xs : list A) :
  (∀ x, io_safe (body x)) → io_safe (io_for_each body xs).
Proof.
  intros Hbody. induction xs as [|x xs IH]; [apply io_safe_ret|].
  simpl. apply io_safe_bind; [apply Hbody|]. intros _. apply IH.
Qed.

Lemma io_safe_get_proteins (attribute : string) :
  io_safe (get_proteins_for_label_propagation attribute).
Proof.
  intros w. rewrite get_proteins_unfold. destruct (driver w); [|done].
  repeat case_decide; done.
Qed.

Lemma io_safe_update_protein_labels (protein_id : string) (labels : list string)
    (attribute : string) :
  io_safe (update_protein_labels protein_id labels attribute).
Proof.
  intros w. unfold update_protein_labels. rewrite io_bind_unfold. simpl.
  destruct (driver w); [|done]. case_decide; done.
Qed.

Lemma io_safe_get_protein_by_id (protein_id : string) :
  io_safe (get_protein_by_id protein_id).
Proof.
  intros w. unfold get_protein_by_id. rewrite io_bind_unfold. simpl.
  destruct (mongo w); done.
Qed.

Lemma io_safe_update_protein_annotations (protein_id : string)
    (annotations : list Annotation) :
  io_safe (update_protein_annotations protein_id annotations).
Proof.
  intros w. unfold update_protein_annotations. rewrite io_bind_unfold. simpl.
  destruct (mongo w); done.
Qed.

Lemma io_safe_write_back (final_labels : gmap string (list string)) (attribute : string) :
  io_safe (_update_protein_labels final_labels attribute).
Proof.
  unfold _update_protein_labels. apply io_safe_for_each. intros [protein_id labels].
  apply io_safe_bind; [apply io_safe_update_protein_labels|]. intros _.
  apply io_safe_bind; [apply io_safe_get_protein_by_id|]. intros [protein|].
  - apply io_safe_bind; [apply io_safe_update_protein_annotations|]. intros _.
    apply io_safe_ret.
  - apply io_safe_ret.
Qed.

Lemma io_safe_propagate_labels (request : LabelPropagationRequest) :
  io_safe (propagate_labels request).
Proof.
  unfold propagate_labels. apply io_safe_bind; [apply io_safe_get_proteins|].
  intros proteins_data. case_decide as Hrows; [done|].
  apply io_safe_bind.
  { apply io_safe_lift, safe_label_propagation. by apply build_graph_nonempty. }
  intros [[final_labels iterations] converged].
  apply io_safe_bind; [apply io_safe_write_back|]. intros _. apply io_safe_ret.
Qed.

Lemma safe_io_bind {A B} (m : io A) (k : A → io B) (w : World) :
  safe (m w).1 →
  (∀ a w', m w = (Ok a, w') → safe (k a w').1) →
  safe ((m ≫= k) w).1.
Proof.
  intros Hm Hk. rewrite io_bind_unfold.
  destruct (m w) as [[a|e] w'] eqn:Hmw; [by apply Hk|].
  unfold safe in *. simpl in *. intros [= ->]. done.
Qed.

Lemma length_omap_lookup {A} (population : list A) (positions : list nat) :
  (∀ i, i ∈ positions → i < length population) →
  length (omap (λ i, population !! i) positions) = length positions.
Proof.
  induction positions as [|i positions IH]; intros Hpos; [done|].
  simpl. destruct (lookup_lt_is_Some_2 population i) as [x Hx].
  { apply Hpos. left. }
  rewrite Hx. simpl. f_equal. apply IH. intros j Hj. apply Hpos. by right.
Qed.

Lemma random_sample_length {A} (choose : nat → nat → list nat)
    (population : list A) (k : nat) (sample : list A) :
  sample_contract choose (length population) k →
  random_sample choose population k = Ok sample →
  length sample = k.
Proof.
  intros (Hlen & _ & Hpos). unfold random_sample. case_decide; [|done].
  intros [= <-]. by rewrite length_omap_lookup.
Qed.

Lemma safe_random_sample {A} (choose : nat → nat → list nat)
    (population : list A) (k : nat) :
  safe (random_sample choose population k).
Proof. unfold safe, random_sample. by case_decide. Qed.

Lemma safe_score_holdout (heap : list ProteinRow) (final_labels : gmap string (list string))
    (st : nat * nat) (protein : nat) :
  safe (score_holdout heap final_labels st protein).
Proof.
  destruct st as [correct total]. unfold score_holdout.
  apply safe_bind; [by destruct (original_labels _)|].
  intros original _. repeat case_decide; done.
Qed.

Lemma io_safe_evaluate (choose : nat → nat → list nat) (attribute : string) :
  (∀ n k, 1 ≤ k ≤ n → sample_contract choose n k) →
  io_safe (evaluate_propagation_quality choose attribute).
Proof.
  intros Hchoose w. unfold evaluate_propagation_quality.
  apply safe_io_bind; [apply io_safe_get_proteins|]. intros heap w1 _.
  case_decide as Hann; [done|].
  set (annotated := filter _ _) in *.
  assert (1 ≤ 1 `max` (length annotated `div` 5) ≤ length annotated) as Hk.
  { destruct annotated; [done|]. simpl length.
    pose proof (Nat.Div0.div_le_upper_bound (S (length annotated)) 5 (S (length annotated))).
    lia. }
  apply safe_io_bind; [apply io_safe_lift, safe_random_sample|].
  intros holdout w2 [= Hsample <-].
  apply (random_sample_length choose) in Hsample; [|by apply Hchoose].
  apply safe_io_bind.
  { apply io_safe_lift, safe_label_propagation, build_graph_nonempty.
    intros Hnil%fmap_nil_inv. apply Hann. unfold annotated. by rewrite Hnil. }
  intros [[final_labels its] conv] w3 _.
  apply safe_io_bind; [apply io_safe_lift, safe_for_each, safe_score_holdout|].
  intros [correct total] w4 _.
  apply safe_io_bind.
  { apply io_safe_lift. case_decide; [apply safe_py_truediv; lia|done]. }
  intros accuracy w5 _.
  apply safe_io_bind; [|done].
  apply io_safe_lift, safe_py_truediv. lia.
Qed.

(** C10. Whatever the stores hold and whatever is requested, neither
    label propagation nor quality evaluation ends in a division by zero,
    provided [random.sample] returns as many elements as it is asked for:
    the routine divides by the number of proteins of a non-empty graph,
    the coverage by the holdout size [max(1, n // 5)], and the accuracy
    only by a positive number of predictions.  The empty-input error is
    what keeps the routine from the empty graph, on which it would divide
    by zero. *)
Theorem divisions_never_by_zero (choose : nat → nat → list nat) :
  (∀ n k, 1 ≤ k ≤ n → sample_contract choose n k) →
  (∀ request w, (propagate_labels request w).1 ≠ Raise ZeroDivisionError)
  ∧ (∀ attribute w,
       (evaluate_propagation_quality choose attribute w).1 ≠ Raise ZeroDivisionError)
  ∧ (∀ graph initial_labels max_iterations threshold,
       graph ≠ ∅ →
       _label_propagation graph initial_labels max_iterations threshold
       ≠ Raise ZeroDivisionError)
  ∧ (∀ initial_labels max_iterations threshold,
       (1 ≤ max_iterations)%Z →
       _label_propagation ∅ initial_labels max_iterations threshold
       = Raise ZeroDivisionError)
  ∧ (∀ a b, py_truediv a b = Raise ZeroDivisionError ↔ b = 0).
Proof.
  intros Hchoose. split; [|split; [|split; [|split]]].
  - intros request w. apply io_safe_propagate_labels.
  - intros attribute w. by apply io_safe_evaluate.
  - intros graph initial_labels max_iterations threshold Hne.
    by apply safe_label_propagation.
  - intros initial_labels max_iterations threshold Hmax.
    by apply label_propagation_empty_graph.
  - apply py_truediv_zero.
Qed.

Lemma divisions_never_by_zero_witness :
  (∀ request w, (propagate_labels request w).1 ≠ Raise ZeroDivisionError)
  ∧ (∀ attribute w,
       (evaluate_propagation_quality Examples.first_positions attribute w).1
       ≠ Raise ZeroDivisionError)
  ∧ (∀ graph initial_labels max_iterations threshold,
       graph ≠ ∅ →
       _label_propagation graph initial_labels max_iterations threshold
       ≠ Raise ZeroDivisionError)
  ∧ (∀ initial_labels max_iterations threshold,
       (1 ≤ max_iterations)%Z →
       _label_propagation ∅ initial_labels max_iterations threshold
       = Raise ZeroDivisionError)
  ∧ (∀ a b, py_truediv a b = Raise ZeroDivisionError ↔ b = 0).
Proof.
  apply (divisions_never_by_zero Examples.first_positions).
  intros n k Hk. unfold sample_contract, Examples.first_positions.
  split; [apply length_seq|]. split; [apply NoDup_seq|].
  intros i Hi%elem_of_seq. lia.
Defined.

(** *** Rows reached through positions *)

Section positions.
Context {A : Type} `{!Inhabited A}.
Implicit Types l pre : list A.



Lemma filter_positions_from (P : A → Prop) `{!∀ x, Decision (P x)} pre l :
  ((pre ++ l) !!!.) <$> filter (λ i, P ((pre ++ l) !!! i)) (seq (length pre) (length l))
  = filter P l.
Proof.
  revert pre. induction l as [|x l IH]; intros pre; [done|].
  simpl seq. rewrite !filter_cons.
  rewrite (list_lookup_total_middle pre l x (length pre)) by done.
  specialize (IH (pre ++ [x])). rewrite <- app_assoc, length_app in IH. simpl in IH.
  replace (length pre + 1) with (S (length pre)) in IH by lia.
  destruct (decide (P x)).
  - rewrite fmap_cons, IH. f_equal. by apply list_lookup_total_middle.
  - done.
Qed.

Lemma filter_positions (P : A → Prop) `{!∀ x, Decision (P x)} l :
  (l !!!.) <$> filter (λ i, P (l !!! i)) (seq 0 (length l)) = filter P l.
Proof. apply (filter_positions_from P [] l). Qed.




End positions.

(** *** Masking the held-out rows *)

Section masking.
Context (rows : list ProteinRow).
Context (Hids : NoDup (protein_id <$> rows)).







End masking.

(** *** Scoring the held-out rows *)






(** *** Quality evaluation *)



(** The evaluation of the chain example holds out A, which gets its
    label back from B: one prediction, correct. *)
Example chain_evaluation :
  ∃ accuracy coverage,
    (evaluate_propagation_quality Examples.first_positions "ec" Examples.chain_world).1
    = Ok (EvaluationReport 1 accuracy coverage 1 1)
    ∧ accuracy = float_1_0 ∧ coverage = float_1_0.
Proof.
  eexists _, _. split; [vm_compute; reflexivity|].
  split; apply Qc_is_canon; reflexivity.
Qed.

(** Two rows with the same id are outside the data model: the masking
    loop then empties the first of them, and scoring the second, which
    was the one drawn, finds no [original_labels]. *)
Example evaluation_needs_distinct_ids :
  (evaluate_propagation_quality Examples.second_position "ec" Examples.duplicate_world).1
  = Raise (KeyError "original_labels").
Proof. vm_compute. reflexivity. Qed.

(** * Further properties of label propagation *)

(** ** Quotients of two counts *)

Section quotients.
Local Open Scope Qc_scope.

Lemma Qc_of_nat_pos (b : nat) : b ≠ 0%nat → 0 < Qc_of_Z (Z.of_nat b).
Proof.
  intros Hb. rewrite <- Z2Qc_inj_0. apply (proj1 (Z2Qc_inj_lt 0 (Z.of_nat b))). lia.
Qed.

Lemma Qc_of_nat_nonneg (a : nat) : 0 ≤ Qc_of_Z (Z.of_nat a).
Proof. rewrite <- Z2Qc_inj_0. apply (proj1 (Z2Qc_inj_le 0 (Z.of_nat a))). lia. Qed.

Lemma quotient_mult (a b : nat) :
  b ≠ 0%nat →
  Qc_of_Z (Z.of_nat a) / Qc_of_Z (Z.of_nat b) * Qc_of_Z (Z.of_nat b)
  = Qc_of_Z (Z.of_nat a).
Proof.
  intros Hb. rewrite Qcmult_comm. apply Qcmult_div_r.
  apply not_eq_sym, Qclt_not_eq. by apply Qc_of_nat_pos.
Qed.

Lemma quotient_nonneg (a b : nat) :
  b ≠ 0%nat → 0 ≤ Qc_of_Z (Z.of_nat a) / Qc_of_Z (Z.of_nat b).
Proof.
  intros Hb. apply Qcmult_nonneg_nonneg; [apply Qc_of_nat_nonneg|].
  apply Qclt_le_weak, Qcinv_pos. by apply Qc_of_nat_pos.
Qed.

Lemma quotient_le_1 (a b : nat) :
  b ≠ 0%nat → (a ≤ b)%nat → Qc_of_Z (Z.of_nat a) / Qc_of_Z (Z.of_nat b) ≤ 1.
Proof.
  intros Hb Hab.
  apply (Qcmult_le_mono_pos_r _ _ (Qc_of_Z (Z.of_nat b))); [by apply Qc_of_nat_pos|].
  rewrite quotient_mult, Qcmult_1_l by done.
  apply (proj1 (Z2Qc_inj_le (Z.of_nat a) (Z.of_nat b))). lia.
Qed.

Lemma quotient_eq_1 (a b : nat) :
  b ≠ 0%nat → Qc_of_Z (Z.of_nat a) / Qc_of_Z (Z.of_nat b) = 1 ↔ a = b.
Proof.
  intros Hb. split.
  - intros Heq. apply (f_equal (λ q, q * Qc_of_Z (Z.of_nat b))) in Heq.
    rewrite quotient_mult, Qcmult_1_l in Heq by done.
    apply Z2Qc_inj in Heq. lia.
  - intros ->. apply Qcmult_inv_r.
    apply not_eq_sym, Qclt_not_eq. by apply Qc_of_nat_pos.
Qed.

Lemma quotient_eq_0 (a b : nat) :
  b ≠ 0%nat → Qc_of_Z (Z.of_nat a) / Qc_of_Z (Z.of_nat b) = 0 ↔ a = 0%nat.
Proof.
  intros Hb. split.
  - intros Heq. apply (f_equal (λ q, q * Qc_of_Z (Z.of_nat b))) in Heq.
    rewrite quotient_mult, Qcmult_0_l in Heq by done.
    rewrite <- Z2Qc_inj_0 in Heq. apply Z2Qc_inj in Heq. lia.
  - intros ->. change (Z.of_nat 0) with 0%Z. rewrite Z2Qc_inj_0. apply Qcmult_0_l.
Qed.

End quotients.

(** ** The maps built from a snapshot *)

Lemma foldl_insert_by_key_last {A V} (key : A → string) (val : A → V)
    (l1 l2 : list A) (x : A) (acc : gmap string V) :
  key x ∉ key <$> l2 →
  foldl (λ m x, <[key x := val x]> m) acc (l1 ++ x :: l2) !! key x = Some (val x).
Proof.
  intros Hx. rewrite foldl_app. simpl.
  rewrite foldl_insert_by_key_notin by done. apply lookup_insert_eq.
Qed.

(** X1. The graph and the initial labels built from one snapshot have
    the ids of its rows as keys, and the last row with a given id decides
    the neighbors and the labels stored under it. *)
Theorem snapshot_maps_last_row_wins (proteins_data : list ProteinRow) :
  dom (_build_graph proteins_data) = list_to_set (protein_id <$> proteins_data)
  ∧ dom (_extract_initial_labels proteins_data) = list_to_set (protein_id <$> proteins_data)
  ∧ ∀ before row after,
      proteins_data = before ++ row :: after →
      protein_id row ∉ protein_id <$> after →
      _build_graph proteins_data !! protein_id row = Some (neighbors row)
      ∧ _extract_initial_labels proteins_data !! protein_id row = Some (labels row).
Proof.
  split; [apply build_graph_dom|]. split; [apply extract_initial_labels_dom|].
  intros before row after -> Hlast. split.
  - unfold _build_graph. by apply (foldl_insert_by_key_last protein_id neighbors).
  - unfold _extract_initial_labels.
    rewrite (foldl_insert_by_key_last protein_id
               (λ p, if decide (labels p ≠ []) then labels p else [])) by done.
    f_equal. case_decide as Hl; [done|]. by rewrite Hl.
Qed.

Lemma snapshot_maps_last_row_wins_witness :
  _build_graph [mkRow "A" ["x"] ["B"] None; mkRow "B" [] [] None; mkRow "A" [] ["C"] None]
    !! "A" = Some ["C"]
  ∧ _extract_initial_labels
      [mkRow "A" ["x"] ["B"] None; mkRow "B" [] [] None; mkRow "A" [] ["C"] None]
    !! "A" = Some [].
Proof.
  destruct (snapshot_maps_last_row_wins
              [mkRow "A" ["x"] ["B"] None; mkRow "B" [] [] None; mkRow "A" [] ["C"] None])
    as (_ & _ & Hlast).
  apply (Hlast [mkRow "A" ["x"] ["B"] None; mkRow "B" [] [] None]
               (mkRow "A" [] ["C"] None) []).
  - reflexivity.
  - apply not_elem_of_nil.
Defined.

(** ** Failure and success of the routine *)

(** The first protein of the graph that has no label set stops the first
    iteration. *)
Lemma label_propagation_raises_at_missing (graph initial_labels : gmap string (list string))
    (max_iterations : Z) (threshold : Qc) :
  ¬ covers graph initial_labels →
  (1 ≤ max_iterations)%Z →
  ∃ protein,
    protein ∈ dom graph ∧ protein ∉ dom initial_labels
    ∧ _label_propagation graph initial_labels max_iterations threshold
      = Raise (KeyError protein).
Proof.
  intros Hcov Hmax.
  destruct (propagate_once_missing_entry graph (list_to_set <$> initial_labels))
    as (p & Hp & Hnp & Hrun).
  { unfold covers in *. by rewrite dom_fmap_L. }
  exists p. split; [done|]. split; [by rewrite dom_fmap_L in Hnp|].
  unfold _label_propagation.
  destruct (Z.to_nat max_iterations) as [|n] eqn:Hn; [lia|].
  simpl. by rewrite Hrun.
Qed.

(** X2. With at least one iteration to run, a protein of the graph
    without an entry in the initial labels makes the routine raise
    [KeyError] for such a protein, before any convergence test. *)
Theorem label_propagation_missing_entry (graph initial_labels : gmap string (list string))
    (max_iterations : Z) (threshold : Qc) :
  ¬ covers graph initial_labels →
  (1 ≤ max_iterations)%Z →
  ∃ protein,
    protein ∈ dom graph ∧ protein ∉ dom initial_labels
    ∧ _label_propagation graph initial_labels max_iterations threshold
      = Raise (KeyError protein).
Proof. apply label_propagation_raises_at_missing. Qed.

Lemma label_propagation_missing_entry_witness :
  ∃ protein,
    protein ∈ dom Examples.pair_graph ∧ protein ∉ dom (∅ : gmap string (list string))
    ∧ _label_propagation Examples.pair_graph ∅ 1 float_0_01 = Raise (KeyError protein).
Proof.
  apply (label_propagation_missing_entry Examples.pair_graph ∅ 1 float_0_01).
  - unfold covers. intros Hsub. apply (bool_decide_pack _) in Hsub.
    vm_compute in Hsub. exact Hsub.
  - lia.
Defined.

(** What a successful run has gone through: no iteration at all, or at
    least one on a non-empty graph whose proteins all have an entry. *)
Lemma label_propagation_ok_trajectory (graph initial_labels : gmap string (list string))
    (max_iterations : Z) (threshold : Qc)
    (final : gmap string (list string)) (iterations : Z) (converged : bool) :
  _label_propagation graph initial_labels max_iterations threshold
  = Ok (final, iterations, converged) →
  ∃ k,
    final = to_label_lists (labels_after graph (list_to_set <$> initial_labels) k)
    ∧ ((k = 0 ∧ (max_iterations ≤ 0)%Z ∧ iterations = max_iterations ∧ converged = false)
       ∨ (1 ≤ k ∧ (1 ≤ max_iterations)%Z ∧ graph ≠ ∅ ∧ covers graph initial_labels
          ∧ (1 ≤ iterations ≤ max_iterations)%Z)).
Proof.
  intros Hrun. destruct (decide (max_iterations ≤ 0)%Z) as [Hmax|Hmax].
  - exists 0. unfold _label_propagation in Hrun.
    replace (Z.to_nat max_iterations) with 0 in Hrun by lia.
    simpl in Hrun. injection Hrun as <- <- <-. split; [done|]. by left.
  - assert (graph ≠ ∅) as Hne.
    { intros ->. rewrite label_propagation_empty_graph in Hrun by lia. done. }
    assert (covers graph initial_labels) as Hcov.
    { destruct (decide (dom graph ⊆ dom initial_labels)) as [|Hn]; [done|].
      destruct (label_propagation_raises_at_missing graph initial_labels max_iterations
                  threshold Hn) as (p & _ & _ & Hraise); [lia|]. congruence. }
    assert (covers graph (list_to_set <$> initial_labels : gmap string (gset string)))
      as Hcov' by (unfold covers in *; by rewrite dom_fmap_L).
    destruct (propagation_loop_spec graph (list_to_set <$> initial_labels) max_iterations
                threshold (Z.to_nat max_iterations) Hne Hcov' 0)
      as (final' & k & conv & Hrun' & Hspec); [intros j Hj; lia|].
    unfold _label_propagation in Hrun.
    change (labels_after graph (list_to_set <$> initial_labels) 0)
      with (list_to_set <$> initial_labels : gmap string (gset string)) in Hrun'.
    rewrite Hrun in Hrun'. injection Hrun' as <- <- <-. destruct converged.
    + destruct Hspec as (k' & -> & Hk' & -> & _). exists k'. split; [done|].
      right. repeat split; try done; lia.
    + destruct Hspec as (-> & -> & _). exists (Z.to_nat max_iterations).
      split; [done|]. right. repeat split; try done; lia.
Qed.

Lemma to_label_lists_lookup (d : gmap string (gset string)) (p : string) :
  to_label_lists d !! p = elements <$> d !! p.
Proof. unfold to_label_lists. apply lookup_fmap. Qed.

Lemma labels_after_dom (graph : gmap string (list string))
    (init : gmap string (gset string)) (k : nat) :
  covers graph init → 1 ≤ k → dom (labels_after graph init k) = dom graph.
Proof.
  intros Hcov Hk. destruct k as [|k]; [lia|]. simpl.
  apply sync_step_dom. by apply labels_after_covers.
Qed.

(** X3. The label lists returned by a successful run have no repeated
    label.  After at least one iteration the result has exactly the
    proteins of the graph as keys, so that entries of the initial labels
    for other proteins are dropped; with [max_iterations ≤ 0] no
    iteration runs and the result is the initial labels, deduplicated,
    reported with [max_iterations] itself and [converged = False]. *)
Theorem label_propagation_result_keys (graph initial_labels : gmap string (list string))
    (max_iterations : Z) (threshold : Qc)
    (final : gmap string (list string)) (iterations : Z) (converged : bool) :
  _label_propagation graph initial_labels max_iterations threshold
  = Ok (final, iterations, converged) →
  (∀ p l, final !! p = Some l → NoDup l)
  ∧ ((1 ≤ max_iterations)%Z →
     dom final = dom graph ∧ (1 ≤ iterations ≤ max_iterations)%Z)
  ∧ ((max_iterations ≤ 0)%Z →
     iterations = max_iterations ∧ converged = false
     ∧ ∀ p, final !! p
            = (λ seed, elements (list_to_set seed : gset string)) <$> initial_labels !! p).
Proof.
  intros Hrun.
  destruct (label_propagation_ok_trajectory _ _ _ _ _ _ _ Hrun) as (k & -> & Hk).
  split; [|split].
  - intros p l. rewrite to_label_lists_lookup.
    destruct (_ !! p) as [s|]; [|done]. intros [= <-]. apply NoDup_elements.
  - intros Hmax. destruct Hk as [(_ & ? & _)|(Hk & _ & Hne & Hcov & Hits)]; [lia|].
    split; [|done]. unfold to_label_lists. rewrite dom_fmap_L.
    apply labels_after_dom; [|done]. unfold covers in *. by rewrite dom_fmap_L.
  - intros Hmax. destruct Hk as [(-> & _ & -> & ->)|(_ & ? & _)]; [|lia].
    split; [done|]. split; [done|]. intros p.
    rewrite to_label_lists_lookup. simpl. rewrite lookup_fmap.
    by destruct (initial_labels !! p).
Qed.

Lemma label_propagation_result_keys_witness :
  ∃ final,
    _label_propagation Examples.chain_graph Examples.chain_labels 10 float_0_01
    = Ok (final, 3%Z, true)
    ∧ dom final = dom Examples.chain_graph.
Proof.
  assert (∃ final,
            _label_propagation Examples.chain_graph Examples.chain_labels 10 float_0_01
            = Ok (final, 3%Z, true)) as [final Hrun].
  { eexists. vm_compute. reflexivity. }
  exists final. split; [exact Hrun|].
  destruct (label_propagation_result_keys _ _ _ _ _ _ _ Hrun) as (_ & Hkeys & _).
  apply Hkeys. lia.
Defined.

(** The labels of a state all come from the initial state. *)
Lemma labels_after_from_initial (graph : gmap string (list string))
    (init : gmap string (gset string)) (k : nat) :
  covers graph init →
  ∀ p s label,
    labels_after graph init k !! p = Some s → label ∈ s →
    ∃ q s0, init !! q = Some s0 ∧ label ∈ s0.
Proof.
  intros Hcov. induction k as [|k IH]; intros p s label Hp Hl; [by eauto|].
  simpl in Hp. rewrite sync_step_lookup in Hp by (by apply labels_after_covers).
  unfold step_label in Hp.
  destruct (graph !! p) as [nbrs|]; [|done]. simpl in Hp.
  destruct (labels_after graph init k !! p) as [cur|] eqn:Hcur; [|done].
  simpl in Hp. injection Hp as <-. unfold next_label_set in Hl.
  case_decide; [by eapply IH|].
  apply neighbor_union_elem in Hl as (n & ls & _ & Hn & Hl). by eapply IH.
Qed.

(** X4. Propagation never invents a label: every label of the result is
    a label of some protein in the initial labels. *)
Theorem labels_never_invented (graph initial_labels : gmap string (list string))
    (max_iterations : Z) (threshold : Qc)
    (final : gmap string (list string)) (iterations : Z) (converged : bool) :
  _label_propagation graph initial_labels max_iterations threshold
  = Ok (final, iterations, converged) →
  ∀ p l label,
    final !! p = Some l → label ∈ l →
    ∃ q seed, initial_labels !! q = Some seed ∧ label ∈ seed.
Proof.
  intros Hrun p l label Hp Hl.
  destruct (label_propagation_ok_trajectory _ _ _ _ _ _ _ Hrun) as (k & -> & Hk).
  rewrite to_label_lists_lookup in Hp.
  destruct (labels_after _ _ k !! p) as [s|] eqn:Hs; [|done].
  injection Hp as <-. apply elem_of_elements in Hl.
  assert (∃ q s0, (list_to_set <$> initial_labels : gmap string (gset string)) !! q = Some s0
                  ∧ label ∈ s0) as (q & s0 & Hq & Hl0).
  { destruct Hk as [(-> & _)|(_ & _ & _ & Hcov & _)]; [by eauto|].
    eapply labels_after_from_initial; [|done..].
    unfold covers in *. by rewrite dom_fmap_L. }
  rewrite lookup_fmap in Hq. destruct (initial_labels !! q) as [seed|] eqn:Hseed; [|done].
  injection Hq as <-. exists q, seed. split; [done|]. by apply elem_of_list_to_set in Hl0.
Qed.

Lemma labels_never_invented_witness :
  ∃ final,
    _label_propagation Examples.chain_graph Examples.chain_labels 10 float_0_01
    = Ok (final, 3%Z, true)
    ∧ ∀ p l label,
        final !! p = Some l → label ∈ l →
        ∃ q seed, Examples.chain_labels !! q = Some seed ∧ label ∈ seed.
Proof.
  assert (∃ final,
            _label_propagation Examples.chain_graph Examples.chain_labels 10 float_0_01
            = Ok (final, 3%Z, true)) as [final Hrun].
  { eexists. vm_compute. reflexivity. }
  exists final. split; [exact Hrun|].
  exact (labels_never_invented _ _ _ _ _ _ _ Hrun).
Defined.

Lemma labels_after_isolated (graph : gmap string (list string))
    (init : gmap string (gset string)) (k : nat) (p : string) :
  covers graph init → graph !! p = Some [] →
  labels_after graph init k !! p = init !! p.
Proof.
  intros Hcov Hp. induction k as [|k IH]; [done|]. simpl.
  rewrite sync_step_lookup by (by apply labels_after_covers).
  unfold step_label. rewrite Hp. simpl. rewrite IH.
  destruct (init !! p) as [cur|]; [|done]. simpl. unfold next_label_set.
  by rewrite neighbor_union_nil, decide_True.
Qed.

(** X5. A protein without neighbors ends with the labels it started
    with, however many iterations run. *)
Theorem isolated_protein_keeps_labels (graph initial_labels : gmap string (list string))
    (max_iterations : Z) (threshold : Qc)
    (final : gmap string (list string)) (iterations : Z) (converged : bool)
    (protein : string) (seed : list string) :
  _label_propagation graph initial_labels max_iterations threshold
  = Ok (final, iterations, converged) →
  graph !! protein = Some [] →
  initial_labels !! protein = Some seed →
  ∃ l, final !! protein = Some l ∧ NoDup l ∧ ∀ label, label ∈ l ↔ label ∈ seed.
Proof.
  intros Hrun Hp Hseed.
  destruct (label_propagation_ok_trajectory _ _ _ _ _ _ _ Hrun) as (k & -> & Hk).
  exists (elements (list_to_set seed : gset string)).
  split; [|split; [apply NoDup_elements|]].
  - rewrite to_label_lists_lookup.
    assert (labels_after graph (list_to_set <$> initial_labels) k !! protein
            = (list_to_set <$> initial_labels : gmap string (gset string)) !! protein) as ->.
    { destruct Hk as [(-> & _)|(_ & _ & _ & Hcov & _)]; [done|].
      apply labels_after_isolated; [|done]. unfold covers in *. by rewrite dom_fmap_L. }
    by rewrite lookup_fmap, Hseed.
  - intros label. by rewrite elem_of_elements, elem_of_list_to_set.
Qed.

Lemma isolated_protein_keeps_labels_witness :
  ∃ final l,
    _label_propagation (<["A" := []]> Examples.pair_graph) Examples.pair_labels 2 float_0_01
    = Ok (final, 2%Z, true)
    ∧ final !! "A" = Some l ∧ NoDup l ∧ ∀ label, label ∈ l ↔ label ∈ ["x"; "z"].
Proof.
  assert (∃ final,
            _label_propagation (<["A" := []]> Examples.pair_graph) Examples.pair_labels
              2 float_0_01 = Ok (final, 2%Z, true)) as [final Hrun].
  { eexists. vm_compute. reflexivity. }
  destruct (isolated_protein_keeps_labels _ _ _ _ _ _ _ "A" ["x"; "z"] Hrun)
    as (l & Hl & Hnd & Hiff); [reflexivity|reflexivity|].
  exists final, l. done.
Defined.

(** ** Convergence at the extremes *)

Lemma changed_count_zero (graph : gmap string (list string))
    (current_labels : gmap string (gset string)) :
  (∀ p, p ∈ dom graph → step_label graph current_labels p = current_labels !! p) →
  changed_count graph current_labels = 0.
Proof.
  intros Hsame. unfold changed_count.
  destruct (filter (changed graph current_labels) (keys graph)) as [|p rest] eqn:Hf; [done|].
  assert (p ∈ filter (changed graph current_labels) (keys graph)) as Hp
    by (rewrite Hf; left).
  apply list_elem_of_filter in Hp as [Hch Hp%elem_of_keys%elem_of_dom].
  unfold changed in Hch. by rewrite Hsame in Hch.
Qed.

Lemma changed_count_le (graph : gmap string (list string))
    (current_labels : gmap string (gset string)) :
  changed_count graph current_labels ≤ length (keys graph).
Proof. unfold changed_count. apply length_filter. Qed.

Lemma converges_at_first_iteration (graph initial_labels : gmap string (list string))
    (max_iterations : Z) (threshold : Qc) :
  graph ≠ ∅ → covers graph initial_labels → (1 ≤ max_iterations)%Z →
  (Qc_of_Z (Z.of_nat (changed_count graph (list_to_set <$> initial_labels)))
   / Qc_of_Z (Z.of_nat (length (keys graph))) < threshold)%Qc →
  _label_propagation graph initial_labels max_iterations threshold
  = Ok (to_label_lists (sync_step graph (list_to_set <$> initial_labels)), 1%Z, true).
Proof.
  intros Hne Hcov Hmax Hrate. unfold _label_propagation.
  destruct (Z.to_nat max_iterations) as [|n] eqn:Hn; [lia|].
  simpl. rewrite propagate_once_ok by (unfold covers in *; by rewrite dom_fmap_L).
  cbn [mbind result_bind]. unfold py_truediv.
  rewrite decide_False by (by apply keys_nonempty). cbn [mbind result_bind].
  by rewrite decide_True.
Qed.

(** X6. On a non-empty graph without any seed label, and with a
    positive threshold, the routine converges in its first iteration
    and leaves every protein without label. *)
Theorem unlabelled_graph_converges_at_once (graph initial_labels : gmap string (list string))
    (max_iterations : Z) (threshold : Qc) :
  graph ≠ ∅ →
  covers graph initial_labels →
  (∀ p seed, initial_labels !! p = Some seed → seed = []) →
  (1 ≤ max_iterations)%Z →
  (0 < threshold)%Qc →
  ∃ final,
    _label_propagation graph initial_labels max_iterations threshold
    = Ok (final, 1%Z, true)
    ∧ dom final = dom graph
    ∧ ∀ p l, final !! p = Some l → l = [].
Proof.
  intros Hne Hcov Hseeds Hmax Hthreshold.
  set (init := list_to_set <$> initial_labels : gmap string (gset string)).
  assert (covers graph init) as Hcov' by (unfold covers, init in *; by rewrite dom_fmap_L).
  assert (∀ p s, init !! p = Some s → s = ∅) as Hempty.
  { intros p s. unfold init. rewrite lookup_fmap.
    destruct (initial_labels !! p) as [seed|] eqn:Hp; [|done].
    intros [= <-]. by rewrite (Hseeds p seed Hp). }
  assert (∀ p, p ∈ dom graph → step_label graph init p = init !! p) as Hsame.
  { intros p [nbrs Hg]%elem_of_dom. unfold step_label. rewrite Hg. simpl.
    destruct (init !! p) as [cur|]; [|done]. simpl. unfold next_label_set.
    rewrite decide_True; [done|]. apply neighbor_union_empty. intros n ls _. apply Hempty. }
  exists (to_label_lists (sync_step graph init)). split; [|split].
  - apply converges_at_first_iteration; try done.
    fold init. rewrite changed_count_zero by done.
    rewrite (proj2 (quotient_eq_0 0 (length (keys graph)) (keys_nonempty graph Hne))) by done.
    done.
  - unfold to_label_lists. rewrite dom_fmap_L. by apply sync_step_dom.
  - intros p l. rewrite to_label_lists_lookup, sync_step_lookup by done.
    destruct (decide (p ∈ dom graph)) as [Hp|Hp].
    + rewrite Hsame by done. destruct (init !! p) as [s|] eqn:Hs; [|done].
      intros [= <-]. rewrite (Hempty p s Hs). apply elements_empty.
    + apply not_elem_of_dom in Hp. unfold step_label. by rewrite Hp.
Qed.

Lemma unlabelled_graph_converges_at_once_witness :
  ∃ final,
    _label_propagation Examples.pair_graph (<["A" := []]> (<["B" := []]> ∅)) 5 float_0_01
    = Ok (final, 1%Z, true)
    ∧ dom final = dom Examples.pair_graph
    ∧ ∀ p l, final !! p = Some l → l = [].
Proof.
  apply (unlabelled_graph_converges_at_once Examples.pair_graph
           (<["A" := []]> (<["B" := []]> ∅)) 5 float_0_01).
  - intros He. apply (f_equal (λ m : gmap string (list string), m !! "A")) in He.
    vm_compute in He. discriminate.
  - unfold covers. apply (bool_decide_unpack _). vm_compute. reflexivity.
  - intros p seed. destruct (decide (p = "A")) as [->|HA].
    { rewrite lookup_insert_eq. by intros [= <-]. }
    rewrite lookup_insert_ne by done. destruct (decide (p = "B")) as [->|HB].
    { rewrite lookup_insert_eq. by intros [= <-]. }
    rewrite lookup_insert_ne by done. by rewrite lookup_empty.
  - lia.
  - reflexivity.
Defined.

(** X7. On a non-empty graph whose proteins all have an initial entry:
    with a threshold of zero or less the convergence test never
    succeeds, so all [max_iterations] iterations run and [converged] is
    false, even when nothing changes; with a threshold above one it
    succeeds in the first iteration. *)
Theorem threshold_extremes (graph initial_labels : gmap string (list string))
    (max_iterations : Z) (threshold : Qc) :
  graph ≠ ∅ →
  covers graph initial_labels →
  (1 ≤ max_iterations)%Z →
  ((threshold ≤ 0)%Qc →
   ∃ final, _label_propagation graph initial_labels max_iterations threshold
            = Ok (final, max_iterations, false))
  ∧ ((1 < threshold)%Qc →
     ∃ final, _label_propagation graph initial_labels max_iterations threshold
              = Ok (final, 1%Z, true)).
Proof.
  intros Hne Hcov Hmax.
  set (init := list_to_set <$> initial_labels : gmap string (gset string)).
  assert (covers graph init) as Hcov' by (unfold covers, init in *; by rewrite dom_fmap_L).
  split.
  - intros Hthreshold.
    destruct (propagation_loop_spec graph init max_iterations threshold
                (Z.to_nat max_iterations) Hne Hcov' 0)
      as (final & k & conv & Hrun & Hspec); [intros j Hj; lia|].
    destruct conv.
    + exfalso. destruct Hspec as (k' & _ & Hk' & _ & (r & Hr & Hlt) & _).
      destruct k' as [|k']; [lia|]. rewrite rate_at_S in Hr by done.
      injection Hr as <-. eapply Qclt_not_le; [exact Hlt|].
      eapply Qcle_trans; [exact Hthreshold|].
      apply quotient_nonneg. by apply keys_nonempty.
    + destruct Hspec as (-> & _). by exists final.
  - intros Hthreshold. eexists. apply converges_at_first_iteration; try done.
    eapply Qcle_lt_trans; [|exact Hthreshold].
    apply quotient_le_1; [by apply keys_nonempty|apply changed_count_le].
Qed.

Lemma threshold_extremes_witness :
  (∃ final, _label_propagation Examples.chain_graph Examples.chain_labels 7 float_0_0
            = Ok (final, 7%Z, false))
  ∧ (∃ final, _label_propagation Examples.chain_graph Examples.chain_labels 7
                (Qc_of_Z 2) = Ok (final, 1%Z, true)).
Proof.
  assert (Examples.chain_graph ≠ ∅) as Hne.
  { intros He. apply (f_equal (λ m : gmap string (list string), m !! "A")) in He.
    vm_compute in He. discriminate. }
  assert (covers Examples.chain_graph Examples.chain_labels) as Hcov.
  { unfold covers. apply (bool_decide_unpack _). vm_compute. reflexivity. }
  split.
  - apply (threshold_extremes Examples.chain_graph Examples.chain_labels 7 float_0_0
             Hne Hcov); [lia|]. vm_compute. discriminate.
  - apply (threshold_extremes Examples.chain_graph Examples.chain_labels 7 (Qc_of_Z 2)
             Hne Hcov); [lia|]. reflexivity.
Defined.

(** ** Growth on an undirected graph *)

Lemma labels_after_S_lookup (graph : gmap string (list string))
    (init : gmap string (gset string)) (k : nat) (p : string) (nbrs : list string) :
  covers graph init → graph !! p = Some nbrs →
  ∃ cur,
    labels_after graph init k !! p = Some cur
    ∧ labels_after graph init (S k) !! p
      = Some (next_label_set (labels_after graph init k) nbrs cur).
Proof.
  intros Hcov Hg. pose proof (labels_after_covers graph init k Hcov) as Hcovk.
  destruct (covers_lookup graph _ p Hcovk) as [cur Hcur]; [eauto|].
  exists cur. split; [done|]. simpl. rewrite sync_step_lookup by done.
  unfold step_label. by rewrite Hg, Hcur.
Qed.

Section undirected.
Context (graph : gmap string (list string)) (init : gmap string (gset string)).
Context (Hcov : covers graph init).
Context (Hsym : ∀ p q nbrs, graph !! p = Some nbrs → q ∈ nbrs →
                  ∃ nbrs', graph !! q = Some nbrs' ∧ p ∈ nbrs').

Lemma grows_at_S (k : nat) : grows_at graph init k → grows_at graph init (S k).
Proof.
  intros Hgrow p l l' [nbrs Hg]%elem_of_dom Hl Hl'.
  destruct (labels_after_S_lookup graph init k p nbrs Hcov Hg) as (c & Hc & Hl1).
  destruct (labels_after_S_lookup graph init (S k) p nbrs Hcov Hg) as (l1 & Hl1' & Hl2).
  rewrite Hl in Hl1, Hl1'. rewrite Hl' in Hl2. simplify_eq.
  set (Lk := labels_after graph init k) in *.
  set (Lk1 := labels_after graph init (S k)) in *.
  assert (neighbor_union Lk nbrs ⊆ neighbor_union Lk1 nbrs) as Hmono.
  { intros label (n & ls & Hn & Hls & Hlabel)%neighbor_union_elem.
    destruct (Hsym p n nbrs Hg Hn) as (nbrs_n & Hgn & _).
    destruct (labels_after_S_lookup graph init k n nbrs_n Hcov Hgn) as (cn & Hcn & Hn1).
    apply neighbor_union_elem. eexists n, _. split; [done|]. split; [exact Hn1|].
    eapply (Hgrow n ls); [by apply elem_of_dom|done|exact Hn1|done]. }
  unfold next_label_set.
  destruct (decide (neighbor_union Lk1 nbrs = ∅)) as [Hu1|Hu1]; [done|].
  destruct (decide (neighbor_union Lk nbrs = ∅)) as [Hu|Hu]; [|done].
  intros label Hlabel.
  destruct nbrs as [|n nbrs'] eqn:Hnbrs; [by rewrite neighbor_union_nil in Hu1|].
  rewrite <- Hnbrs in *.
  assert (n ∈ nbrs) as Hn by (rewrite Hnbrs; left).
  destruct (Hsym p n nbrs Hg Hn) as (nbrs_n & Hgn & Hpn).
  destruct (labels_after_S_lookup graph init k n nbrs_n Hcov Hgn) as (cn & Hcn & Hn1).
  assert (label ∈ neighbor_union Lk nbrs_n) as Hin.
  { apply neighbor_union_elem. eauto. }
  apply neighbor_union_elem. eexists n, _. split; [done|]. split; [exact Hn1|].
  unfold next_label_set. rewrite decide_False; [done|]. set_solver.
Qed.

Lemma grows_at_all (k : nat) : grows_at graph init 0 → grows_at graph init k.
Proof. intros H0. induction k as [|k IH]; [done|]. by apply grows_at_S. Qed.

End undirected.

(** X8. On an undirected graph (every neighbor relation is recorded at
    both ends), if the first iteration removes no label from any
    protein, then no later iteration does: from then on label sets only
    grow. *)
Theorem growth_on_undirected_graph (graph : gmap string (list string))
    (init : gmap string (gset string)) :
  covers graph init →
  (∀ p q nbrs, graph !! p = Some nbrs → q ∈ nbrs →
     ∃ nbrs', graph !! q = Some nbrs' ∧ p ∈ nbrs') →
  (∀ s1 c1 p l0 l1,
     run_iterations graph init 1 = Ok (s1, c1) →
     p ∈ dom graph → init !! p = Some l0 → s1 !! p = Some l1 → l0 ⊆ l1) →
  ∀ k sk ck sk' ck' p l l',
    run_iterations graph init k = Ok (sk, ck) →
    run_iterations graph init (S k) = Ok (sk', ck') →
    p ∈ dom graph → sk !! p = Some l → sk' !! p = Some l' →
    l ⊆ l'.
Proof.
  intros Hcov Hsym Hfirst k sk ck sk' ck' p l l' Hk Hk' Hp Hl Hl'.
  rewrite run_iterations_ok in Hk, Hk' by done. simplify_eq.
  eapply (grows_at_all graph init Hcov Hsym k); [|done..].
  intros q l0 l1 Hq Hl0 Hl1.
  eapply (Hfirst _ _ q l0 l1); [by apply run_iterations_ok|done..].
Qed.

Lemma growth_on_undirected_graph_witness :
  ∃ sk ck sk' ck',
    run_iterations Examples.chain_graph Examples.chain_label_sets 1 = Ok (sk, ck)
    ∧ run_iterations Examples.chain_graph Examples.chain_label_sets 2 = Ok (sk', ck')
    ∧ sk !! "B" = Some {["1.1.1.1"; "2.2.2.2"]}
    ∧ sk' !! "B" = Some {["1.1.1.1"; "2.2.2.2"]}
    ∧ ({["1.1.1.1"; "2.2.2.2"]} : gset string) ⊆ {["1.1.1.1"; "2.2.2.2"]}.
Proof.
  assert (covers Examples.chain_graph Examples.chain_label_sets) as Hcov.
  {
    unfold covers. apply (bool_decide_unpack _). vm_compute. reflexivity. }
  assert (∀ p q nbrs, Examples.chain_graph !! p = Some nbrs → q ∈ nbrs →
            ∃ nbrs', Examples.chain_graph !! q = Some nbrs' ∧ p ∈ nbrs') as Hsym.
  {
    intros p q nbrs Hg Hq.
    destruct (decide (p = "A")) as [->|HA].
    { vm_compute in Hg. injection Hg as <-.
      apply list_elem_of_singleton in Hq as ->. exists ["A"; "C"]. split; [done|left]. }
    destruct (decide (p = "B")) as [->|HB].
    { vm_compute in Hg. injection Hg as <-.
      apply elem_of_cons in Hq as [->|Hq].
      - exists ["B"]. split; [done|left].
      - apply list_elem_of_singleton in Hq as ->. exists ["B"]. split; [done|left]. }
    destruct (decide (p = "C")) as [->|HC].
    { vm_compute in Hg. injection Hg as <-.
      apply list_elem_of_singleton in Hq as ->. exists ["A"; "C"].
      split; [done|right; left]. }
    unfold Examples.chain_graph in Hg.
    rewrite !lookup_insert_ne, lookup_empty in Hg by done. discriminate. }
  assert (∀ s1 c1 p l0 l1,
            run_iterations Examples.chain_graph Examples.chain_label_sets 1 = Ok (s1, c1) →
            p ∈ dom Examples.chain_graph →
            Examples.chain_label_sets !! p = Some l0 → s1 !! p = Some l1 → l0 ⊆ l1)
    as Hgrow.
  {
    intros s1 c1 p l0 l1 Hrun Hp Hl0 Hl1.
    assert (run_iterations Examples.chain_graph Examples.chain_label_sets 1
            = Ok (<["A" := {["1.1.1.1"]}]>
                    (<["B" := {["1.1.1.1"; "2.2.2.2"]}]> (<["C" := {["2.2.2.2"]}]> ∅)), 1))
      as Hfirst by (vm_compute; reflexivity).
    assert (Examples.chain_label_sets
            = <["A" := {["1.1.1.1"]}]> (<["B" := ∅]> (<["C" := {["2.2.2.2"]}]> ∅)))
      as Hinit by (vm_compute; reflexivity).
    rewrite Hfirst in Hrun. injection Hrun as <- <-. rewrite Hinit in Hl0.
    clear Hfirst Hinit.
    destruct (decide (p = "A")) as [->|HA].
    { rewrite lookup_insert_eq in Hl0, Hl1.
      injection Hl0 as <-. injection Hl1 as <-. set_solver. }
    rewrite lookup_insert_ne in Hl0, Hl1 by done.
    destruct (decide (p = "B")) as [->|HB].
    { rewrite lookup_insert_eq in Hl0, Hl1.
      injection Hl0 as <-. injection Hl1 as <-. set_solver. }
    rewrite lookup_insert_ne in Hl0, Hl1 by done.
    destruct (decide (p = "C")) as [->|HC].
    { rewrite lookup_insert_eq in Hl0, Hl1.
      injection Hl0 as <-. injection Hl1 as <-. set_solver. }
    rewrite lookup_insert_ne, lookup_empty in Hl0 by done. discriminate. }
  assert ("B" ∈ dom Examples.chain_graph) as Hdom.
  { apply (bool_decide_unpack _). vm_compute. reflexivity. }
  assert (∀ (a b c : gset string),
            (<["A" := a]> (<["B" := b]> (<["C" := c]> ∅)) : gmap string (gset string)) !! "B"
            = Some b) as Hlookup.
  { intros a b c. rewrite lookup_insert_ne by done. apply lookup_insert_eq. }
  assert (run_iterations Examples.chain_graph Examples.chain_label_sets 1
          = Ok (<["A" := {["1.1.1.1"]}]>
                  (<["B" := {["1.1.1.1"; "2.2.2.2"]}]> (<["C" := {["2.2.2.2"]}]> ∅)), 1))
    as Hone by (vm_compute; reflexivity).
  assert (run_iterations Examples.chain_graph Examples.chain_label_sets 2
          = Ok (<["A" := {["1.1.1.1"; "2.2.2.2"]}]>
                  (<["B" := {["1.1.1.1"; "2.2.2.2"]}]>
                     (<["C" := {["1.1.1.1"; "2.2.2.2"]}]> ∅)), 2))
    as Htwo by (vm_compute; reflexivity).
  eexists _, _, _, _. split; [exact Hone|]. split; [exact Htwo|].
  split; [exact (Hlookup _ _ _)|]. split; [exact (Hlookup _ _ _)|].
  exact (growth_on_undirected_graph Examples.chain_graph Examples.chain_label_sets
           Hcov Hsym Hgrow 1 _ _ _ _ "B" _ _ Hone Htwo Hdom
           (Hlookup _ _ _) (Hlookup _ _ _)).
Defined.

(** * Further properties of the services *)

Import WriteBack.

(** ** The calls on the two stores *)

Lemma update_protein_labels_unfold (protein_id : string) (labels : list string)
    (attribute : string) (w : World) :
  update_protein_labels protein_id labels attribute w
  = match driver w with
    | None => (Raise (Exception "Neo4j driver not initialized"), w)
    | Some nodes =>
        if decide (attribute = "ec" ∨ attribute = "go") then
          (Ok (bool_decide (protein_id ∈ node_protein_id <$> nodes)),
           mkWorld (Some (set_node_labels protein_id attribute labels <$> nodes)) (mongo w)
                   (trace w ++ [GraphSetLabels protein_id labels attribute]))
        else (Raise (ValueError "Attribute must be 'ec' or 'go'"), w)
    end.
Proof.
  unfold update_protein_labels, mbind, io_bind, io_get. simpl.
  destruct (driver w); [|done]. case_decide; done.
Qed.

Lemma get_protein_by_id_unfold (protein_id : string) (w : World) :
  get_protein_by_id protein_id w
  = match mongo w with
    | None => (Raise (Exception "MongoDB not connected"), w)
    | Some db => (Ok (proteins_collection db !! protein_id),
                  logged (MongoFindProtein protein_id) w)
    end.
Proof.
  unfold get_protein_by_id, mbind, io_bind, io_get. simpl. by destruct (mongo w).
Qed.

Lemma update_protein_annotations_unfold (protein_id : string)
    (annotations : list Annotation) (w : World) :
  update_protein_annotations protein_id annotations w
  = match mongo w with
    | None => (Raise (Exception "MongoDB not connected"), w)
    | Some db =>
        (Ok (bool_decide (is_Some (proteins_collection db !! protein_id))),
         mkWorld (driver w)
           (Some (mkMongoDb
                    (alter (λ _, mkMongoProtein (values_of_type EC annotations)
                                                (values_of_type GO annotations))
                           protein_id (proteins_collection db))
                    (filter (λ doc, doc.1 ≠ protein_id) (annotations_collection db)
                     ++ (pair protein_id <$> annotations))))
           (trace w ++ [MongoReplaceAnnotations protein_id annotations]))
    end.
Proof.
  unfold update_protein_annotations, mbind, io_bind, io_get. simpl. by destruct (mongo w).
Qed.

(** The row read for a node after its labels for one attribute were set. *)
Lemma row_of_set_node_labels (protein_id attribute attribute' : string)
    (labels : list string) (n : Node) :
  attribute = "ec" ∨ attribute = "go" →
  attribute' = "ec" ∨ attribute' = "go" →
  row_of_node (if decide (attribute' = "ec") then node_ec_numbers else node_go_terms)
              (set_node_labels protein_id attribute labels n)
  = let row := row_of_node (if decide (attribute' = "ec")
                            then node_ec_numbers else node_go_terms) n in
    if decide (LabelPropagation.protein_id row = protein_id ∧ attribute' = attribute)
    then mkRow (LabelPropagation.protein_id row) labels (neighbors row) None
    else row.
Proof.
  intros Ha Ha'. unfold set_node_labels, row_of_node. simpl.
  destruct (decide (node_protein_id n = protein_id)) as [Hid|Hid].
  - rewrite Hid.
    destruct (decide (attribute' = attribute)) as [->|Hne].
    + rewrite (decide_True (P := protein_id = protein_id ∧ attribute = attribute)) by done.
      destruct (decide (attribute = "ec")); [done|].
      by destruct Ha.
    + rewrite (decide_False (P := protein_id = protein_id ∧ attribute' = attribute))
        by naive_solver.
      destruct (decide (attribute = "ec")) as [->|], (decide (attribute' = "ec")) as [->|];
        try done.
      exfalso. naive_solver.
  - rewrite (decide_False (P := node_protein_id n = protein_id ∧ attribute' = attribute))
      by naive_solver.
    done.
Qed.

(** X9. On a connected graph store and for a supported attribute,
    setting the labels of a protein reports whether a node has that id,
    leaves the document store alone, and a later read of the snapshot
    returns the new labels for the nodes with that id under that
    attribute and the rows as they were for all others, and for the
    other attribute. *)
Theorem update_then_read_labels (protein_id attribute : string) (labels : list string)
    (w : World) (nodes : list Node) :
  driver w = Some nodes →
  attribute = "ec" ∨ attribute = "go" →
  ∃ w',
    update_protein_labels protein_id labels attribute w
    = (Ok (bool_decide (protein_id ∈ node_protein_id <$> nodes)), w')
    ∧ mongo w' = mongo w
    ∧ ∀ attribute' rows,
        (get_proteins_for_label_propagation attribute' w).1 = Ok rows →
        (get_proteins_for_label_propagation attribute' w').1
        = Ok ((λ row,
                 if decide (LabelPropagation.protein_id row = protein_id
                            ∧ attribute' = attribute)
                 then mkRow (LabelPropagation.protein_id row) labels (neighbors row) None
                 else row) <$> rows).
Proof.
  intros Hdrv Hattr. eexists. split.
  { rewrite update_protein_labels_unfold, Hdrv. by rewrite decide_True. }
  split; [done|]. intros attribute' rows Hread.
  destruct (get_proteins_for_label_propagation attribute' w) as [r w1] eqn:Hget.
  simpl in Hread. subst r. apply get_proteins_ok in Hget as (Ha' & _ & nodes' & Hn & ->).
  rewrite Hdrv in Hn. injection Hn as <-.
  rewrite get_proteins_unfold. simpl.
  assert (∀ f, row_of_node f <$> (set_node_labels protein_id attribute labels <$> nodes)
             = (λ n, row_of_node f (set_node_labels protein_id attribute labels n)) <$> nodes)
    as Hcomp by (intros f; by rewrite <- list_fmap_compose).
  assert ((if decide (attribute' = "ec")
           then (Ok (row_of_node node_ec_numbers
                     <$> (set_node_labels protein_id attribute labels <$> nodes)),
                 logged (GraphReadLabels attribute')
                   (mkWorld (Some (set_node_labels protein_id attribute labels <$> nodes))
                      (mongo w) (trace w ++ [GraphSetLabels protein_id labels attribute])))
           else if decide (attribute' = "go")
           then (Ok (row_of_node node_go_terms
                     <$> (set_node_labels protein_id attribute labels <$> nodes)),
                 logged (GraphReadLabels attribute')
                   (mkWorld (Some (set_node_labels protein_id attribute labels <$> nodes))
                      (mongo w) (trace w ++ [GraphSetLabels protein_id labels attribute])))
           else (Raise (ValueError "Attribute must be 'ec' or 'go'"),
                 mkWorld (Some (set_node_labels protein_id attribute labels <$> nodes))
                      (mongo w) (trace w ++ [GraphSetLabels protein_id labels attribute]))).1
          = Ok (row_of_node (if decide (attribute' = "ec")
                             then node_ec_numbers else node_go_terms)
                <$> (set_node_labels protein_id attribute labels <$> nodes))) as ->.
  { destruct Ha' as [-> | ->]; repeat case_decide; done. }
  f_equal. rewrite <- !list_fmap_compose. apply list_fmap_ext. intros i n _. simpl.
  by apply row_of_set_node_labels.
Qed.

Lemma update_then_read_labels_witness :
  ∃ w',
    update_protein_labels "C" ["3.3.3.3"] "ec" Examples.chain_world
    = (Ok (bool_decide ("C" ∈ node_protein_id <$> Examples.chain_nodes)), w')
    ∧ mongo w' = mongo Examples.chain_world
    ∧ ∀ attribute' rows,
        (get_proteins_for_label_propagation attribute' Examples.chain_world).1 = Ok rows →
        (get_proteins_for_label_propagation attribute' w').1
        = Ok ((λ row,
                 if decide (LabelPropagation.protein_id row = "C" ∧ attribute' = "ec")
                 then mkRow (LabelPropagation.protein_id row) ["3.3.3.3"]
                            (neighbors row) None
                 else row) <$> rows).
Proof.
  apply (update_then_read_labels "C" "ec" ["3.3.3.3"] Examples.chain_world
           Examples.chain_nodes).
  - reflexivity.
  - left. reflexivity.
Defined.

Lemma filter_pair_same {A} (p : string) (xs : list A) :
  filter (λ doc : string * A, doc.1 = p) (pair p <$> xs) = pair p <$> xs.
Proof.
  induction xs as [|x xs IH]; [done|].
  rewrite fmap_cons, filter_cons_True by done. by rewrite IH.
Qed.


Lemma filter_filter_other {A} (p q : string) (l : list (string * A)) :
  p ≠ q →
  filter (λ doc : string * A, doc.1 = q) (filter (λ doc : string * A, doc.1 ≠ p) l)
  = filter (λ doc : string * A, doc.1 = q) l.
Proof.
  intros Hpq. induction l as [|[k a] l IH]; [done|].
  destruct (decide (k = p)) as [->|Hk].
  - rewrite (filter_cons_False (λ doc : string * A, doc.1 ≠ p)) by (simpl; naive_solver).
    rewrite (filter_cons_False (λ doc : string * A, doc.1 = q)) by (simpl; naive_solver).
    done.
  - rewrite (filter_cons_True (λ doc : string * A, doc.1 ≠ p)) by done.
    destruct (decide (k = q)) as [->|Hq].
    + rewrite !(filter_cons_True (λ doc : string * A, doc.1 = q)) by done. by rewrite IH.
    + rewrite !(filter_cons_False (λ doc : string * A, doc.1 = q)) by done. done.
Qed.


Lemma filter_same_other {A} (p : string) (l : list (string * A)) :
  filter (λ doc : string * A, doc.1 = p) (filter (λ doc : string * A, doc.1 ≠ p) l) = [].
Proof.
  induction l as [|[k a] l IH]; [done|].
  destruct (decide (k = p)) as [->|Hk].
  - rewrite (filter_cons_False (λ doc : string * A, doc.1 ≠ p)) by (simpl; naive_solver).
    done.
  - rewrite (filter_cons_True (λ doc : string * A, doc.1 ≠ p)) by done.
    rewrite (filter_cons_False (λ doc : string * A, doc.1 = p)) by done. done.
Qed.



Lemma filter_other_pair {A} (p q : string) (xs : list A) :
  p ≠ q → filter (λ doc : string * A, doc.1 = q) (pair p <$> xs) = [].
Proof.
  intros Hpq. induction xs as [|x xs IH]; [done|].
  rewrite fmap_cons, filter_cons_False by (simpl; naive_solver). done.
Qed.

(** The annotations built for the labels of one protein. *)
Lemma new_annotations_spec (attribute : string) (labels : list string)
    (acc : list Annotation) :
  attribute = "ec" ∨ attribute = "go" →
  foldl (new_annotation attribute) acc labels
  = acc ++ ((λ label, mkAnnotation (if decide (attribute = "ec") then EC else GO) label
                                   (Some "label_propagation")) <$> labels).
Proof.
  intros Hattr. revert acc. induction labels as [|label labels IH]; intros acc.
  - by rewrite app_nil_r.
  - cbn [foldl]. rewrite IH, fmap_cons, cons_middle, app_assoc. f_equal.
    unfold new_annotation. destruct (decide (attribute = "ec")); [done|].
    destruct (decide (attribute = "go")); [done|]. naive_solver.
Qed.

Lemma values_of_type_new (t t' : AnnotationType) (ev : option string) (labels : list string) :
  values_of_type t ((λ label, mkAnnotation t' label ev) <$> labels)
  = if decide (t' = t) then labels else [].
Proof.
  unfold values_of_type. induction labels as [|label labels IH].
  - by destruct (decide (t' = t)).
  - rewrite fmap_cons. destruct (decide (t' = t)) as [->|Hne].
    + rewrite filter_cons_True by done. rewrite fmap_cons. by rewrite IH.
    + rewrite filter_cons_False by done. done.
Qed.

Lemma write_back_body (attribute protein_id : string) (labels : list string)
    (w : World) (nodes : list Node) (db : MongoDb) :
  attribute = "ec" ∨ attribute = "go" →
  driver w = Some nodes →
  mongo w = Some db →
  ∃ w',
    (_ ← update_protein_labels protein_id labels attribute ;
     protein ← get_protein_by_id protein_id ;
     match protein with
     | Some _ =>
         let new_annotations := foldl (new_annotation attribute) [] labels in
         _ ← update_protein_annotations protein_id new_annotations ;
         mret tt
     | None => mret tt
     end) w = (Ok tt, w')
    ∧ driver w' = Some (write_back_one attribute protein_id labels nodes db).1
    ∧ mongo w' = Some (write_back_one attribute protein_id labels nodes db).2.
Proof.
  intros Hattr Hdrv Hdb.
  rewrite io_bind_unfold, update_protein_labels_unfold, Hdrv, decide_True by done.
  rewrite io_bind_unfold, get_protein_by_id_unfold. simpl. rewrite Hdb.
  unfold write_back_one. simpl.
  destruct (proteins_collection db !! protein_id) as [doc|] eqn:Hdoc.
  - rewrite io_bind_unfold, update_protein_annotations_unfold. simpl.
    eexists. split; [done|]. simpl. split; [done|].
    rewrite new_annotations_spec by done. simpl. rewrite !values_of_type_new.
    do 3 f_equal. by destruct (decide (attribute = "ec")).
  - eexists. split; [done|]. done.
Qed.

Lemma write_back_loop (attribute : string) (items : list (string * list string))
    (w : World) (nodes : list Node) (db : MongoDb) :
  attribute = "ec" ∨ attribute = "go" →
  driver w = Some nodes →
  mongo w = Some db →
  ∃ w',
    io_for_each (λ '(protein_id, labels),
        _ ← update_protein_labels protein_id labels attribute ;
        protein ← get_protein_by_id protein_id ;
        match protein with
        | Some _ =>
            let new_annotations := foldl (new_annotation attribute) [] labels in
            _ ← update_protein_annotations protein_id new_annotations ;
            mret tt
        | None => mret tt
        end) items w = (Ok tt, w')
    ∧ driver w' = Some (write_back_all attribute items nodes db).1
    ∧ mongo w' = Some (write_back_all attribute items nodes db).2.
Proof.
  intros Hattr. revert w nodes db.
  induction items as [|[p l] items IH]; intros w nodes db Hdrv Hdb.
  - exists w. done.
  - destruct (write_back_body attribute p l w nodes db Hattr Hdrv Hdb)
      as (w1 & Hstep & Hdrv1 & Hdb1).
    destruct (IH w1 _ _ Hdrv1 Hdb1) as (w' & Hrest & Hdrv' & Hdb').
    exists w'. split; [|done].
    cbn [io_for_each]. rewrite io_bind_unfold. cbv beta iota zeta.
    cbv zeta in Hstep, Hrest. rewrite Hstep. exact Hrest.
Qed.

(** The stores after the write-back of proteins with distinct ids. *)
Lemma write_back_all_spec (attribute : string) (items : list (string * list string))
    (nodes : list Node) (db : MongoDb) :
  NoDup items.*1 →
  let final : gmap string (list string) := list_to_map items in
  let '(nodes', db') := write_back_all attribute items nodes db in
  nodes' = (λ n, match final !! node_protein_id n with
                 | Some labels => set_node_labels (node_protein_id n) attribute labels n
                 | None => n
                 end) <$> nodes
  ∧ (∀ p, proteins_collection db' !! p
          = (λ doc, match final !! p with
                    | Some labels =>
                        mkMongoProtein (if decide (attribute = "ec") then labels else [])
                                       (if decide (attribute = "ec") then [] else labels)
                    | None => doc
                    end) <$> proteins_collection db !! p)
  ∧ (∀ p, filter (λ doc, doc.1 = p) (annotations_collection db')
          = match final !! p, proteins_collection db !! p with
            | Some labels, Some _ =>
                (λ label, (p, mkAnnotation (if decide (attribute = "ec") then EC else GO)
                                           label (Some "label_propagation"))) <$> labels
            | _, _ => filter (λ doc, doc.1 = p) (annotations_collection db)
            end).
Proof.
  revert nodes db. induction items as [|[p l] items IH]; intros nodes db Hnd.
  - simpl. split; [|split].
    + rewrite <- (list_fmap_id nodes) at 1. apply list_fmap_ext. intros i n _.
      by rewrite lookup_empty.
    + intros q. rewrite lookup_empty. by destruct (proteins_collection db !! q).
    + intros q. by rewrite lookup_empty.
  - rewrite fmap_cons in Hnd. apply NoDup_cons in Hnd as [Hp Hnd]. simpl in Hp.
    assert ((list_to_map items : gmap string (list string)) !! p = None) as Hnone.
    { by apply not_elem_of_list_to_map_1. }
    pose proof (IH (write_back_one attribute p l nodes db).1
                   (write_back_one attribute p l nodes db).2 Hnd) as IH'.
    assert (write_back_all attribute ((p, l) :: items) nodes db
            = write_back_all attribute items (write_back_one attribute p l nodes db).1
                (write_back_one attribute p l nodes db).2) as -> by done.
    destruct (write_back_all attribute items _ _) as [nodes' db'].
    cbv beta iota zeta in IH' |- *.
    change (list_to_map ((p, l) :: items) : gmap string (list string))
      with (<[p := l]> (list_to_map items : gmap string (list string))).
    unfold write_back_one in IH'. cbn [fst snd] in IH'.
    destruct IH' as (Hnodes & Hdocs & Hanns). split; [|split].
    + rewrite Hnodes, <- list_fmap_compose. apply list_fmap_ext. intros i n _.
      cbn [compose].
      destruct (decide (node_protein_id n = p)) as [Hid|Hid].
      * rewrite Hid, lookup_insert_eq.
        assert (∀ n', node_protein_id n' = p →
                  match (list_to_map items : gmap string (list string))
                          !! node_protein_id n' with
                  | Some labels => set_node_labels (node_protein_id n') attribute labels n'
                  | None => n'
                  end = n') as Hkeep.
        { intros n' ->. by rewrite Hnone. }
        apply Hkeep. unfold set_node_labels. rewrite decide_True by done.
        by destruct (decide (attribute = "ec")).
      * rewrite lookup_insert_ne by done.
        assert (set_node_labels p attribute l n = n) as ->; [|done].
        unfold set_node_labels. by rewrite decide_False.
    + intros q. rewrite Hdocs.
      destruct (decide (p = q)) as [<-|Hq].
      * rewrite Hnone, lookup_insert_eq.
        destruct (proteins_collection db !! p) as [doc|] eqn:Hdoc.
        -- cbn [proteins_collection]. by rewrite lookup_alter_eq, Hdoc.
        -- by rewrite Hdoc.
      * rewrite lookup_insert_ne by done.
        destruct (proteins_collection db !! p) as [doc|] eqn:Hdoc.
        -- cbn [proteins_collection]. by rewrite lookup_alter_ne.
        -- done.
    + intros q. rewrite Hanns.
      destruct (decide (p = q)) as [<-|Hq].
      * rewrite Hnone, lookup_insert_eq.
        destruct (proteins_collection db !! p) as [doc|] eqn:Hdoc.
        -- cbn [annotations_collection].
           rewrite filter_app, filter_same_other, filter_pair_same.
           by rewrite <- list_fmap_compose.
        -- done.
      * rewrite lookup_insert_ne by done.
        destruct (proteins_collection db !! p) as [doc|] eqn:Hdoc.
        -- cbn [annotations_collection proteins_collection].
           rewrite lookup_alter_ne by done.
           rewrite filter_app, filter_filter_other, filter_other_pair, app_nil_r by done.
           done.
        -- done.
Qed.

(** X11. With both stores connected and a supported attribute, the
    write-back succeeds; in the graph store the nodes of the proteins of
    [final_labels] get their labels for that attribute and are otherwise
    unchanged; in the document store every such protein that has a
    document gets the labels as its list for that attribute and the
    empty list for the other attribute, and its annotations, of whatever
    type, are replaced by one annotation per label with evidence
    "label_propagation"; documents and annotations of other proteins stay. *)
Theorem write_back_replaces_labels (final_labels : gmap string (list string))
    (attribute : string) (w : World) (nodes : list Node) (db : MongoDb) :
  attribute = "ec" ∨ attribute = "go" →
  driver w = Some nodes →
  mongo w = Some db →
  ∃ w' nodes' db',
    _update_protein_labels final_labels attribute w = (Ok tt, w')
    ∧ driver w' = Some nodes'
    ∧ mongo w' = Some db'
    ∧ nodes' = (λ n, match final_labels !! node_protein_id n with
                     | Some labels => set_node_labels (node_protein_id n) attribute labels n
                     | None => n
                     end) <$> nodes
    ∧ (∀ p, proteins_collection db' !! p
            = (λ doc, match final_labels !! p with
                      | Some labels =>
                          mkMongoProtein (if decide (attribute = "ec") then labels else [])
                                         (if decide (attribute = "ec") then [] else labels)
                      | None => doc
                      end) <$> proteins_collection db !! p)
    ∧ (∀ p, filter (λ doc, doc.1 = p) (annotations_collection db')
            = match final_labels !! p, proteins_collection db !! p with
              | Some labels, Some _ =>
                  (λ label, (p, mkAnnotation (if decide (attribute = "ec") then EC else GO)
                                             label (Some "label_propagation"))) <$> labels
              | _, _ => filter (λ doc, doc.1 = p) (annotations_collection db)
              end).
Proof.
  intros Hattr Hdrv Hdb.
  destruct (write_back_loop attribute (map_to_list final_labels) w nodes db Hattr Hdrv Hdb)
    as (w' & Hrun & Hdrv' & Hdb').
  pose proof (write_back_all_spec attribute (map_to_list final_labels) nodes db
                (NoDup_fst_map_to_list final_labels)) as Hspec.
  cbv zeta in Hspec. rewrite list_to_map_to_list in Hspec.
  destruct (write_back_all attribute (map_to_list final_labels) nodes db)
    as [nodes' db'].
  exists w', nodes', db'. split; [exact Hrun|]. split; [exact Hdrv'|].
  split; [exact Hdb'|]. exact Hspec.
Qed.

Lemma write_back_replaces_labels_witness :
  ∃ w' nodes' db',
    _update_protein_labels (<["A" := ["9.9.9.9"]]> ∅) "ec" StoreExamples.annotated_world
    = (Ok tt, w')
    ∧ driver w' = Some nodes'
    ∧ mongo w' = Some db'
    ∧ proteins_collection db' !! "A" = Some (mkMongoProtein ["9.9.9.9"] [])
    ∧ filter (λ doc, doc.1 = "A") (annotations_collection db')
      = [("A", mkAnnotation EC "9.9.9.9" (Some "label_propagation"))].
Proof.
  destruct (write_back_replaces_labels (<["A" := ["9.9.9.9"]]> ∅) "ec"
              StoreExamples.annotated_world Examples.chain_nodes
              StoreExamples.annotated_db)
    as (w' & nodes' & db' & Hrun & Hdrv & Hdb & _ & Hdocs & Hanns).
  - left. reflexivity.
  - reflexivity.
  - reflexivity.
  - exists w', nodes', db'. split; [exact Hrun|]. split; [exact Hdrv|].
    split; [exact Hdb|]. split.
    + rewrite (Hdocs "A"). reflexivity.
    + rewrite (Hanns "A"). reflexivity.
Defined.

Lemma label_propagation_snapshot_dom (rows : list ProteinRow) (max_iterations : Z)
    (threshold : Qc) (final : gmap string (list string)) (iterations : Z)
    (converged : bool) :
  _label_propagation (_build_graph rows) (_extract_initial_labels rows)
    max_iterations threshold = Ok (final, iterations, converged) →
  dom final = list_to_set (LabelPropagation.protein_id <$> rows).
Proof.
  intros Hrun.
  destruct (label_propagation_ok_trajectory _ _ _ _ _ _ _ Hrun) as (k & -> & Hk).
  unfold to_label_lists. rewrite dom_fmap_L.
  destruct Hk as [(-> & _)|(Hk & _ & _ & Hcov & _)].
  - change (labels_after (_build_graph rows)
              (list_to_set <$> _extract_initial_labels rows) 0)
      with (list_to_set <$> _extract_initial_labels rows : gmap string (gset string)).
    by rewrite dom_fmap_L, extract_initial_labels_dom.
  - rewrite labels_after_dom; [apply build_graph_dom| |done].
    unfold covers in *. by rewrite dom_fmap_L.
Qed.

Lemma row_of_node_id (f : Node → option (list string)) (nodes : list Node) :
  LabelPropagation.protein_id <$> (row_of_node f <$> nodes) = node_protein_id <$> nodes.
Proof. rewrite <- list_fmap_compose. by apply list_fmap_ext. Qed.

(** The first part of [propagate_labels] on a connected graph store
    that holds a protein. *)
Lemma propagate_labels_reads (request : LabelPropagationRequest) (w : World)
    (nodes : list Node) :
  driver w = Some nodes →
  nodes ≠ [] →
  attribute request = "ec" ∨ attribute request = "go" →
  let rows := row_of_node (if decide (attribute request = "ec")
                           then node_ec_numbers else node_go_terms) <$> nodes in
  ∃ final iterations converged,
    _label_propagation (_build_graph rows) (_extract_initial_labels rows)
      (max_iterations request) (threshold request) = Ok (final, iterations, converged)
    ∧ dom final = list_to_set (node_protein_id <$> nodes)
    ∧ propagate_labels request w
      = match _update_protein_labels final (attribute request)
                (logged (GraphReadLabels (attribute request)) w) with
        | (Ok _, w') =>
            (Ok (mkResult iterations converged
                   (length (filter (λ p, p ≠ []) (map_to_list final).*2))
                   (_calculate_confidence_scores final (_extract_initial_labels rows))
                   final), w')
        | (Raise e, w') => (Raise e, w')
        end.
Proof.
  intros Hdrv Hne Hattr rows.
  assert (rows ≠ []) as Hrows.
  { unfold rows. destruct nodes; [done|]. done. }
  destruct (label_propagation_returns (_build_graph rows) (_extract_initial_labels rows)
              (max_iterations request) (threshold request))
    as (final & iterations & converged & Hrun).
  { by apply build_graph_nonempty. }
  { apply snapshot_covers. }
  exists final, iterations, converged. split; [exact Hrun|]. split.
  { rewrite (label_propagation_snapshot_dom _ _ _ _ _ _ Hrun). unfold rows.
    by rewrite row_of_node_id. }
  unfold propagate_labels. rewrite io_bind_unfold, get_proteins_unfold, Hdrv.
  assert ((if decide (attribute request = "ec")
           then (Ok (row_of_node node_ec_numbers <$> nodes),
                 logged (GraphReadLabels (attribute request)) w)
           else if decide (attribute request = "go")
                then (Ok (row_of_node node_go_terms <$> nodes),
                      logged (GraphReadLabels (attribute request)) w)
                else (Raise (ValueError "Attribute must be 'ec' or 'go'"), w))
          = (Ok rows, logged (GraphReadLabels (attribute request)) w)) as ->.
  { unfold rows. destruct (decide (attribute request = "ec")); [done|].
    destruct (decide (attribute request = "go")); [done|]. naive_solver. }
  rewrite decide_False by done.
  rewrite io_bind_unfold. unfold io_lift at 1. rewrite Hrun.
  rewrite io_bind_unfold.
  destruct (_update_protein_labels final (attribute request) _) as [[[]|e] w']; done.
Qed.

Lemma confidence_of_zero (initial_labels : gmap string (list string))
    (protein_id : string) (labels : list string) :
  confidence_of initial_labels protein_id labels = float_0_0 ↔ labels = [].
Proof.
  unfold confidence_of. destruct (decide (labels = [])) as [->|Hne]; [done|].
  split; [|done]. destruct (truthy _); intros Heq; exfalso; revert Heq; by vm_compute.
Qed.

Lemma annotated_count_confidence (final initial_labels : gmap string (list string))
    (items : list (string * list string)) :
  (∀ p l, (p, l) ∈ items → final !! p = Some l) →
  length (filter (λ l, l ≠ []) items.*2)
  = length (filter (λ p, _calculate_confidence_scores final initial_labels !! p
                         ≠ Some float_0_0) items.*1).
Proof.
  induction items as [|[p l] items IH]; intros Hitems; [done|].
  rewrite !fmap_cons. cbn [fst snd].
  assert (_calculate_confidence_scores final initial_labels !! p ≠ Some float_0_0
          ↔ l ≠ []) as Hiff.
  { rewrite calculate_confidence_scores_lookup, (Hitems p l) by set_solver.
    cbn [fmap option_fmap option_map]. rewrite <- (confidence_of_zero initial_labels p l).
    split; [congruence|]. intros Hne [= Heq]. done. }
  destruct (decide (l = [])) as [Hl|Hl].
  - rewrite (filter_cons_False (λ l, l ≠ [])) by naive_solver.
    rewrite (filter_cons_False (λ p, _ !! p ≠ Some float_0_0)) by naive_solver.
    apply IH. intros q l' Hin. apply Hitems. set_solver.
  - rewrite (filter_cons_True (λ l, l ≠ [])) by done.
    rewrite (filter_cons_True (λ p, _ !! p ≠ Some float_0_0)) by naive_solver.
    cbn [length]. f_equal. apply IH. intros q l' Hin. apply Hitems. set_solver.
Qed.

(** X13. With both stores connected, a supported attribute and a
    protein in the graph store, the operation succeeds whatever the
    iteration bound and the threshold; the result has a prediction and
    a confidence score for exactly the ids of the store;
    [annotated_proteins] is the number of proteins whose score is not
    0.0; and a later read of the snapshot returns, for every node, the
    predicted labels of its id, with its neighbors unchanged. *)
Theorem propagate_labels_stores_predictions (request : LabelPropagationRequest)
    (w : World) (nodes : list Node) (db : MongoDb) :
  driver w = Some nodes →
  nodes ≠ [] →
  mongo w = Some db →
  attribute request = "ec" ∨ attribute request = "go" →
  ∃ result w',
    propagate_labels request w = (Ok result, w')
    ∧ dom (predicted_labels result) = list_to_set (node_protein_id <$> nodes)
    ∧ dom (confidence_scores result) = dom (predicted_labels result)
    ∧ annotated_proteins result
      = length (filter (λ p, confidence_scores result !! p ≠ Some float_0_0)
                       (map_to_list (predicted_labels result)).*1)
    ∧ (get_proteins_for_label_propagation (attribute request) w').1
      = Ok ((λ n, mkRow (node_protein_id n)
                        (predicted_labels result !!! node_protein_id n)
                        (default [] (node_similar_to n)) None) <$> nodes).
Proof.
  intros Hdrv Hne Hdb Hattr.
  destruct (propagate_labels_reads request w nodes Hdrv Hne Hattr)
    as (final & iterations & converged & Hrun & Hdom & Hprop).
  destruct (write_back_loop (attribute request) (map_to_list final)
              (logged (GraphReadLabels (attribute request)) w) nodes db Hattr Hdrv Hdb)
    as (w' & Hwrite & Hdrv' & _).
  pose proof (write_back_all_spec (attribute request) (map_to_list final) nodes db
                (NoDup_fst_map_to_list final)) as Hspec.
  cbv zeta in Hspec. rewrite list_to_map_to_list in Hspec.
  destruct (write_back_all (attribute request) (map_to_list final) nodes db)
    as [nodes' db']. destruct Hspec as (Hnodes & _). cbn [fst] in Hdrv'.
  assert (_update_protein_labels final (attribute request)
            (logged (GraphReadLabels (attribute request)) w) = (Ok (), w')) as Hwrite'
    by exact Hwrite.
  clear Hwrite. rename Hwrite' into Hwrite.
  rewrite Hwrite in Hprop. eexists _, w'. split; [exact Hprop|].
  cbn [predicted_labels confidence_scores annotated_proteins].
  split; [exact Hdom|]. split.
  { apply set_eq. intros p. rewrite !elem_of_dom, calculate_confidence_scores_lookup.
    by rewrite fmap_is_Some. }
  split.
  { apply annotated_count_confidence. intros p l Hin.
    by apply elem_of_map_to_list. }
  rewrite get_proteins_unfold, Hdrv'.
  assert (row_of_node (if decide (attribute request = "ec")
                       then node_ec_numbers else node_go_terms) <$> nodes'
          = (λ n, mkRow (node_protein_id n) (final !!! node_protein_id n)
                        (default [] (node_similar_to n)) None) <$> nodes) as Hrows.
  { rewrite Hnodes, <- list_fmap_compose.
    apply list_fmap_ext. intros i n Hi. cbn [compose].
    assert (node_protein_id n ∈ dom final) as Hin.
    { rewrite Hdom, elem_of_list_to_set. apply list_elem_of_fmap_2.
      exact (list_elem_of_lookup_2 _ _ _ Hi). }
    apply elem_of_dom in Hin as [l Hl]. rewrite Hl.
    rewrite (lookup_total_correct _ _ _ Hl).
    unfold set_node_labels.
    rewrite (decide_True (P := node_protein_id n = node_protein_id n)) by done.
    by destruct (decide (attribute request = "ec")). }
  destruct (decide (attribute request = "ec")) as [Hec|Hec].
  - cbn [fst]. f_equal. exact Hrows.
  - destruct (decide (attribute request = "go")) as [Hgo|Hgo]; [|naive_solver].
    cbn [fst]. f_equal. exact Hrows.
Qed.

Lemma propagate_labels_stores_predictions_witness :
  ∃ result w',
    propagate_labels (mkRequest "ec" 100 float_0_01 float_0_01)
      StoreExamples.annotated_world = (Ok result, w')
    ∧ dom (predicted_labels result) = list_to_set (node_protein_id <$> Examples.chain_nodes)
    ∧ (get_proteins_for_label_propagation "ec" w').1
      = Ok ((λ n, mkRow (node_protein_id n)
                        (predicted_labels result !!! node_protein_id n)
                        (default [] (node_similar_to n)) None) <$> Examples.chain_nodes).
Proof.
  destruct (propagate_labels_stores_predictions
              (mkRequest "ec" 100 float_0_01 float_0_01)
              StoreExamples.annotated_world Examples.chain_nodes
              StoreExamples.annotated_db)
    as (result & w' & Hrun & Hdom & _ & _ & Hread).
  - reflexivity.
  - discriminate.
  - reflexivity.
  - left. reflexivity.
  - exists result, w'. split; [exact Hrun|]. split; [exact Hdom|exact Hread].
Defined.

(** The write-back stops at the first call on the disconnected document
    store. *)
Lemma propagate_labels_mongo_down (request : LabelPropagationRequest)
    (w : World) (nodes : list Node) :
  driver w = Some nodes →
  nodes ≠ [] →
  mongo w = None →
  attribute request = "ec" ∨ attribute request = "go" →
  ∃ p l,
    p ∈ node_protein_id <$> nodes
    ∧ propagate_labels request w
      = (Raise (Exception "MongoDB not connected"),
         mkWorld (Some (set_node_labels p (attribute request) l <$> nodes)) None
                 (trace w ++ [GraphReadLabels (attribute request);
                              GraphSetLabels p l (attribute request)])).
Proof.
  intros Hdrv Hne Hdb Hattr.
  destruct (propagate_labels_reads request w nodes Hdrv Hne Hattr)
    as (final & iterations & converged & Hrun & Hdom & Hprop).
  destruct (map_to_list final) as [|[p l] items] eqn:Hitems.
  { apply map_to_list_empty_iff in Hitems. subst final.
    rewrite dom_empty_L in Hdom. destruct nodes as [|n nodes]; [done|].
    exfalso. set_solver. }
  exists p, l. split.
  { apply (elem_of_list_to_set (C := gset string)). rewrite <- Hdom.
    apply elem_of_dom. exists l. apply elem_of_map_to_list. rewrite Hitems. left. }
  rewrite Hprop. unfold _update_protein_labels. rewrite Hitems.
  cbn [io_for_each]. rewrite io_bind_unfold. cbv beta iota zeta.
  rewrite io_bind_unfold, update_protein_labels_unfold.
  cbn [logged driver mongo trace]. rewrite Hdrv, decide_True by done.
  rewrite io_bind_unfold, get_protein_by_id_unfold. cbn [mongo]. rewrite Hdb.
  by rewrite <- app_assoc.
Qed.

(** With both stores connected the operation returns. *)
Lemma propagate_labels_connected (request : LabelPropagationRequest)
    (w : World) (nodes : list Node) (db : MongoDb) :
  driver w = Some nodes →
  nodes ≠ [] →
  mongo w = Some db →
  attribute request = "ec" ∨ attribute request = "go" →
  ∃ result w', propagate_labels request w = (Ok result, w').
Proof.
  intros Hdrv Hne Hdb Hattr.
  destruct (propagate_labels_reads request w nodes Hdrv Hne Hattr)
    as (final & iterations & converged & _ & _ & Hprop).
  destruct (write_back_loop (attribute request) (map_to_list final)
              (logged (GraphReadLabels (attribute request)) w) nodes db Hattr Hdrv Hdb)
    as (w' & Hwrite & _).
  assert (_update_protein_labels final (attribute request)
            (logged (GraphReadLabels (attribute request)) w) = (Ok (), w')) as Hwrite'
    by exact Hwrite.
  rewrite Hwrite' in Hprop. eauto.
Qed.

(** X12. With the graph store connected and holding a protein, a
    supported attribute and the document store disconnected, the
    operation fails with "MongoDB not connected" after the snapshot was
    read and the labels of one protein were written to the graph store:
    that write is not undone. *)
Theorem propagate_labels_without_mongo (request : LabelPropagationRequest)
    (w : World) (nodes : list Node) :
  driver w = Some nodes →
  nodes ≠ [] →
  mongo w = None →
  attribute request = "ec" ∨ attribute request = "go" →
  ∃ p l,
    p ∈ node_protein_id <$> nodes
    ∧ propagate_labels request w
      = (Raise (Exception "MongoDB not connected"),
         mkWorld (Some (set_node_labels p (attribute request) l <$> nodes)) None
                 (trace w ++ [GraphReadLabels (attribute request);
                              GraphSetLabels p l (attribute request)])).
Proof. apply propagate_labels_mongo_down. Qed.

Lemma propagate_labels_without_mongo_witness :
  ∃ p l,
    p ∈ node_protein_id <$> Examples.chain_nodes
    ∧ propagate_labels (mkRequest "ec" 100 float_0_01 float_0_01)
        StoreExamples.graph_only_world
      = (Raise (Exception "MongoDB not connected"),
         mkWorld (Some (set_node_labels p "ec" l <$> Examples.chain_nodes)) None
                 [GraphReadLabels "ec"; GraphSetLabels p l "ec"]).
Proof.
  apply (propagate_labels_without_mongo (mkRequest "ec" 100 float_0_01 float_0_01)
           StoreExamples.graph_only_world Examples.chain_nodes).
  - reflexivity.
  - discriminate.
  - reflexivity.
  - left. reflexivity.
Defined.

(** ** The quality evaluation, for any sampler *)

Lemma io_lift_bind_world {A B} (r : result A) (k : A → io B) (w : World) :
  (∀ a, (k a w).2 = w) → ((io_lift r ≫= k) w).2 = w.
Proof.
  intros Hk. rewrite io_bind_unfold. unfold io_lift. destruct r as [a|e]; [apply Hk|done].
Qed.

Lemma io_lift_bind_inv {A B} (r : result A) (k : A → io B) (w w' : World) (b : B) :
  (io_lift r ≫= k) w = (Ok b, w') → ∃ a, r = Ok a ∧ k a w = (Ok b, w').
Proof.
  rewrite io_bind_unfold. unfold io_lift. destruct r as [a|e]; [eauto|done].
Qed.

(** The evaluation leaves the world as the read of the snapshot left it. *)
Lemma evaluation_world (choose : nat → nat → list nat) (attribute : string) (w : World) :
  (evaluate_propagation_quality choose attribute w).2
  = (get_proteins_for_label_propagation attribute w).2.
Proof.
  unfold evaluate_propagation_quality. rewrite io_bind_unfold.
  destruct (get_proteins_for_label_propagation attribute w) as [[heap|e] w1]; [|done].
  cbn [snd]. case_decide; [done|].
  apply io_lift_bind_world. intros holdout.
  apply io_lift_bind_world. intros [[final_labels its] conv].
  apply io_lift_bind_world. intros [correct total].
  apply io_lift_bind_world. intros accuracy.
  apply io_lift_bind_world. intros coverage. done.
Qed.

(** X14. The quality evaluation writes to no store, whatever it
    returns or raises: it leaves the world as it was when the graph store
    is disconnected or the attribute unsupported, and otherwise with the
    one read of the snapshot added to the trace. *)
Theorem evaluation_is_read_only (choose : nat → nat → list nat) (attribute : string)
    (w : World) :
  (evaluate_propagation_quality choose attribute w).2
  = if decide (is_Some (driver w) ∧ (attribute = "ec" ∨ attribute = "go"))
    then logged (GraphReadLabels attribute) w
    else w.
Proof.
  rewrite evaluation_world, get_proteins_unfold. destruct (driver w) as [nodes|].
  - destruct (decide (attribute = "ec")) as [Hec|Hec].
    { rewrite decide_True; [done|]. split; [done|by left]. }
    destruct (decide (attribute = "go")) as [Hgo|Hgo].
    { rewrite decide_True; [done|]. split; [done|by right]. }
    rewrite decide_False; [done|]. naive_solver.
  - rewrite decide_False; [done|]. intros [[? [=]] _].
Qed.

Lemma score_loop_bounds (heap : list ProteinRow) (final_labels : gmap string (list string))
    (holdout : list nat) (c0 t0 c t : nat) :
  for_each (score_holdout heap final_labels) holdout (c0, t0) = Ok (c, t) →
  c0 ≤ c ∧ t0 ≤ t ∧ c - c0 ≤ t - t0 ∧ t - t0 ≤ length holdout.
Proof.
  revert c0 t0. induction holdout as [|p holdout IH]; intros c0 t0.
  - intros [= <- <-]. simpl. lia.
  - rewrite for_each_cons.
    destruct (score_holdout heap final_labels (c0, t0) p) as [[c1 t1]|e] eqn:Hstep;
      [|done].
    cbn [mbind result_bind]. intros Hrest%IH.
    assert (c0 ≤ c1 ∧ t0 ≤ t1 ∧ c1 - c0 ≤ t1 - t0 ∧ t1 - t0 ≤ 1) as Hone.
    { unfold score_holdout in Hstep.
      destruct (original_labels (heap !!! p)); [|done].
      cbn [mbind result_bind] in Hstep.
      repeat case_decide; injection Hstep as <- <-; lia. }
    cbn [length]. lia.
Qed.

(** X15. A report returned by the quality evaluation, for any
    sampler, has a holdout of at least one protein, counts with
    [correct ≤ total ≤ holdout_size], a coverage equal to
    [total / holdout_size] and an accuracy equal to [correct / total],
    both between 0 and 1, and accuracy 0 when nothing was predicted. *)
Theorem evaluation_report_bounds (choose : nat → nat → list nat) (attribute : string)
    (w w' : World) (holdout_size : nat) (accuracy coverage : Qc)
    (correct_predictions total_predictions : nat) :
  evaluate_propagation_quality choose attribute w
  = (Ok (EvaluationReport holdout_size accuracy coverage
           correct_predictions total_predictions), w') →
  1 ≤ holdout_size
  ∧ correct_predictions ≤ total_predictions ≤ holdout_size
  ∧ (coverage * Qc_of_Z (Z.of_nat holdout_size)
     = Qc_of_Z (Z.of_nat total_predictions))%Qc
  ∧ (accuracy * Qc_of_Z (Z.of_nat total_predictions)
     = Qc_of_Z (Z.of_nat correct_predictions))%Qc
  ∧ (0 ≤ accuracy ≤ 1)%Qc
  ∧ (0 ≤ coverage ≤ 1)%Qc
  ∧ (total_predictions = 0 → accuracy = float_0_0).
Proof.
  unfold evaluate_propagation_quality. rewrite io_bind_unfold.
  destruct (get_proteins_for_label_propagation attribute w) as [[heap|e] w1]; [|done].
  case_decide; [done|].
  intros (holdout & _ & Hrun)%io_lift_bind_inv.
  apply io_lift_bind_inv in Hrun as ([[final_labels its] conv] & _ & Hrun).
  apply io_lift_bind_inv in Hrun as ([correct total] & Hscore & Hrun).
  apply io_lift_bind_inv in Hrun as (acc & Hacc & Hrun).
  apply io_lift_bind_inv in Hrun as (cov & Hcov & Hrun).
  injection Hrun as <- <- <- <- <- <-.
  apply score_loop_bounds in Hscore as (_ & _ & Hct & Hth).
  unfold py_truediv in Hcov. case_decide as Hh; [done|]. injection Hcov as <-.
  assert (total ≤ length holdout) as Hth' by lia.
  assert (correct ≤ total) as Hct' by lia.
  split; [lia|]. split; [lia|]. split; [by apply quotient_mult|].
  destruct (decide (0 < total)) as [Hpos|Hzero].
  - unfold py_truediv in Hacc. rewrite decide_False in Hacc by lia.
    injection Hacc as <-.
    split; [apply quotient_mult; lia|].
    split; [split; [apply quotient_nonneg|apply quotient_le_1]; lia|].
    split; [split; [apply quotient_nonneg|apply quotient_le_1]; lia|].
    lia.
  - injection Hacc as <-. assert (total = 0) as -> by lia.
    assert (correct = 0) as -> by lia.
    unfold float_0_0. change (Z.of_nat 0) with 0%Z. rewrite Z2Qc_inj_0.
    split; [apply Qcmult_0_l|].
    split; [split; [apply Qcle_refl|by vm_compute]|].
    split; [|done].
    rewrite <- Z2Qc_inj_0. change 0%Z with (Z.of_nat 0).
    split; [apply quotient_nonneg|apply quotient_le_1]; lia.
Qed.

Lemma evaluation_report_bounds_witness :
  ∃ accuracy coverage,
    evaluate_propagation_quality Examples.first_positions "ec" Examples.chain_world
    = (Ok (EvaluationReport 1 accuracy coverage 1 1),
       logged (GraphReadLabels "ec") Examples.chain_world)
    ∧ (0 ≤ accuracy ≤ 1)%Qc
    ∧ (0 ≤ coverage ≤ 1)%Qc.
Proof.
  assert (∃ accuracy coverage,
            evaluate_propagation_quality Examples.first_positions "ec"
              Examples.chain_world
            = (Ok (EvaluationReport 1 accuracy coverage 1 1),
               logged (GraphReadLabels "ec") Examples.chain_world))
    as (accuracy & coverage & Hrun).
  { eexists _, _. vm_compute. reflexivity. }
  exists accuracy, coverage. split; [exact Hrun|].
  destruct (evaluation_report_bounds _ _ _ _ _ _ _ _ _ Hrun)
    as (_ & _ & _ & _ & Hacc & Hcov & _).
  split; [exact Hacc|exact Hcov].
Defined.

Lemma annotated_positions_nil (heap : list ProteinRow) :
  filter (λ p, labels (heap !!! p) ≠ []) (seq 0 (length heap)) = []
  ↔ ∀ row, row ∈ heap → labels row = [].
Proof.
  assert (filter (λ p, labels (heap !!! p) ≠ []) (seq 0 (length heap)) = []
          ↔ filter (λ row, labels row ≠ []) heap = []) as ->.
  { rewrite <- (filter_positions (λ row, labels row ≠ [])). split; [by intros ->|].
    apply fmap_nil_inv. }
  split.
  - intros Hnil row Hrow. destruct (decide (labels row = [])) as [|Hne]; [done|].
    assert (row ∈ filter (λ row, labels row ≠ []) heap) as Hin
      by (by apply list_elem_of_filter).
    rewrite Hnil in Hin. by apply elem_of_nil in Hin.
  - intros Hall. induction heap as [|row heap IH]; [done|].
    rewrite filter_cons_False.
    + apply IH. intros r Hr. apply Hall. by right.
    + intros Hne. apply Hne, Hall. left.
Qed.

(** X16. On a connected graph store and for a supported attribute,
    the quality evaluation returns the "no initially annotated
    proteins" error value, instead of a report or an exception, exactly
    when no node has a label for the attribute; this includes the empty
    store. *)
Theorem evaluation_without_seed_labels (choose : nat → nat → list nat)
    (attribute : string) (w : World) (nodes : list Node) :
  driver w = Some nodes →
  attribute = "ec" ∨ attribute = "go" →
  (evaluate_propagation_quality choose attribute w).1
  = Ok (EvaluationError "No initially annotated proteins found for evaluation")
  ↔ ∀ n, n ∈ nodes →
         default [] ((if decide (attribute = "ec")
                      then node_ec_numbers else node_go_terms) n) = [].
Proof.
  intros Hdrv Hattr.
  assert (get_proteins_for_label_propagation attribute w
          = (Ok (row_of_node (if decide (attribute = "ec")
                              then node_ec_numbers else node_go_terms) <$> nodes),
             logged (GraphReadLabels attribute) w)) as Hget.
  { rewrite get_proteins_unfold, Hdrv. destruct (decide (attribute = "ec")); [done|].
    destruct (decide (attribute = "go")); [done|]. naive_solver. }
  set (heap := row_of_node _ <$> nodes) in Hget.
  assert ((∀ row, row ∈ heap → labels row = [])
          ↔ ∀ n, n ∈ nodes →
                 default [] ((if decide (attribute = "ec")
                              then node_ec_numbers else node_go_terms) n) = []) as <-.
  { unfold heap. split.
    - intros Hall n Hn. apply (Hall (row_of_node _ n)). by apply list_elem_of_fmap_2.
    - intros Hall row (n & -> & Hn)%list_elem_of_fmap. by apply Hall. }
  rewrite <- annotated_positions_nil.
  unfold evaluate_propagation_quality. rewrite io_bind_unfold, Hget.
  case_decide as Hann; [done|]. split; [|done].
  intros Herr. exfalso.
  match type of Herr with (?m ?w').1 = _ => destruct (m w') as [r w''] eqn:Hrun end.
  cbn [fst] in Herr. subst r.
  apply io_lift_bind_inv in Hrun as (holdout & _ & Hrun).
  apply io_lift_bind_inv in Hrun as ([[final_labels its] conv] & _ & Hrun).
  apply io_lift_bind_inv in Hrun as ([correct total] & _ & Hrun).
  apply io_lift_bind_inv in Hrun as (acc & _ & Hrun).
  apply io_lift_bind_inv in Hrun as (cov & _ & Hrun).
  discriminate Hrun.
Qed.

Lemma evaluation_without_seed_labels_witness :
  (evaluate_propagation_quality Examples.first_positions "go" Examples.chain_world).1
  = Ok (EvaluationError "No initially annotated proteins found for evaluation")
  ↔ ∀ n, n ∈ Examples.chain_nodes →
         default [] ((if decide ("go" = "ec")
                      then node_ec_numbers else node_go_terms) n) = [].
Proof.
  apply (evaluation_without_seed_labels Examples.first_positions "go"
           Examples.chain_world Examples.chain_nodes).
  - reflexivity.
  - right. reflexivity.
Defined.

(** * Properties of the similarity queries *)

Import Queries.

(** ** The Jaccard similarity of two domain sets *)

Section jaccard_facts.
Local Open Scope Qc_scope.

Lemma size_inter_le_union (a b : gset string) : (size (a ∩ b) ≤ size (a ∪ b))%nat.
Proof. apply subseteq_size. set_solver. Qed.

Lemma size_union_nonzero_l (a b : gset string) : a ≠ ∅ → size (a ∪ b) ≠ 0%nat.
Proof. intros Ha Hs. apply size_empty_iff in Hs. set_solver. Qed.

Lemma float_0_0_zero : float_0_0 = 0.
Proof. unfold float_0_0. apply Z2Qc_inj_0. Qed.

Lemma float_1_0_one : float_1_0 = 1.
Proof. unfold float_1_0. apply Z2Qc_inj_1. Qed.

Lemma calculate_jaccard_similarity_ok (set1 set2 : gset string) :
  calculate_jaccard_similarity set1 set2 = Ok (similarity_of set1 set2).
Proof.
  unfold calculate_jaccard_similarity, similarity_of.
  destruct (decide (set1 = ∅ ∨ set2 = ∅)) as [|Hne]; [done|].
  rewrite decide_True by set_solver. unfold py_truediv.
  rewrite decide_False; [done|]. intros Hs%size_empty_iff. set_solver.
Qed.

Lemma similarity_of_comm (a b : gset string) : similarity_of a b = similarity_of b a.
Proof.
  unfold similarity_of. rewrite jaccard_comm.
  destruct (decide (a = ∅ ∨ b = ∅)).
  - by rewrite decide_True by tauto.
  - by rewrite decide_False by tauto.
Qed.

Lemma similarity_of_bounds (a b : gset string) : 0 ≤ similarity_of a b ≤ 1.
Proof.
  unfold similarity_of. destruct (decide (a = ∅ ∨ b = ∅)) as [|Hne].
  - rewrite float_0_0_zero. split; [apply Qcle_refl|by vm_compute].
  - assert (a ≠ ∅) as Ha by tauto. unfold jaccard.
    pose proof (size_union_nonzero_l a b Ha). pose proof (size_inter_le_union a b).
    split; [by apply quotient_nonneg|by apply quotient_le_1].
Qed.

Lemma similarity_of_zero (a b : gset string) : similarity_of a b = 0 ↔ a ∩ b = ∅.
Proof.
  unfold similarity_of. destruct (decide (a = ∅ ∨ b = ∅)) as [Hempty|Hne].
  - rewrite float_0_0_zero. split; [|done]. intros _. destruct Hempty as [-> | ->]; set_solver.
  - assert (a ≠ ∅) as Ha by tauto. unfold jaccard.
    rewrite quotient_eq_0 by (by apply size_union_nonzero_l).
    rewrite size_empty_iff. by unfold_leibniz.
Qed.

Lemma similarity_of_one (a b : gset string) : similarity_of a b = 1 ↔ a = b ∧ a ≠ ∅.
Proof.
  unfold similarity_of. destruct (decide (a = ∅ ∨ b = ∅)) as [Hempty|Hne].
  - rewrite float_0_0_zero. split; [intros Heq; exfalso; revert Heq; by vm_compute|].
    intros [-> Hne]. tauto.
  - assert (a ≠ ∅) as Ha by tauto. unfold jaccard.
    rewrite quotient_eq_1 by (by apply size_union_nonzero_l). split.
    + intros Hsize. split; [|done].
      assert (a ∩ b = a ∪ b) as Heq.
      { apply set_subseteq_size_eq; [set_solver|lia]. }
      set_solver.
    + intros [-> _]. f_equal. set_solver.
Qed.

(** X19. The Jaccard similarity of two sets is always returned, never
    an error; it does not depend on the order of the two sets, lies
    between 0 and 1, is 0 exactly when the sets have no common element
    (in particular when one is empty, and for two empty sets), and is 1
    exactly when the sets are equal and not empty. *)
Theorem calculate_jaccard_similarity_spec (set1 set2 : gset string) :
  ∃ s,
    calculate_jaccard_similarity set1 set2 = Ok s
    ∧ calculate_jaccard_similarity set2 set1 = Ok s
    ∧ 0 ≤ s ≤ 1
    ∧ (s = 0 ↔ set1 ∩ set2 = ∅)
    ∧ (s = 1 ↔ set1 = set2 ∧ set1 ≠ ∅).
Proof.
  exists (similarity_of set1 set2).
  split; [apply calculate_jaccard_similarity_ok|].
  split; [rewrite similarity_of_comm; apply calculate_jaccard_similarity_ok|].
  split; [apply similarity_of_bounds|].
  split; [apply similarity_of_zero|apply similarity_of_one].
Qed.

End jaccard_facts.

(** ** Sorting in descending order *)

Section sort_desc.
Context {A : Type} (lt : A → A → Prop) `{!RelDecision lt}.
Context (lt_asym : ∀ x y, lt x y → ¬ lt y x).
Context (not_lt_trans : ∀ x y z, ¬ lt x y → ¬ lt y z → ¬ lt x z).

Lemma insert_desc_Permutation (x : A) (l : list A) : insert_desc lt x l ≡ₚ x :: l.
Proof.
  induction l as [|y l IH]; [done|]. cbn [insert_desc].
  destruct (decide (lt x y)); [|done]. rewrite IH. apply Permutation_swap.
Qed.

Lemma sort_desc_Permutation (l : list A) : sort_desc lt l ≡ₚ l.
Proof.
  induction l as [|x l IH]; [done|]. unfold sort_desc in *. cbn [foldr].
  by rewrite insert_desc_Permutation, IH.
Qed.

Lemma insert_desc_sorted (x : A) (l : list A) :
  StronglySorted (λ a b, ¬ lt a b) l → StronglySorted (λ a b, ¬ lt a b) (insert_desc lt x l).
Proof.
  induction 1 as [|y l Hl IH Hy]; cbn [insert_desc].
  - by repeat constructor.
  - destruct (decide (lt x y)) as [Hxy|Hxy].
    + constructor; [done|]. rewrite insert_desc_Permutation.
      constructor; [by apply lt_asym|done].
    + constructor; [by constructor|]. constructor; [done|].
      eapply Forall_impl; [exact Hy|]. intros z Hyz. by eapply not_lt_trans.
Qed.

Lemma sort_desc_sorted (l : list A) : StronglySorted (λ a b, ¬ lt a b) (sort_desc lt l).
Proof.
  induction l as [|x l IH]; [constructor|]. unfold sort_desc in *. cbn [foldr].
  by apply insert_desc_sorted.
Qed.

End sort_desc.

Lemma StronglySorted_take {A} (R : relation A) (l : list A) (n : nat) :
  StronglySorted R l → StronglySorted R (take n l).
Proof.
  intros Hl. rewrite <- (take_drop n l) in Hl. by apply StronglySorted_app_1_l in Hl.
Qed.


(** ** The similarity queries *)

Lemma get_protein_by_id_connected (db : DocStore) (protein_id : string) :
  get_protein_by_id (Some db) protein_id
  = Ok (if decide (protein_id ∈ entry_protein_id <$> protein_docs db)
        then Some (protein_id, domain_ids_of db protein_id) else None).
Proof.
  unfold get_protein_by_id.
  destruct (list_find _ _) as [[i doc]|] eqn:Hfind.
  - apply list_find_Some in Hfind as (Hi & <- & _).
    rewrite decide_True; [done|].
    apply list_elem_of_fmap_2. by eapply list_elem_of_lookup_2.
  - apply list_find_None in Hfind. rewrite decide_False; [done|].
    intros (doc & -> & Hdoc)%list_elem_of_fmap.
    rewrite Forall_forall in Hfind. by apply (Hfind doc).
Qed.







Lemma StronglySorted_impl {A} (R R' : relation A) (l : list A) :
  (∀ x y, R x y → R' x y) → StronglySorted R l → StronglySorted R' l.
Proof.
  intros HR. induction 1 as [|x l Hl IH Hx]; constructor; [done|].
  eapply Forall_impl; [exact Hx|]. intros y. apply HR.
Qed.


Lemma foldl_insert_fun {V} (f : string → V) (l : list string) (acc : gmap string V)
    (k : string) :
  foldl (λ m p, <[p := f p]> m) acc l !! k
  = if decide (k ∈ l) then Some (f k) else acc !! k.
Proof.
  revert acc. induction l as [|p l IH]; intros acc.
  - by rewrite decide_False by apply not_elem_of_nil.
  - cbn [foldl]. rewrite IH. destruct (decide (k ∈ l)) as [Hin|Hnot].
    + rewrite decide_True; [done|by right].
    + destruct (decide (k = p)) as [->|Hne].
      * rewrite decide_True by left. apply lookup_insert_eq.
      * rewrite decide_False by (rewrite elem_of_cons; tauto).
        by rewrite lookup_insert_ne.
Qed.

Lemma similarity_of_self (a : gset string) :
  similarity_of a a = if decide (a = ∅) then float_0_0 else float_1_0.
Proof.
  destruct (decide (a = ∅)) as [->|Hne].
  - unfold similarity_of. by rewrite decide_True by tauto.
  - rewrite float_1_0_one. by apply similarity_of_one.
Qed.

Lemma collect_protein_ok (db : DocStore) (acc : list (string * list string))
    (p : string) :
  collect_protein (Some db) acc p
  = Ok (if decide (p ∈ entry_protein_id <$> protein_docs db)
        then acc ++ [(p, domain_ids_of db p)] else acc).
Proof.
  unfold collect_protein. rewrite get_protein_by_id_connected.
  cbn [mbind result_bind]. by case_decide.
Qed.

(** The proteins found by the first loop of the matrix. *)
Lemma collect_proteins_ok (db : DocStore) (protein_ids : list string)
    (acc : list (string * list string)) :
  for_each (collect_protein (Some db)) protein_ids acc
  = Ok (acc ++ ((λ p, (p, domain_ids_of db p))
                <$> filter (λ p, p ∈ entry_protein_id <$> protein_docs db) protein_ids)).
Proof.
  revert acc. induction protein_ids as [|p ids IH]; intros acc.
  - simpl. by rewrite app_nil_r.
  - rewrite for_each_cons, collect_protein_ok. cbn [mbind result_bind].
    destruct (decide (p ∈ entry_protein_id <$> protein_docs db)) as [Hin|Hnot].
    + rewrite IH, filter_cons_True, fmap_cons, <- app_assoc by done. done.
    + rewrite IH, filter_cons_False by done. done.
Qed.

Lemma fill_cell_ok (protein1 protein2 : string * list string)
    (similarity_matrix : gmap string (gmap string Qc)) (row : gmap string Qc) :
  similarity_matrix !! protein1.1 = Some row →
  fill_cell protein1 similarity_matrix protein2
  = Ok (<[protein1.1 := <[protein2.1 := similarity_of (list_to_set protein1.2)
                                                      (list_to_set protein2.2)]> row]>
          similarity_matrix).
Proof.
  intros Hrow. unfold fill_cell. rewrite calculate_jaccard_similarity_ok.
  cbn [mbind result_bind]. unfold py_getitem. by rewrite Hrow.
Qed.

(** One row of the matrix. *)
Lemma fill_row_ok (protein1 : string * list string)
    (proteins_data : list (string * list string))
    (similarity_matrix : gmap string (gmap string Qc)) (row : gmap string Qc) :
  similarity_matrix !! protein1.1 = Some row →
  for_each (fill_cell protein1) proteins_data similarity_matrix
  = Ok (<[protein1.1 :=
            foldl (λ row protein2,
                     <[protein2.1 := similarity_of (list_to_set protein1.2)
                                                   (list_to_set protein2.2)]> row)
                  row proteins_data]> similarity_matrix).
Proof.
  revert similarity_matrix row.
  induction proteins_data as [|protein2 rest IH]; intros m row Hrow.
  - simpl. by rewrite insert_id.
  - rewrite for_each_cons, (fill_cell_ok _ _ _ row) by done. cbn [mbind result_bind].
    rewrite (IH _ (<[protein2.1 := similarity_of (list_to_set protein1.2)
                                                 (list_to_set protein2.2)]> row))
      by apply lookup_insert_eq.
    by rewrite insert_insert_eq.
Qed.

Lemma fill_matrix_ok (proteins_data rows : list (string * list string))
    (similarity_matrix : gmap string (gmap string Qc)) :
  for_each (λ similarity_matrix protein1,
              for_each (fill_cell protein1) proteins_data
                       (<[protein1.1 := ∅]> similarity_matrix))
           rows similarity_matrix
  = Ok (foldl (λ m protein1,
                 <[protein1.1 :=
                     foldl (λ row protein2,
                              <[protein2.1 := similarity_of (list_to_set protein1.2)
                                                            (list_to_set protein2.2)]> row)
                           ∅ proteins_data]> m)
              similarity_matrix rows).
Proof.
  revert similarity_matrix. induction rows as [|protein1 rows IH]; intros m; [done|].
  rewrite for_each_cons.
  rewrite (fill_row_ok protein1 proteins_data _ ∅) by apply lookup_insert_eq.
  cbn [mbind result_bind foldl]. by rewrite IH, insert_insert_eq.
Qed.

(** X20. On a connected document store the similarity matrix is
    returned for any list of ids; it has a cell for exactly the pairs of
    requested ids that the store knows, ids unknown to the store being
    left out without error; the cell holds the Jaccard similarity of the
    stored domain sets, so the matrix is symmetric with entries between 0
    and 1; and the diagonal entry of a protein is 1.0 when it has a
    domain and 0.0 when it has none. *)
Theorem similarity_matrix_spec (db : DocStore) (protein_ids : list string) :
  ∃ similarity_matrix,
    get_protein_similarity_matrix (Some db) protein_ids = Ok similarity_matrix
    ∧ (∀ a b,
         similarity_matrix !! a ≫= (λ row, row !! b)
         = if decide ((a ∈ protein_ids ∧ a ∈ entry_protein_id <$> protein_docs db)
                      ∧ (b ∈ protein_ids ∧ b ∈ entry_protein_id <$> protein_docs db))
           then Some (similarity_of (stored_domains db a) (stored_domains db b))
           else None)
    ∧ (∀ a b, similarity_matrix !! a ≫= (λ row, row !! b)
              = similarity_matrix !! b ≫= (λ row, row !! a))
    ∧ (∀ a b s, similarity_matrix !! a ≫= (λ row, row !! b) = Some s → (0 ≤ s ≤ 1)%Qc)
    ∧ (∀ a row, similarity_matrix !! a = Some row →
                row !! a = Some (if decide (stored_domains db a = ∅)
                                 then float_0_0 else float_1_0)).
Proof.
  set (found := filter (λ p, p ∈ entry_protein_id <$> protein_docs db) protein_ids).
  set (row_of := λ a : string,
         foldl (λ (row : gmap string Qc) b,
                  <[b := similarity_of (stored_domains db a) (stored_domains db b)]> row)
               ∅ found).
  assert (get_protein_similarity_matrix (Some db) protein_ids
          = Ok (foldl (λ m a, <[a := row_of a]> m) ∅ found)) as Hrun.
  { unfold get_protein_similarity_matrix. rewrite collect_proteins_ok.
    cbn [mbind result_bind app]. fold found. rewrite fill_matrix_ok. f_equal.
    rewrite foldl_fmap. apply foldl_ext_eq. intros m a. cbn [fst snd]. f_equal.
    unfold row_of. rewrite foldl_fmap. done. }
  assert (∀ a, a ∈ found
               ↔ a ∈ protein_ids ∧ a ∈ entry_protein_id <$> protein_docs db) as Hfound.
  { intros a. unfold found. by rewrite list_elem_of_filter, (comm and). }
  assert (∀ a b,
            foldl (λ (m : gmap string (gmap string Qc)) a, <[a := row_of a]> m) ∅ found
              !! a ≫= (λ row, row !! b)
            = if decide (a ∈ found ∧ b ∈ found)
              then Some (similarity_of (stored_domains db a) (stored_domains db b))
              else None) as Hcell.
  { intros a b. rewrite (foldl_insert_fun row_of).
    destruct (decide (a ∈ found)) as [Ha|Ha].
    - cbn [mbind option_bind]. unfold row_of.
      rewrite (foldl_insert_fun (λ b, similarity_of (stored_domains db a)
                                                    (stored_domains db b))).
      destruct (decide (b ∈ found)) as [Hb|Hb].
      + by rewrite decide_True.
      + rewrite decide_False by tauto. apply lookup_empty.
    - rewrite lookup_empty, decide_False by tauto. done. }
  eexists. split; [exact Hrun|]. split; [|split; [|split]].
  - intros a b. rewrite Hcell. apply decide_ext. by rewrite !Hfound.
  - intros a b. rewrite !Hcell.
    destruct (decide (a ∈ found ∧ b ∈ found)) as [Hab|Hab].
    + rewrite decide_True by tauto. by rewrite similarity_of_comm.
    + by rewrite decide_False by tauto.
  - intros a b s. rewrite Hcell. case_decide; [|done]. intros [= <-].
    apply similarity_of_bounds.
  - intros a row Hrow.
    assert (a ∈ found) as Ha.
    { rewrite (foldl_insert_fun row_of) in Hrow.
      destruct (decide (a ∈ found)); [done|]. by rewrite lookup_empty in Hrow. }
    pose proof (Hcell a a) as Hdiag. rewrite Hrow in Hdiag.
    cbn [mbind option_bind] in Hdiag. rewrite Hdiag.
    rewrite decide_True by tauto. by rewrite similarity_of_self.
Qed.

(** ** The domain index and the threshold *)

(** X17. The domain index maps every domain that some protein has to
    the ids of the proteins that have it, in input order, one entry per
    protein even when the protein lists the domain more than once; it has
    no entry for any other domain, hence no empty bucket. *)
Theorem build_domain_index_buckets (proteins_data : list ProteinDoc) :
  (∀ d, _build_domain_index proteins_data !! d
        = if decide (bucket d proteins_data = []) then None
          else Some (bucket d proteins_data))
  ∧ (∀ d, d ∈ dom (_build_domain_index proteins_data)
          ↔ ∃ protein, protein ∈ proteins_data ∧ d ∈ domains protein).
Proof.
  assert (∀ d, _build_domain_index proteins_data !! d
               = if decide (bucket d proteins_data = []) then None
                 else Some (bucket d proteins_data)) as Hlookup.
  { intros d. destruct (_build_domain_index proteins_data !! d) as [l|] eqn:Hl.
    - apply build_domain_index_lookup in Hl as [-> Hne]. by rewrite decide_False.
    - destruct (decide (bucket d proteins_data = [])) as [|Hne]; [done|].
      assert (_build_domain_index proteins_data !! d = Some (bucket d proteins_data))
        as Hsome by (by apply build_domain_index_lookup).
      congruence. }
  split; [exact Hlookup|].
  intros d. rewrite elem_of_dom, Hlookup. unfold bucket.
  destruct (decide (_ = [])) as [Hnil|Hne].
  - split; [by intros [? [=]]|]. intros (protein & Hin & Hd). exfalso.
    apply fmap_nil_inv in Hnil.
    assert (protein ∈ filter (λ protein, d ∈ domain_set protein) proteins_data) as Hf.
    { apply list_elem_of_filter. split; [|done]. unfold domain_set.
      by apply elem_of_list_to_set. }
    rewrite Hnil in Hf. by apply elem_of_nil in Hf.
  - split; [intros _|by eauto].
    destruct (filter _ proteins_data) as [|protein rest] eqn:Hf; [done|].
    assert (protein ∈ filter (λ protein, d ∈ domain_set protein) proteins_data) as Hin
      by (rewrite Hf; left).
    apply list_elem_of_filter in Hin as [Hd Hin]. exists protein. split; [done|].
    unfold domain_set in Hd. by apply elem_of_list_to_set in Hd.
Qed.




(** * Properties of the label statistics *)

Import Statistics.

Lemma counter_add_keys (counts : list (string * nat)) (x : string) :
  (counter_add counts x).*1 = if decide (x ∈ counts.*1) then counts.*1 else counts.*1 ++ [x].
Proof.
  unfold counter_add. case_decide.
  - rewrite <- list_fmap_compose. apply list_fmap_ext. intros i [k c] _. simpl.
    by case_decide.
  - by rewrite fmap_app.
Qed.

Lemma occurrences_snoc (label x : string) (xs : list string) :
  occurrences label (xs ++ [x])
  = occurrences label xs + (if decide (x = label) then 1 else 0).
Proof.
  unfold occurrences. rewrite filter_app, length_app. f_equal.
  destruct (decide (x = label)).
  - by rewrite filter_cons_True.
  - by rewrite filter_cons_False.
Qed.

Lemma occurrences_zero (label : string) (xs : list string) :
  label ∉ xs → occurrences label xs = 0.
Proof.
  intros Hnot. unfold occurrences. induction xs as [|x xs IH]; [done|].
  rewrite filter_cons_False; [apply IH|]; set_solver.
Qed.

Lemma occurrences_pos (label : string) (xs : list string) :
  label ∈ xs → 0 < occurrences label xs.
Proof.
  intros Hin. unfold occurrences. induction xs as [|x xs IH]; [by apply elem_of_nil in Hin|].
  destruct (decide (x = label)) as [->|Hne].
  - rewrite filter_cons_True by done. simpl. lia.
  - rewrite filter_cons_False by done. apply IH. set_solver.
Qed.

(** What a counter holds. *)
Lemma Counter_spec (xs : list string) :
  NoDup (Counter xs).*1
  ∧ (∀ k, k ∈ (Counter xs).*1 ↔ k ∈ xs)
  ∧ (∀ k c, (k, c) ∈ Counter xs → c = occurrences k xs).
Proof.
  unfold Counter. induction xs as [|x xs IH] using rev_ind.
  - split; [constructor|]. split; [done|]. by intros k c ?%elem_of_nil.
  - rewrite foldl_app. cbn [foldl]. destruct IH as (Hnd & Hkeys & Hcount).
    set (counts := foldl counter_add [] xs) in *.
    split; [|split].
    + rewrite counter_add_keys. case_decide as Hx; [done|].
      apply NoDup_app. split; [done|]. split; [|apply NoDup_singleton].
      intros k Hk ->%list_elem_of_singleton. done.
    + intros k. rewrite counter_add_keys, elem_of_app, list_elem_of_singleton.
      case_decide as Hx.
      * rewrite Hkeys. split; [tauto|]. intros [?| ->]; [done|]. by apply Hkeys.
      * rewrite elem_of_app, list_elem_of_singleton, Hkeys. done.
    + intros k c. rewrite occurrences_snoc. unfold counter_add.
      case_decide as Hx.
      * intros ([k0 c0] & Heq & Hin)%list_elem_of_fmap. simpl in Heq.
        apply Hcount in Hin. case_decide as Hk0; injection Heq as -> ->.
        -- subst k0. rewrite decide_True by done. lia.
        -- rewrite decide_False by done. lia.
      * intros [Hin|Hnew%list_elem_of_singleton]%elem_of_app.
        -- rewrite (Hcount _ _ Hin). rewrite decide_False; [lia|].
           intros ->. apply Hx. apply list_elem_of_fmap. by exists (k, c).
        -- injection Hnew as -> ->. rewrite decide_True by done.
           rewrite occurrences_zero; [done|]. by rewrite <- Hkeys.
Qed.

Lemma all_labels_concat (proteins_data : list ProteinRow) (acc : list string) :
  foldl (λ all_labels protein, all_labels ++ labels protein) acc proteins_data
  = acc ++ (proteins_data ≫= labels).
Proof.
  revert acc. induction proteins_data as [|p ps IH]; intros acc.
  - simpl. by rewrite app_nil_r.
  - cbn [foldl]. rewrite IH. rewrite bind_cons, app_assoc. done.
Qed.

Lemma annotated_le_labels (proteins_data : list ProteinRow) :
  length (filter (λ p, labels p ≠ []) proteins_data) ≤ length (proteins_data ≫= labels).
Proof.
  induction proteins_data as [|p ps IH]; [done|].
  rewrite bind_cons, length_app. destruct (decide (labels p = [])) as [Hl|Hl].
  - rewrite filter_cons_False by tauto. lia.
  - rewrite filter_cons_True by done. cbn [length].
    destruct (labels p); [done|]. cbn [length]. lia.
Qed.

Lemma annotated_zero_labels (proteins_data : list ProteinRow) :
  length (filter (λ p, labels p ≠ []) proteins_data) = 0 → proteins_data ≫= labels = [].
Proof.
  induction proteins_data as [|p ps IH]; [done|].
  rewrite bind_cons. destruct (decide (labels p = [])) as [Hl|Hl].
  - rewrite filter_cons_False by tauto. rewrite Hl. apply IH.
  - rewrite filter_cons_True by done. done.
Qed.

Lemma quotient_ge_1 (a b : nat) :
  b ≠ 0 → b ≤ a → (1 ≤ Qc_of_Z (Z.of_nat a) / Qc_of_Z (Z.of_nat b))%Qc.
Proof.
  intros Hb Hab.
  apply (Qcmult_le_mono_pos_r _ _ (Qc_of_Z (Z.of_nat b))); [by apply Qc_of_nat_pos|].
  rewrite quotient_mult, Qcmult_1_l by done.
  apply (proj1 (Z2Qc_inj_le (Z.of_nat b) (Z.of_nat a))). lia.
Qed.

Lemma lower_count_asym (x y : string * nat) : lower_count x y → ¬ lower_count y x.
Proof. unfold lower_count. lia. Qed.

Lemma not_lower_count_trans (x y z : string * nat) :
  ¬ lower_count x y → ¬ lower_count y z → ¬ lower_count x z.
Proof. unfold lower_count. lia. Qed.

Lemma py_truediv_ok (a b : nat) :
  b ≠ 0 → py_truediv a b = Ok (Qc_of_Z (Z.of_nat a) / Qc_of_Z (Z.of_nat b))%Qc.
Proof. intros Hb. unfold py_truediv. by rewrite decide_False. Qed.

(** The value of the statistics on a connected graph store. *)
Lemma get_propagation_statistics_ok (attribute : string) (w : World) (nodes : list Node) :
  driver w = Some nodes →
  attribute = "ec" ∨ attribute = "go" →
  let rows := row_of_node (if decide (attribute = "ec")
                           then node_ec_numbers else node_go_terms) <$> nodes in
  let annotated := length (filter (λ p, labels p ≠ []) rows) in
  let all_labels := rows ≫= labels in
  get_propagation_statistics attribute w
  = (Ok (mkStatistics attribute (length rows) annotated
           (Z.of_nat (length rows) - Z.of_nat annotated)%Z
           (if decide (0 < length rows)
            then (Qc_of_Z (Z.of_nat annotated) / Qc_of_Z (Z.of_nat (length rows)))%Qc
            else float_0_0)
           (length (Counter all_labels))
           (take 10 (Queries.sort_desc lower_count (Counter all_labels)))
           (if decide (0 < annotated)
            then (Qc_of_Z (Z.of_nat (length all_labels)) / Qc_of_Z (Z.of_nat annotated))%Qc
            else float_0_0)),
     logged (GraphReadLabels attribute) w).
Proof.
  intros Hdrv Hattr rows annotated all_labels.
  assert (get_proteins_for_label_propagation attribute w
          = (Ok rows, logged (GraphReadLabels attribute) w)) as Hget.
  { rewrite get_proteins_unfold, Hdrv. unfold rows.
    destruct (decide (attribute = "ec")); [done|].
    destruct (decide (attribute = "go")); [done|]. naive_solver. }
  assert (annotated ≤ length rows) as Hann by apply length_filter.
  unfold get_propagation_statistics. rewrite io_bind_unfold, Hget.
  rewrite all_labels_concat. cbn [app]. fold all_labels. fold annotated.
  unfold most_common.
  destruct (decide (0 < annotated)) as [Hpos|Hzero].
  - rewrite (py_truediv_ok (length all_labels) annotated) by lia.
    rewrite io_bind_unfold. unfold io_lift at 1.
    destruct (decide (0 < length rows)) as [Hrows|Hrows]; [|lia].
    rewrite (py_truediv_ok annotated (length rows)) by lia.
    rewrite io_bind_unfold. unfold io_lift at 1. reflexivity.
  - rewrite io_bind_unfold. unfold io_lift at 1.
    destruct (decide (0 < length rows)) as [Hrows|Hrows].
    + rewrite (py_truediv_ok annotated (length rows)) by lia.
      rewrite io_bind_unfold. unfold io_lift at 1. reflexivity.
    + rewrite io_bind_unfold. unfold io_lift at 1. reflexivity.
Qed.

(** X22. On a connected graph store and for a supported attribute,
    the statistics are returned after the one read of the snapshot and
    nothing is written.  The annotated and the unannotated proteins add
    up to the total; the annotation rate is [annotated / total], between
    0 and 1, and 0 on an empty store; the average is the number of
    labels divided by the number of annotated proteins, at least 1 when
    a protein is annotated and 0 otherwise; [unique_labels] is the number
    of distinct labels; the most common labels are the ten such labels,
    or all if there are fewer, each once with its positive number of
    occurrences, in descending order of that number, and no label left
    out occurs more often than one listed. *)
Theorem propagation_statistics_spec (attribute : string) (w : World) (nodes : list Node) :
  driver w = Some nodes →
  attribute = "ec" ∨ attribute = "go" →
  let all_labels :=
    nodes ≫= (λ n, default [] ((if decide (attribute = "ec")
                                 then node_ec_numbers else node_go_terms) n)) in
  ∃ stats,
    get_propagation_statistics attribute w
    = (Ok stats, logged (GraphReadLabels attribute) w)
    ∧ stats_total_proteins stats = length nodes
    ∧ (0 ≤ stats_unannotated_proteins stats)%Z
    ∧ (Z.of_nat (stats_annotated_proteins stats) + stats_unannotated_proteins stats
       = Z.of_nat (stats_total_proteins stats))%Z
    ∧ (stats_annotation_rate stats * Qc_of_Z (Z.of_nat (stats_total_proteins stats))
       = Qc_of_Z (Z.of_nat (stats_annotated_proteins stats)))%Qc
    ∧ (0 ≤ stats_annotation_rate stats ≤ 1)%Qc
    ∧ (stats_average_labels_per_protein stats
       * Qc_of_Z (Z.of_nat (stats_annotated_proteins stats))
       = Qc_of_Z (Z.of_nat (length all_labels)))%Qc
    ∧ (0 < stats_annotated_proteins stats →
       (1 ≤ stats_average_labels_per_protein stats)%Qc)
    ∧ (stats_annotated_proteins stats = 0 →
       stats_average_labels_per_protein stats = float_0_0
       ∧ stats_most_common_labels stats = [])
    ∧ stats_unique_labels stats = size (list_to_set all_labels : gset string)
    ∧ length (stats_most_common_labels stats) = stats_unique_labels stats `min` 10
    ∧ NoDup (stats_most_common_labels stats).*1
    ∧ StronglySorted (λ x y, y.2 ≤ x.2) (stats_most_common_labels stats)
    ∧ (∀ label count,
         (label, count) ∈ stats_most_common_labels stats →
         0 < count ∧ count = occurrences label all_labels)
    ∧ (∀ label,
         label ∈ all_labels →
         label ∈ (stats_most_common_labels stats).*1
         ∨ (length (stats_most_common_labels stats) = 10
            ∧ ∀ item, item ∈ stats_most_common_labels stats →
                      occurrences label all_labels ≤ item.2)).
Proof.
  intros Hdrv Hattr all_labels.
  set (f := if decide (attribute = "ec") then node_ec_numbers else node_go_terms) in *.
  set (rows := row_of_node f <$> nodes).
  assert (rows ≫= labels = all_labels) as Hall.
  { unfold rows, all_labels. clear. induction nodes as [|n nodes IH]; [done|].
    rewrite fmap_cons, !bind_cons, IH. done. }
  set (annotated := length (filter (λ p, labels p ≠ []) rows)).
  assert (annotated ≤ length rows) as Hann by apply length_filter.
  assert (annotated ≤ length all_labels) as Hlab.
  { rewrite <- Hall. apply annotated_le_labels. }
  destruct (Counter_spec all_labels) as (Hnd & Hkeys & Hcount).
  set (counts := Counter all_labels) in *.
  set (ranked := Queries.sort_desc lower_count counts).
  assert (ranked ≡ₚ counts) as Hperm by apply sort_desc_Permutation.
  assert (StronglySorted (λ a b, ¬ lower_count a b) ranked) as Hsorted.
  { apply sort_desc_sorted; [apply lower_count_asym|apply not_lower_count_trans]. }
  set (rate := if decide (0 < length rows)
              then (Qc_of_Z (Z.of_nat annotated) / Qc_of_Z (Z.of_nat (length rows)))%Qc
              else float_0_0).
  set (average := if decide (0 < annotated)
                 then (Qc_of_Z (Z.of_nat (length all_labels))
                       / Qc_of_Z (Z.of_nat annotated))%Qc
                 else float_0_0).
  exists (mkStatistics attribute (length rows) annotated
            (Z.of_nat (length rows) - Z.of_nat annotated)%Z rate (length counts)
            (take 10 ranked) average).
  split.
  { rewrite (get_propagation_statistics_ok attribute w nodes Hdrv Hattr).
    fold f. fold rows. rewrite Hall. done. }
  cbn [stats_total_proteins stats_annotated_proteins stats_unannotated_proteins
       stats_annotation_rate stats_unique_labels stats_most_common_labels
       stats_average_labels_per_protein].
  assert (Qc_of_Z (Z.of_nat 0) = 0%Qc) as Hzero by apply Z2Qc_inj_0.
  assert (annotated = 0 → all_labels = []) as Hnone.
  { intros Hz. rewrite <- Hall. by apply annotated_zero_labels. }
  assert (∀ item, item ∈ ranked ↔ item ∈ counts) as Hranked.
  { intros item. by rewrite Hperm. }
  split; [apply length_fmap|]. split; [lia|]. split; [lia|].
  split.
  { unfold rate. case_decide; [apply quotient_mult; lia|].
    replace (length rows) with 0 in * by lia. replace annotated with 0 by lia.
    by rewrite Hzero, float_0_0_zero, Qcmult_0_l. }
  split.
  { unfold rate. case_decide.
    - split; [apply quotient_nonneg|apply quotient_le_1]; lia.
    - rewrite float_0_0_zero. split; [apply Qcle_refl|by vm_compute]. }
  split.
  { unfold average. case_decide; [apply quotient_mult; lia|].
    rewrite Hnone by lia. replace annotated with 0 by lia.
    cbn [length]. by rewrite Hzero, float_0_0_zero, Qcmult_0_l. }
  split.
  { intros Hpos. unfold average. rewrite decide_True by done.
    apply quotient_ge_1; lia. }
  split.
  { intros Hz. unfold average. rewrite decide_False by lia. split; [done|].
    assert (counts = []) as Hc by (unfold counts; by rewrite Hnone).
    rewrite Hc in Hperm. apply Permutation_nil_r in Hperm. by rewrite Hperm. }
  split.
  { rewrite <- (length_fmap fst counts), <- (size_list_to_set (C := gset string)) by done.
    f_equal. apply set_eq. intros k. by rewrite !elem_of_list_to_set, Hkeys. }
  split.
  { rewrite length_take, (Permutation_length Hperm). lia. }
  split.
  { assert (NoDup ranked.*1) as Hnd' by (by rewrite Hperm).
    rewrite <- (take_drop 10 ranked), fmap_app in Hnd'.
    by apply NoDup_app in Hnd' as (? & _). }
  split.
  { apply StronglySorted_take. eapply StronglySorted_impl; [|exact Hsorted].
    intros x y. unfold lower_count. lia. }
  split.
  { intros label count (i & Hin & _)%elem_of_take.
    apply list_elem_of_lookup_2, Hranked in Hin.
    split; [|by apply Hcount].
    rewrite (Hcount _ _ Hin). apply occurrences_pos, Hkeys.
    apply list_elem_of_fmap. by exists (label, count). }
  intros label Hlabel.
  apply Hkeys, list_elem_of_fmap in Hlabel as ([k c] & Hk & Hin). simpl in Hk. subst k.
  pose proof (Hcount _ _ Hin) as Hc.
  apply Hranked in Hin. rewrite <- (take_drop 10 ranked) in Hin, Hsorted.
  apply elem_of_app in Hin as [Htake|Hdrop].
  - left. apply list_elem_of_fmap. by exists (label, c).
  - right. split.
    + rewrite length_take. apply list_elem_of_lookup in Hdrop as [i Hi].
      apply lookup_lt_Some in Hi. rewrite length_drop in Hi. lia.
    + intros item Hitem.
      pose proof (StronglySorted_app_1_elem_of _ _ _ _ _ Hsorted Hitem Hdrop) as Hle.
      unfold lower_count in Hle. simpl in Hle. lia.
Qed.

Lemma propagation_statistics_spec_witness :
  ∃ stats,
    get_propagation_statistics "ec" Examples.chain_world
    = (Ok stats, logged (GraphReadLabels "ec") Examples.chain_world)
    ∧ stats_total_proteins stats = length Examples.chain_nodes
    ∧ (0 ≤ stats_annotation_rate stats ≤ 1)%Qc
    ∧ NoDup (stats_most_common_labels stats).*1.
Proof.
  destruct (propagation_statistics_spec "ec" Examples.chain_world Examples.chain_nodes)
    as (stats & Hrun & Htotal & _ & _ & _ & Hrate & _ & _ & _ & _ & _ & Hnd & _).
  - reflexivity.
  - left. reflexivity.
  - exists stats. split; [exact Hrun|]. split; [exact Htotal|].
    split; [exact Hrate|exact Hnd].
Defined.

(** * Properties of the annotation routes *)

Import Routers.

(** X23. The route that runs the propagation answers every failure
    of the operation with status 500: a disconnected graph store, an
    attribute other than "ec" and "go" (no status 400 here), a store
    without protein, and a disconnected document store, each with the
    message of the error after "Label propagation failed: "; with both
    stores connected, a supported attribute and a protein in the store it
    returns the result. *)
Theorem propagate_route_responses (repr : string → string)
    (request : LabelPropagationRequest) (w : World) :
  (driver w = None →
   propagate_labels_route repr request w
   = (HTTPException 500 "Label propagation failed: Neo4j driver not initialized", w))
  ∧ (is_Some (driver w) →
     ¬ (attribute request = "ec" ∨ attribute request = "go") →
     propagate_labels_route repr request w
     = (HTTPException 500 "Label propagation failed: Attribute must be 'ec' or 'go'", w))
  ∧ (driver w = Some [] →
     attribute request = "ec" ∨ attribute request = "go" →
     propagate_labels_route repr request w
     = (HTTPException 500
          "Label propagation failed: No proteins found for label propagation",
        logged (GraphReadLabels (attribute request)) w))
  ∧ (∀ nodes,
       driver w = Some nodes → nodes ≠ [] →
       attribute request = "ec" ∨ attribute request = "go" →
       mongo w = None →
       (propagate_labels_route repr request w).1
       = HTTPException 500 "Label propagation failed: MongoDB not connected")
  ∧ (∀ nodes,
       driver w = Some nodes → nodes ≠ [] →
       attribute request = "ec" ∨ attribute request = "go" →
       is_Some (mongo w) →
       ∃ result, (propagate_labels_route repr request w).1 = Returned result).
Proof.
  unfold propagate_labels_route. split; [|split; [|split; [|split]]].
  - intros Hdrv.
    rewrite (propagate_labels_unfold_raise request w w
               (Exception "Neo4j driver not initialized")); [done|].
    by rewrite get_proteins_unfold, Hdrv.
  - intros [nodes Hdrv] Hattr.
    rewrite (propagate_labels_unfold_raise request w w
               (ValueError "Attribute must be 'ec' or 'go'")); [done|].
    rewrite get_proteins_unfold, Hdrv. rewrite !decide_False by tauto. done.
  - intros Hdrv Hattr. unfold propagate_labels.
    rewrite io_bind_unfold, get_proteins_unfold, Hdrv.
    destruct (decide (attribute request = "ec")) as [Hec|Hec]; [done|].
    destruct (decide (attribute request = "go")) as [Hgo|Hgo]; [done|]. tauto.
  - intros nodes Hdrv Hne Hattr Hdb.
    destruct (propagate_labels_mongo_down request w nodes Hdrv Hne Hdb Hattr)
      as (p & l & _ & ->). done.
  - intros nodes Hdrv Hne Hattr [db Hdb].
    destruct (propagate_labels_connected request w nodes db Hdrv Hne Hdb Hattr)
      as (result & w' & ->). by exists result.
Qed.

(** X24. The routes that evaluate and that report statistics reject
    an attribute other than "ec" and "go" with status 400 before any
    store is reached, whatever the state of the stores; for a supported
    attribute a disconnected graph store gives status 500 with the
    message of the error; on a connected graph store the statistics are
    returned, and the evaluation answers after the one read of the
    snapshot with a value or with status 500, never 400. *)
Theorem get_route_responses (repr : string → string) (choose : nat → nat → list nat)
    (attribute : string) (w : World) :
  (¬ (attribute = "ec" ∨ attribute = "go") →
   evaluate_propagation_quality_route repr choose attribute w
   = (HTTPException 400 "Attribute must be 'ec' or 'go'", w)
   ∧ get_propagation_statistics_route repr attribute w
     = (HTTPException 400 "Attribute must be 'ec' or 'go'", w))
  ∧ (attribute = "ec" ∨ attribute = "go" →
     driver w = None →
     evaluate_propagation_quality_route repr choose attribute w
     = (HTTPException 500 "Evaluation failed: Neo4j driver not initialized", w)
     ∧ get_propagation_statistics_route repr attribute w
       = (HTTPException 500 "Failed to get statistics: Neo4j driver not initialized", w))
  ∧ (attribute = "ec" ∨ attribute = "go" →
     is_Some (driver w) →
     (∃ stats, get_propagation_statistics_route repr attribute w
               = (Returned stats, logged (GraphReadLabels attribute) w))
     ∧ ∃ response,
         evaluate_propagation_quality_route repr choose attribute w
         = (response, logged (GraphReadLabels attribute) w)
         ∧ ∀ status_code detail,
             response = HTTPException status_code detail → status_code = 500).
Proof.
  assert (attribute ∉ ["ec"; "go"] ↔ ¬ (attribute = "ec" ∨ attribute = "go")) as Hmem.
  { rewrite !elem_of_cons, elem_of_nil. tauto. }
  unfold evaluate_propagation_quality_route, get_propagation_statistics_route.
  split; [|split].
  - intros Hattr. by rewrite !decide_True by by apply Hmem.
  - intros Hattr Hdrv. rewrite !decide_False by (rewrite Hmem; tauto).
    unfold evaluate_propagation_quality, get_propagation_statistics.
    rewrite !io_bind_unfold, get_proteins_unfold, Hdrv. done.
  - intros Hattr [nodes Hdrv]. rewrite !decide_False by (rewrite Hmem; tauto). split.
    + rewrite (get_propagation_statistics_ok attribute w nodes Hdrv Hattr). eauto.
    + pose proof (evaluation_world choose attribute w) as Hworld.
      assert ((get_proteins_for_label_propagation attribute w).2
              = logged (GraphReadLabels attribute) w) as Hread.
      { rewrite get_proteins_unfold, Hdrv. destruct (decide (attribute = "ec")); [done|].
        destruct (decide (attribute = "go")); [done|]. tauto. }
      rewrite Hread in Hworld.
      destruct (evaluate_propagation_quality choose attribute w) as [[evaluation|e] w'].
      * simpl in Hworld. subst w'. eexists. split; [done|]. done.
      * simpl in Hworld. subst w'. eexists. split; [done|]. by intros ?? [= <- _].
Qed.
